(** * Reserve currency engine (pbaas/reserves.cpp): a shallow embedding

    The development follows the C++ source function by function.

    - [CAmount] / [int64_t] values are [Z] with two's-complement wrap-around
      written out ([int64]); [int32_t] weights likewise ([int32]).
    - [arith_uint256] values are [Z] reduced modulo 2^256; its division
      throws on a zero divisor.
    - [std::vector] is [list]; [std::map<uint160, _>] is a [gmap] keyed by the
      160-bit identifier read as a natural number; the [std::multimap] used
      for layering is a key-sorted list (equal keys keep insertion order).
    - [assert] failures and the division exception are explicit outcomes.
    - Declarations of [pbaas/reserves.h] that the source file only uses
      (published constants, flag bits, price helpers, the decimal type) are
      section variables. *)

From Stdlib Require Import ZArith QArith Qround Field Lia Permutation.
From stdpp Require Import base option list gmap fin_maps sorting.

Local Open Scope Z_scope.

(** ** Machine integers *)

Module Int.

Definition INT64_MAX : Z := 2 ^ 63 - 1.
Definition INT64_MIN : Z := - 2 ^ 63.
Definition INT32_MAX : Z := 2 ^ 31 - 1.

(** value of a [w]-bit pattern read as unsigned / as two's complement *)
Definition unsigned (w x : Z) : Z := x mod 2 ^ w.
Definition signed (w x : Z) : Z :=
  let u := x mod 2 ^ w in if u <? 2 ^ (w - 1) then u else u - 2 ^ w.

Definition int64 (x : Z) : Z := signed 64 x.
Definition int32 (x : Z) : Z := signed 32 x.
Definition uint64 (x : Z) : Z := unsigned 64 x.
Definition uint32 (x : Z) : Z := unsigned 32 x.

Definition in_int64 (x : Z) : Prop := INT64_MIN <= x <= INT64_MAX.

(** [a << n] on an [int64_t]: the shift count must be below the width,
    anything else is undefined behaviour ([None]). *)
Definition shl64 (a n : Z) : option Z :=
  if (0 <=? n) && (n <? 64) then Some (int64 (a * 2 ^ n)) else None.

End Int.

Import Int.

(** ** [arith_uint256] *)

Module U256.

Definition norm (x : Z) : Z := x mod 2 ^ 256.

(** [arith_uint256(uint64_t b)]: signed arguments are first converted to
    [uint64_t] *)
Definition of64 (x : Z) : Z := uint64 x.

Definition add (a b : Z) : Z := norm (a + b).
Definition sub (a b : Z) : Z := norm (a - b).
Definition mul (a b : Z) : Z := norm (a * b).
(** [operator*(const base_uint&, uint32_t)] *)
Definition mul32 (a b : Z) : Z := norm (a * uint32 b).
(** [operator/]; [None] is the thrown [uint_error("Division by zero")] *)
Definition div (a b : Z) : option Z := if b =? 0 then None else Some (a / b).
Definition shr1 (a : Z) : Z := a / 2.
(** [GetLow64()] stored into a [CAmount] *)
Definition low64 (a : Z) : Z := int64 (a mod 2 ^ 64).

End U256.

(** ** Published constants *)

(** Modelled from the spec: [SATOSHIDEN] is declared in a header that is not
    part of the source file; the specification fixes it bit-exactly to
    100_000_000. *)
Definition SATOSHIDEN : Z := 100000000.

(** 160-bit currency identifiers *)
Abbreviation uint160 := N.

(** ** [CCurrencyValueMap] *)

Module ValueMap.

(** [valueMap[k]] as an rvalue: a missing key reads as 0 *)
Definition get (m : gmap N Z) (k : N) : Z := default 0 (m !! k).

(** [valueMap[k] += v] *)
Definition add_to (k : N) (v : Z) (m : gmap N Z) : gmap N Z :=
  <[k := int64 (get m k + v)]> m.

(** [valueMap[k] = v] *)
Definition set (k : N) (v : Z) (m : gmap N Z) : gmap N Z := <[k := v]> m.

(** Modelled from the spec: [operator*(CCurrencyValueMap, int)] is declared
    outside the source file; the specification lists it as the scalar
    multiply of the value map, every amount times the scalar. *)
Definition scale (m : gmap N Z) (s : Z) : gmap N Z := (fun v => int64 (v * s)) <$> m.

(** Modelled from the spec: [operator-(CCurrencyValueMap, CCurrencyValueMap)]
    is declared outside the source file; the specification lists it as the
    subtraction of value maps, a missing currency counting as zero. *)
Definition sub (a b : gmap N Z) : gmap N Z :=
  merge (fun x y =>
           match x, y with
           | None, None => None
           | _, _ => Some (int64 (default 0 x - default 0 y))
           end) a b.

(** Modelled from the spec: [HasNegative()] is declared outside the source
    file; the specification describes it as the predicate that some entry
    of the value map is negative. *)
Definition HasNegative (m : gmap N Z) : bool :=
  bool_decide (map_Exists (fun _ v => v < 0) m).

End ValueMap.

(** ** Transfers and fees (lines 31-98, 3695-3710) *)

(** The part of a [CReserveTransfer] that the fee code reads: the flag word,
    the currency amounts it carries and the size of its destination. *)
Record CReserveTransfer := mkReserveTransfer {
  rt_flags : Z;
  reserveValues : gmap N Z;
  destination_size : Z
}.

Section Fees.

(** published constants of [CReserveTransfer] / [CReserveExchange] *)
Variables DEFAULT_PER_STEP_FEE DESTINATION_BYTE_DIVISOR : Z.
Variables SUCCESS_FEE MIN_SUCCESS_FEE : Z.
(** flag bits of [CReserveTransfer::EOptions] *)
Variables FEE_OUTPUT PRECONVERT CONVERT RESERVE_TO_RESERVE : Z.

(** [flags & BIT] used as a condition *)
Definition has_flag (flags bit : Z) : bool := negb (Z.land flags bit =? 0).

(** Modelled from the spec: the accessors [IsConversion], [IsPreConversion]
    and [IsReserveToReserve] are declared in the header; the specification
    describes a transfer's kind as membership of the flag in its flag set. *)
Definition IsConversion (t : CReserveTransfer) : bool := has_flag (rt_flags t) CONVERT.
Definition IsPreConversion (t : CReserveTransfer) : bool := has_flag (rt_flags t) PRECONVERT.
Definition IsReserveToReserve (t : CReserveTransfer) : bool :=
  has_flag (rt_flags t) RESERVE_TO_RESERVE.

(** [CReserveTransfer::CalculateTransferFee(destination, flags)].  The
    returned expression is written [FEE << 1 + ((FEE << 1) * (size / DIV))];
    in C++ [+] binds tighter than [<<], so the whole sum is the shift
    count.  The count is a [size_t]. *)
Definition CalculateTransferFee (size flags : Z) : option Z :=
  if has_flag flags FEE_OUTPUT || (negb (has_flag flags PRECONVERT) && has_flag flags CONVERT)
  then Some 0
  else
    twice ← shl64 DEFAULT_PER_STEP_FEE 1;
    shl64 DEFAULT_PER_STEP_FEE
          (uint64 (1 + uint64 (twice * (size / DESTINATION_BYTE_DIVISOR)))).

(** the fee formula of the specification *)
Definition transfer_fee_formula (size : Z) : Z :=
  (2 * DEFAULT_PER_STEP_FEE) * (1 + size / DESTINATION_BYTE_DIVISOR).

(** [CReserveTransactionDescriptor::CalculateConversionFeeNoMin] *)
Definition CalculateConversionFeeNoMin (inputAmount : Z) : Z :=
  let bigAmount := U256.of64 inputAmount in
  let bigSatoshi := U256.of64 SATOSHIDEN in
  U256.low64 (U256.mul bigAmount (U256.of64 SUCCESS_FEE) / bigSatoshi).

(** [CReserveTransactionDescriptor::CalculateConversionFee] *)
Definition CalculateConversionFee (inputAmount : Z) : Z :=
  let fee := CalculateConversionFeeNoMin inputAmount in
  if fee <? MIN_SUCCESS_FEE then MIN_SUCCESS_FEE else fee.

(** [CReserveTransfer::ConversionFee()] *)
Definition ConversionFee (t : CReserveTransfer) : gmap N Z :=
  if IsConversion t || IsPreConversion t then
    let retVal :=
      map_fold (fun cur amount acc =>
                  ValueMap.add_to cur (CalculateConversionFee amount) acc)
               ∅ (reserveValues t) in
    if IsReserveToReserve t then ValueMap.scale retVal 2 else retVal
  else ∅.

End Fees.

(** ** Outcomes of the C++ code *)

(** ways a call can end without returning *)
Inductive fault : Type :=
| AssertionFailed      (** [assert(...)] evaluated to false *)
| DivisionByZero       (** [arith_uint256] division threw [uint_error] *)
| Undefined.           (** integer division by zero, out-of-range access *)

Inductive outcome (A : Type) : Type :=
| Returns (a : A)
| Fails (f : fault).
Arguments Returns {A} a.
Arguments Fails {A} f.

Definition outcome_bind {A B} (c : outcome A) (k : A -> outcome B) : outcome B :=
  match c with
  | Returns a => k a
  | Fails f => Fails f
  end.

(** [a / b] on [arith_uint256] inside an [outcome] computation *)
Definition udiv (a b : Z) : outcome Z :=
  match U256.div a b with
  | Some q => Returns q
  | None => Fails DivisionByZero
  end.

(** ** [CCurrencyState] *)

Record CCurrencyState := mkCurrencyState {
  version : Z;
  flags : Z;
  currencyID : N;
  currencies : list N;
  weights : list Z;          (* int32_t each *)
  reserves : list Z;         (* int64_t each *)
  initialSupply : Z;
  emitted : Z;
  supply : Z
}.

(** vector element read; the position is in range in a well-formed state
    (|currencies| = |weights| = |reserves|), otherwise the read is 0 here *)
Definition at_ (l : list Z) (i : nat) : Z := default 0 (l !! i).

(** ** Emission (lines 3550-3650) *)

Section Emission.

(** [FLAG_FRACTIONAL] of [CCurrencyState::EFlags] *)
Variable FLAG_FRACTIONAL : Z.
(** [CCurrencyValueMap(currencies, reserves) <= CCurrencyValueMap()], the
    header's comparison of the reserves with the empty value map *)
Variable reserves_le_empty : list N -> list Z -> bool.
(** [std::shuffle(first, last, std::minstd_rand0(seed))] *)
Variable shuffle : Z -> list Z -> list Z.

(** Modelled from the spec: [IsFractional()] is declared in the header; the
    specification describes it as the FRACTIONAL flag of the state. *)
Definition IsFractional (st : CCurrencyState) : bool :=
  negb (Z.land (flags st) FLAG_FRACTIONAL =? 0).

(** the loop [for (auto &weight : weights)] of lines 3609-3614: returns the
    updated weights and [totalUpdates] *)
Fixpoint scaleWeights (bigRatioDelta : Z) (ws : list Z) (totalUpdates : Z)
  : list Z * Z :=
  match ws with
  | [] => ([], totalUpdates)
  | weight :: rest =>
      let weightDelta :=
        U256.low64 (U256.mul bigRatioDelta (U256.of64 weight) / U256.of64 SATOSHIDEN) in
      let '(rest', total) := scaleWeights bigRatioDelta rest (int64 (totalUpdates + weightDelta)) in
      (int32 (weight - weightDelta) :: rest', total)
  end.

(** the loop of lines 3628-3636 filling [extraWeight] *)
Fixpoint fillExtra (n : nat) (forAll forSome : Z) : list Z :=
  match n with
  | O => []
  | S n' =>
      if forSome =? 0
      then forAll :: fillExtra n' forAll forSome
      else int64 (forAll + 1) :: fillExtra n' forAll (int64 (forSome - 1))
  end.

(** the loop of lines 3639-3642: [weights[i] -= extraWeight[i]] *)
Definition subtractExtra (ws extra : list Z) : list Z :=
  imap (fun i w => int32 (w - at_ extra i)) ws.

(** lines 3580-3600: the new total ratio, rounded half to even on the
    eight-digit remainder *)
Definition newTotalRatio (InitialRatio supply toEmit : Z) : outcome Z :=
  let bigSatoshi := U256.of64 SATOSHIDEN in
  let bigInitial := U256.of64 InitialRatio in
  let bigEmission := U256.of64 toEmit in
  let bigSupply := U256.of64 supply in
  outcome_bind
    (udiv (U256.mul (U256.mul bigInitial bigSupply) bigSatoshi)
          (U256.add bigSupply bigEmission))
    (fun bigScratch0 =>
       let bigRatio0 := bigScratch0 / bigSatoshi in
       let capped := bigSatoshi <=? bigRatio0 in
       let bigScratch :=
         if capped then U256.mul (U256.of64 SATOSHIDEN) (U256.of64 SATOSHIDEN)
         else bigScratch0 in
       let bigRatio := if capped then bigSatoshi else bigRatio0 in
       let newRatio0 := U256.low64 bigRatio in
       let remainder := U256.low64 (U256.sub bigScratch (U256.mul32 bigRatio SATOSHIDEN)) in
       let half := Z.shiftr SATOSHIDEN 1 in
       Returns (if (half <? uint64 remainder)
                   || ((remainder =? half) && negb (Z.land newRatio0 1 =? 0))
                then int64 (newRatio0 + 1) else newRatio0)).

(** lines 3619-3643: the part of the decrease that the proportional
    shares did not cover, spread over the currencies *)
Definition spreadExtra (supply : Z) (numCurrencies : nat) (updateExtra : Z) (ws : list Z)
  : outcome (list Z) :=
  let n := Z.of_nat numCurrencies in
  if n =? 0 then Fails Undefined
  else
    let forAll := int64 (uint64 updateExtra / n) in
    let forSome := int64 (uint64 updateExtra mod n) in
    let seed := int64 (int64 (supply + forAll) + forSome) in
    let extraWeight := shuffle seed (fillExtra numCurrencies forAll forSome) in
    Returns (subtractExtra ws extraWeight).

Definition UpdateWithEmission (st : CCurrencyState) (toEmit : Z) : outcome CCurrencyState :=
  let initialSupply' := supply st in
  if negb (IsFractional st) || (supply st <=? 0)
     || reserves_le_empty (currencies st) (reserves st)
  then
    if supply st <? 0
    then Returns (mkCurrencyState (version st) (flags st) (currencyID st) (currencies st)
                    (weights st) (reserves st) initialSupply' toEmit toEmit)
    else Returns (mkCurrencyState (version st) (flags st) (currencyID st) (currencies st)
                    (weights st) (reserves st) initialSupply' toEmit
                    (int64 (supply st + toEmit)))
  else if toEmit =? 0
  then Returns (mkCurrencyState (version st) (flags st) (currencyID st) (currencies st)
                  (weights st) (reserves st) initialSupply' 0 (supply st))
  else
    let InitialRatio := fold_left (fun acc w => int64 (acc + w)) (weights st) 0 in
    outcome_bind (newTotalRatio InitialRatio (supply st) toEmit)
      (fun newRatio =>
         let ratioDelta := int64 (InitialRatio - newRatio) in
         let bigRatioDelta := U256.of64 ratioDelta in
         let scaled := scaleWeights bigRatioDelta (weights st) 0 in
         let updateExtra := int64 (ratioDelta - scaled.2) in
         outcome_bind
           (if updateExtra =? 0 then Returns scaled.1
            else spreadExtra (supply st) (length (currencies st)) updateExtra scaled.1)
           (fun weights' =>
              Returns (mkCurrencyState (version st) (flags st) (currencyID st)
                         (currencies st) weights' (reserves st)
                         initialSupply' toEmit (int64 (initialSupply' + toEmit))))).

End Emission.

(** ** The import ledger (lines 1359-1384 and 3207-3264) *)

Record CReserveInOuts := mkInOuts {
  reserveIn : Z;
  reserveOut : Z;
  reserveOutConverted : Z;
  nativeOutConverted : Z;
  reserveConversionFees : Z
}.

(** the members of [CReserveTransactionDescriptor] that the import ledger
    reads and writes *)
Record Ledger := mkLedger {
  ledger_currencies : gmap N CReserveInOuts;
  nativeIn : Z;
  nativeOut : Z
}.

Definition noInOuts : CReserveInOuts := mkInOuts 0 0 0 0 0.

(** [currencies[currency]]: [operator[]] default-constructs a missing entry *)
Definition inOuts (l : Ledger) (currency : N) : CReserveInOuts :=
  default noInOuts (ledger_currencies l !! currency).

Definition withInOuts (l : Ledger) (currency : N) (io : CReserveInOuts) : Ledger :=
  mkLedger (<[currency := io]> (ledger_currencies l)) (nativeIn l) (nativeOut l).

Definition AddReserveInput (currency : N) (value : Z) (l : Ledger) : Ledger :=
  let io := inOuts l currency in
  withInOuts l currency
    (mkInOuts (int64 (reserveIn io + value)) (reserveOut io) (reserveOutConverted io)
              (nativeOutConverted io) (reserveConversionFees io)).

Definition AddReserveOutput (currency : N) (value : Z) (l : Ledger) : Ledger :=
  let io := inOuts l currency in
  withInOuts l currency
    (mkInOuts (reserveIn io) (int64 (reserveOut io + value)) (reserveOutConverted io)
              (nativeOutConverted io) (reserveConversionFees io)).

Definition AddReserveOutConverted (currency : N) (value : Z) (l : Ledger) : Ledger :=
  let io := inOuts l currency in
  withInOuts l currency
    (mkInOuts (reserveIn io) (reserveOut io) (int64 (reserveOutConverted io + value))
              (nativeOutConverted io) (reserveConversionFees io)).

Definition AddNativeOutConverted (currency : N) (value : Z) (l : Ledger) : Ledger :=
  let io := inOuts l currency in
  withInOuts l currency
    (mkInOuts (reserveIn io) (reserveOut io) (reserveOutConverted io)
              (int64 (nativeOutConverted io + value)) (reserveConversionFees io)).

(** what the closing loop of [AddReserveTransferImportOutputs] accumulates *)
Record Closing := mkClosing {
  ReserveInputs : gmap N Z;
  spentCurrencyOut : gmap N Z;
  systemOutConverted : Z;
  state_nativeOut : Z          (* newCurrencyState.nativeOut *)
}.

Section ImportClosing.

Variables importCurrencyID systemDestID systemID : N.

(** body of [for (auto &oneInOut : currencies)], lines 3213-3240 *)
Definition closeOne (id : N) (io : CReserveInOuts) (c : Closing) : Closing :=
  if decide (id = importCurrencyID) then
    mkClosing (ReserveInputs c) (spentCurrencyOut c)
              (if decide (id = systemDestID)
               then int64 (systemOutConverted c + nativeOutConverted io)
               else systemOutConverted c)
              (nativeOutConverted io)
  else
    let ri1 := ValueMap.add_to importCurrencyID (nativeOutConverted io) (ReserveInputs c) in
    let soc := if decide (id = systemDestID)
               then int64 (systemOutConverted c + reserveOutConverted io)
               else systemOutConverted c in
    let ri2 := if negb (reserveIn io =? 0) || negb (reserveOutConverted io =? 0)
               then ValueMap.set id (int64 (reserveIn io + reserveOutConverted io)) ri1
               else ri1 in
    let sp := if negb (reserveOut io =? 0)
              then ValueMap.set id (reserveOut io) (spentCurrencyOut c)
              else spentCurrencyOut c in
    mkClosing ri2 sp soc (state_nativeOut c).

(** lines 3207-3264: the closing stage of [AddReserveTransferImportOutputs].
    [spentCurrencyOut] is cleared, the ledger is folded into
    [ReserveInputs] and [spentCurrencyOut], and the conservation check
    decides the return value.  Returns the boolean result, the ledger as
    left behind and the accumulated maps. *)
Definition closeImport (l : Ledger) (state_nativeOut0 : Z) : bool * Ledger * Closing :=
  let c0 := mkClosing ∅ ∅ 0 state_nativeOut0 in
  let c1 := map_fold closeOne c0 (ledger_currencies l) in
  let l1 := if negb (systemOutConverted c1 =? 0)
            then let io := inOuts l importCurrencyID in
                 withInOuts l importCurrencyID
                   (mkInOuts (reserveIn io) (reserveOut io) (systemOutConverted c1)
                             (nativeOutConverted io) (reserveConversionFees io))
            else l in
  let ri := if negb (nativeIn l =? 0) || negb (systemOutConverted c1 =? 0)
            then ValueMap.set systemID (Z.max (nativeIn l) (systemOutConverted c1))
                              (ReserveInputs c1)
            else ReserveInputs c1 in
  let sp := if negb (nativeOut l =? 0)
            then ValueMap.add_to systemID (nativeOut l) (spentCurrencyOut c1)
            else spentCurrencyOut c1 in
  let c2 := mkClosing ri sp (systemOutConverted c1) (state_nativeOut c1) in
  if ValueMap.HasNegative (ValueMap.sub ri sp)
  then (false, l1, c2)
  else (true, l1, c2).

End ImportClosing.

(** ** The conversion engine (lines 728-1310) *)

(** [cpp_dec_float_50] and the conversion [CCurrencyState::to_int64]: the
    decimal type and its operations come from the multiprecision library,
    so they are an interface here.  [dec_to_int64 x = None] stands for
    [to_int64] returning [false]. *)
Record DecimalKernel := mkKernel {
  dec : Type;
  dec_of_int : Z -> dec;                 (* cpp_dec_float_50(std::to_string(n)) *)
  dec_add : dec -> dec -> dec;
  dec_sub : dec -> dec -> dec;
  dec_mul : dec -> dec -> dec;
  dec_div : dec -> dec -> dec;
  dec_pow : dec -> dec -> dec;
  dec_to_int64 : dec -> option Z
}.

(** price helpers of [CCurrencyState] that are declared in the header *)
Record PriceHelpers := mkHelpers {
  PricesInReserve : CCurrencyState -> list Z;
  PriceInReserve : CCurrencyState -> nat -> Z;
  ReserveToNative : CCurrencyState -> Z -> nat -> Z;
  NativeToReserve : CCurrencyState -> Z -> nat -> Z;
  ReserveToNativeRaw : Z -> Z -> Z;
  NativeToReserveRaw : Z -> Z -> Z
}.

(** control flow inside [ConvertAmounts]: fall through, [return
    initialRates;], or a fault *)
Inductive flow (A : Type) : Type :=
| Next (a : A)
| Bail
| Crash (f : fault).
Arguments Next {A} a.
Arguments Bail {A}.
Arguments Crash {A} f.

#[global] Instance flow_ret : MRet flow := fun A a => Next a.
#[global] Instance flow_bind : MBind flow := fun A B k c =>
  match c with
  | Next a => k a
  | Bail => Bail
  | Crash f => Crash f
  end.

Definition liftO {A} (c : outcome A) : flow A :=
  match c with
  | Returns a => Next a
  | Fails f => Crash f
  end.

Definition fdiv (a b : Z) : flow Z := liftO (udiv a b).

Definition assert (b : bool) : flow unit :=
  if b then Next tt else Crash AssertionFailed.

(** one layer: [std::pair<int32_t, std::pair<CAmount, std::vector<uint160>>>] *)
Record Layer := mkLayer {
  layer_weight : Z;
  layer_amount : Z;
  layer_ids : list N
}.

(** [std::multimap<CAmount, std::pair<CAmount, uint160>>]: sorted by key,
    a new element goes after the elements with an equal key *)
Abbreviation multimap := (list (Z * (Z * N))).

Fixpoint mm_insert (k : Z) (v : Z * N) (m : multimap) : multimap :=
  match m with
  | [] => [(k, v)]
  | (k', v') :: rest =>
      if k <? k' then (k, v) :: m else (k', v') :: mm_insert k v rest
  end.

(** [m.upper_bound(k)]: the elements before the bound and from the bound on *)
Fixpoint upper_bound (k : Z) (m : multimap) : multimap * multimap :=
  match m with
  | [] => ([], [])
  | (k', v') :: rest =>
      if k <? k' then ([], m)
      else let '(pre, suf) := upper_bound k rest in ((k', v') :: pre, suf)
  end.

(** Modelled from the spec: [GetReserveMap()] is declared in the header; the
    specification indexes every per-reserve vector by the position of the
    reserve id in [currencies]. *)
Definition GetReserveMap (st : CCurrencyState) : gmap N nat :=
  fold_left (fun m '(i, c) => <[c := i]> m) (imap (fun i c => (i, c)) (currencies st)) ∅.

(** [reserveMap[id]] *)
Definition reserveIndex (reserveMap : gmap N nat) (id : N) : nat :=
  default O (reserveMap !! id).

Section Conversion.

Variable K : DecimalKernel.
Variable H : PriceHelpers.

Definition dec_one : dec K := dec_of_int K 1.
Definition dec_bigSatoshi : dec K := dec_of_int K 100000000.

(** the decimal expression of line 748, from the arguments of
    [CalculateFractionalOut] *)
Definition supplyoutDecimal (NormalizedReserveIn Supply NormalizedReserve reserveRatio : Z)
  : dec K :=
  let reservein := dec_div K (dec_of_int K NormalizedReserveIn) dec_bigSatoshi in
  let supply := dec_div K (dec_of_int K (if Supply =? 0 then 1 else Supply)) dec_bigSatoshi in
  let reserve :=
    dec_div K (dec_of_int K (if NormalizedReserve =? 0 then 1 else NormalizedReserve))
            dec_bigSatoshi in
  let ratio := dec_div K (dec_of_int K reserveRatio) dec_bigSatoshi in
  dec_mul K dec_bigSatoshi
    (dec_mul K supply
       (dec_sub K (dec_pow K (dec_add K (dec_div K reservein reserve) dec_one) ratio)
                dec_one)).

(** lines 728-757 *)
Definition CalculateFractionalOut (NormalizedReserveIn Supply NormalizedReserve reserveRatio : Z)
  : Z :=
  if NormalizedReserveIn =? 0 then 0
  else
    match dec_to_int64 K (supplyoutDecimal NormalizedReserveIn Supply NormalizedReserve
                                           reserveRatio) with
    | Some fractionalOut => fractionalOut
    | None => -1
    end.

(** the decimal expression of line 779, from the arguments of
    [CalculateReserveOut] *)
Definition reserveoutDecimal (FractionalIn Supply NormalizedReserve reserveRatio : Z)
  : dec K :=
  let fractionalin := dec_div K (dec_of_int K FractionalIn) dec_bigSatoshi in
  let supply := dec_div K (dec_of_int K (if Supply =? 0 then 1 else Supply)) dec_bigSatoshi in
  let reserve :=
    dec_div K (dec_of_int K (if NormalizedReserve =? 0 then 1 else NormalizedReserve))
            dec_bigSatoshi in
  let ratio := dec_div K (dec_of_int K reserveRatio) dec_bigSatoshi in
  dec_mul K dec_bigSatoshi
    (dec_mul K reserve
       (dec_sub K dec_one
          (dec_pow K (dec_sub K dec_one (dec_div K fractionalin supply))
                   (dec_div K dec_one ratio)))).

(** lines 759-788; a failed conversion to [int64_t] runs into
    [assert(false)] *)
Definition CalculateReserveOut (FractionalIn Supply NormalizedReserve reserveRatio : Z)
  : outcome Z :=
  if FractionalIn =? 0 then Returns 0
  else
    match dec_to_int64 K (reserveoutDecimal FractionalIn Supply NormalizedReserve
                                            reserveRatio) with
    | Some reserveOut => Returns reserveOut
    | None => Fails AssertionFailed
    end.

(** *** Parameter checks, lines 812-888 *)

(** the loop of lines 816-822: the index at which it stops *)
Fixpoint scanRows (rows : list (list Z)) (numCurrencies : nat) : nat :=
  match rows with
  | [] => O
  | row :: rest =>
      if decide (length row = numCurrencies)
      then S (scanRows rest numCurrencies) else O
  end.

Definition nonzero (x : Z) : bool := negb (x =? 0).

Inductive paramCheck : Type :=
| InvalidParameters           (** the [else] branch of line 846 *)
| HaveConversion (b : bool).

Definition checkParameters (numCurrencies : nat) (inputReserves inputFractional : list Z)
           (pCrossConversions : option (list (list Z))) : paramCheck :=
  if bool_decide (length inputReserves = length inputFractional)
     && bool_decide (length inputReserves = numCurrencies)
     && match pCrossConversions with
        | None => true
        | Some rows => bool_decide (length rows = numCurrencies)
        end
  then
    let i := match pCrossConversions with
             | None => O
             | Some rows => scanRows (take numCurrencies rows) numCurrencies
             end in
    if match pCrossConversions with
       | None => true
       | Some _ => bool_decide (i = numCurrencies)
       end
    then HaveConversion (existsb nonzero inputReserves || existsb nonzero inputFractional)
    else HaveConversion false
  else InvalidParameters.

(** *** Weights, lines 930-952 *)

Fixpoint weightLoop (ws : list Z) (maxReserveRatio totalReserveWeight : Z) : flow (Z * Z) :=
  match ws with
  | [] => Next (maxReserveRatio, totalReserveWeight)
  | weight :: rest =>
      let maxReserveRatio' := if maxReserveRatio <? weight then weight else maxReserveRatio in
      let totalReserveWeight' := int32 (totalReserveWeight + weight) in
      if weight =? 0 then Bail
      else weightLoop rest maxReserveRatio' totalReserveWeight'
  end.

Definition checkWeights (st : CCurrencyState) : flow (Z * Z) :=
  '(maxReserveRatio, totalReserveWeight) ← weightLoop (weights st) 0 0;
  if maxReserveRatio =? 0 then Bail
  else if U256.of64 SATOSHIDEN <? U256.of64 totalReserveWeight then Bail
  else Next (maxReserveRatio, totalReserveWeight).

(** *** Net flows, lines 960-1003 *)

Definition currencyAt (st : CCurrencyState) (i : nat) : N := default 0%N (currencies st !! i).

Fixpoint netFlows (st : CCurrencyState) (inputReserves inputFractional : list Z)
         (bigMaxReserveRatio : Z) (idx : list nat) (fractionalIn fractionalOut : multimap)
  : flow (multimap * multimap) :=
  match idx with
  | [] => Next (fractionalIn, fractionalOut)
  | i :: rest =>
      let weight := U256.of64 (at_ (weights st) i) in
      let asNative := ReserveToNative H st (at_ inputReserves i) i in
      if asNative <? 0 then Bail
      else
        let netFractional := int64 (at_ inputFractional i - asNative) in
        if 0 <? netFractional then
          bigDeltaRatio ← fdiv (U256.mul (U256.of64 netFractional) bigMaxReserveRatio) weight;
          if INT64_MAX <? bigDeltaRatio then Bail
          else netFlows st inputReserves inputFractional bigMaxReserveRatio rest
                        (mm_insert (U256.low64 bigDeltaRatio) (netFractional, currencyAt st i)
                                   fractionalIn)
                        fractionalOut
        else if netFractional <? 0 then
          let netFractional' := int64 (- netFractional) in
          bigDeltaRatio ← fdiv (U256.mul (U256.of64 netFractional') bigMaxReserveRatio) weight;
          if INT64_MAX <? bigDeltaRatio then Bail
          else netFlows st inputReserves inputFractional bigMaxReserveRatio rest
                        fractionalIn
                        (mm_insert (U256.low64 bigDeltaRatio) (netFractional', currencyAt st i)
                                   fractionalOut)
        else netFlows st inputReserves inputFractional bigMaxReserveRatio rest
                      fractionalIn fractionalOut
  end.

(** *** Layers, lines 1011-1069 *)

Definition emptyLayer : Layer := mkLayer 0 0 [].

(** inner loop of lines 1025-1041, from the bound to the end of the multimap *)
Fixpoint layerIn (st : CCurrencyState) (reserveMap : gmap N nat) (bigMaxReserveRatio : Z)
         (layerHeight : Z) (els : multimap) (L : Layer) : flow (multimap * Layer) :=
  match els with
  | [] => Next ([], L)
  | (k, (amount, id)) :: rest =>
      let weight := at_ (weights st) (reserveIndex reserveMap id) in
      q ← fdiv (U256.mul (U256.of64 layerHeight) (U256.of64 weight)) bigMaxReserveRatio;
      let curAmt := U256.low64 q in
      let amount' := int64 (amount - curAmt) in
      if amount' <? 0 then Bail
      else
        '(rest', L') ← layerIn st reserveMap bigMaxReserveRatio layerHeight rest
                        (mkLayer (int32 (layer_weight L + weight))
                                 (int64 (layer_amount L + curAmt))
                                 (layer_ids L ++ [id]));
        Next ((k, (amount', id)) :: rest', L')
  end.

(** inner loop of lines 1052-1068 *)
Fixpoint layerOut (st : CCurrencyState) (reserveMap : gmap N nat) (bigMaxReserveRatio : Z)
         (layerHeight : Z) (els : multimap) (L : Layer) : flow (multimap * Layer) :=
  match els with
  | [] => Next ([], L)
  | (k, (amount, id)) :: rest =>
      let weight := at_ (weights st) (reserveIndex reserveMap id) in
      bigCurAmt ← fdiv (U256.mul (U256.of64 layerHeight) (U256.of64 weight)) bigMaxReserveRatio;
      if INT64_MAX <? bigCurAmt then Bail
      else
        let curAmt := U256.low64 bigCurAmt in
        let amount' := int64 (amount - curAmt) in
        _ ← assert (0 <=? amount');
        '(rest', L') ← layerOut st reserveMap bigMaxReserveRatio layerHeight rest
                        (mkLayer (int32 (layer_weight L + weight))
                                 (int64 (layer_amount L + curAmt))
                                 (layer_ids L ++ [id]));
        Next ((k, (amount', id)) :: rest', L')
  end.

(** the outer loops of lines 1017 and 1045.  Every round moves the bound
    past at least one element, so the length of the multimap (plus one for
    the final test) bounds the number of rounds; running out of fuel is
    reported as a fault and never happens. *)
Fixpoint layerLoop (inner : Z -> multimap -> Layer -> flow (multimap * Layer))
         (fuel : nat) (layerAmount : Z) (m : multimap) (layers : list Layer)
  : flow (list Layer) :=
  match fuel with
  | O => Crash Undefined
  | S fuel' =>
      match upper_bound layerAmount m with
      | (_, []) => Next layers
      | (pre, ((k, _) :: _) as suf) =>
          let layerHeight := int64 (k - layerAmount) in
          '(suf', L) ← inner layerHeight suf emptyLayer;
          layerLoop inner fuel' k (pre ++ suf') (layers ++ [L])
      end
  end.

Definition fractionalLayers (inner : Z -> multimap -> Layer -> flow (multimap * Layer))
           (m : multimap) : flow (list Layer) :=
  layerLoop inner (S (length m)) 0 m [].

(** *** Buy and sell passes, lines 1071-1192 *)

Section Passes.

Variable st : CCurrencyState.
Variable reserveMap : gmap N nat.

Definition weightOf (id : N) : Z := at_ (weights st) (reserveIndex reserveMap id).

Definition bigSupply : Z := U256.of64 (supply st).
Definition bigSatoshi : Z := U256.of64 SATOSHIDEN.

(** lines 1096-1110 *)
Fixpoint buyShares (ids : list N) (bigNewSupply bigLayerWeight : Z)
         (fractionalOutMap : gmap N (Z * Z)) : flow (gmap N (Z * Z)) :=
  match ids with
  | [] => Next fractionalOutMap
  | id :: rest =>
      q ← fdiv (U256.mul32 bigNewSupply (weightOf id)) bigLayerWeight;
      let newSupplyForCurrency := U256.low64 q in
      buyShares rest bigNewSupply bigLayerWeight
        (match fractionalOutMap !! id with
         | None => <[id := (newSupplyForCurrency, 0)]> fractionalOutMap
         | Some (first, second) =>
             <[id := (int64 (first + newSupplyForCurrency), second)]> fractionalOutMap
         end)
  end.

(** lines 1078-1111: returns [addSupply], [addNormalizedReserves] and the map *)
Fixpoint buyPass (layers : list Layer) (addSupply addNormalizedReserves : Z)
         (fractionalOutMap : gmap N (Z * Z)) : flow (Z * Z * gmap N (Z * Z)) :=
  match layers with
  | [] => Next (addSupply, addNormalizedReserves, fractionalOutMap)
  | layer :: rest =>
      let bigLayerWeight := U256.of64 (layer_weight layer) in
      let totalLayerReserves :=
        int64 (U256.low64 (U256.mul bigSupply bigLayerWeight / bigSatoshi)
               + addNormalizedReserves) in
      let addNormalizedReserves' := int64 (addNormalizedReserves + layer_amount layer) in
      let newSupply :=
        CalculateFractionalOut (layer_amount layer) (int64 (supply st + addSupply))
                               totalLayerReserves (layer_weight layer) in
      if newSupply <? 0 then Bail
      else
        let bigNewSupply := U256.of64 newSupply in
        let addSupply' := int64 (addSupply + newSupply) in
        m ← buyShares (layer_ids layer) bigNewSupply bigLayerWeight fractionalOutMap;
        buyPass rest addSupply' addNormalizedReserves' m
  end.

(** lines 1141-1157 *)
Fixpoint sellShares (ids : list N) (newNormalizedReserveBB newNormalizedReserveAB : Z)
         (bigLayerWeight : Z) (fractionalInMap : gmap N (Z * Z)) : flow (gmap N (Z * Z)) :=
  match ids with
  | [] => Next fractionalInMap
  | id :: rest =>
      qBB ← fdiv (U256.mul (U256.of64 newNormalizedReserveBB) (U256.of64 (weightOf id)))
                 bigLayerWeight;
      qAB ← fdiv (U256.mul (U256.of64 newNormalizedReserveAB) (U256.of64 (weightOf id)))
                 bigLayerWeight;
      let newReservesForCurrencyBB := U256.low64 qBB in
      let newReservesForCurrencyAB := U256.low64 qAB in
      sellShares rest newNormalizedReserveBB newNormalizedReserveAB bigLayerWeight
        (match fractionalInMap !! id with
         | None => <[id := (newReservesForCurrencyBB, newReservesForCurrencyAB)]>
                     fractionalInMap
         | Some (first, second) =>
             <[id := (int64 (first + newReservesForCurrencyBB),
                      int64 (second + newReservesForCurrencyAB))]> fractionalInMap
         end)
  end.

(** lines 1124-1158: returns [addSupply], [addNormalizedReservesBB],
    [addNormalizedReservesAB] and the map *)
Fixpoint sellPass (supplyAfterBuy : Z) (layers : list Layer)
         (addSupply addNormalizedReservesBB addNormalizedReservesAB : Z)
         (fractionalInMap : gmap N (Z * Z)) : flow (Z * Z * Z * gmap N (Z * Z)) :=
  match layers with
  | [] => Next (addSupply, addNormalizedReservesBB, addNormalizedReservesAB, fractionalInMap)
  | layer :: rest =>
      let bigLayerWeight := U256.of64 (layer_weight layer) in
      let totalLayerReservesBB :=
        int64 (U256.low64 (U256.mul bigSupply bigLayerWeight / bigSatoshi)
               + addNormalizedReservesBB) in
      let totalLayerReservesAB :=
        int64 (U256.low64 (U256.mul (U256.of64 supplyAfterBuy) bigLayerWeight / bigSatoshi)
               + addNormalizedReservesAB) in
      newNormalizedReserveBB ←
        liftO (CalculateReserveOut (layer_amount layer) (int64 (supply st + addSupply))
                 (int64 (totalLayerReservesBB + addNormalizedReservesBB))
                 (layer_weight layer));
      newNormalizedReserveAB ←
        liftO (CalculateReserveOut (layer_amount layer) (int64 (supplyAfterBuy + addSupply))
                 (int64 (totalLayerReservesAB + addNormalizedReservesAB))
                 (layer_weight layer));
      let addSupply' := int64 (addSupply - layer_amount layer) in
      let addNormalizedReservesBB' := int64 (addNormalizedReservesBB - newNormalizedReserveBB) in
      let addNormalizedReservesAB' := int64 (addNormalizedReservesAB - newNormalizedReserveAB) in
      m ← sellShares (layer_ids layer) newNormalizedReserveBB newNormalizedReserveAB
                     bigLayerWeight fractionalInMap;
      sellPass supplyAfterBuy rest addSupply' addNormalizedReservesBB'
               addNormalizedReservesAB' m
  end.

(** lines 1184-1191 *)
Fixpoint rebuyShares (ids : list N) (bigNewSupply bigLayerWeight : Z)
         (fractionalOutMap : gmap N (Z * Z)) : flow (gmap N (Z * Z)) :=
  match ids with
  | [] => Next fractionalOutMap
  | id :: rest =>
      match fractionalOutMap !! id with
      | None => Crash AssertionFailed
      | Some (first, second) =>
          q ← fdiv (U256.mul32 bigNewSupply (weightOf id)) bigLayerWeight;
          rebuyShares rest bigNewSupply bigLayerWeight
            (<[id := (first, int64 (second + U256.low64 q))]> fractionalOutMap)
      end
  end.

(** lines 1176-1192: the buy pass against the state after the sells *)
Fixpoint rebuyPass (supplyAfterSell : Z) (layers : list Layer)
         (addSupply addNormalizedReserves : Z)
         (fractionalOutMap : gmap N (Z * Z)) : flow (gmap N (Z * Z)) :=
  match layers with
  | [] => Next fractionalOutMap
  | layer :: rest =>
      let bigLayerWeight := U256.of64 (layer_weight layer) in
      let totalLayerReserves :=
        int64 (U256.low64 (U256.mul (U256.of64 supplyAfterSell) bigLayerWeight / bigSatoshi)
               + addNormalizedReserves) in
      let addNormalizedReserves' := int64 (addNormalizedReserves + layer_amount layer) in
      let newSupply :=
        CalculateFractionalOut (layer_amount layer) (int64 (supplyAfterSell + addSupply))
                               totalLayerReserves (layer_weight layer) in
      let bigNewSupply := U256.of64 newSupply in
      let addSupply' := int64 (addSupply + newSupply) in
      m ← rebuyShares (layer_ids layer) bigNewSupply bigLayerWeight fractionalOutMap;
      rebuyPass supplyAfterSell rest addSupply' addNormalizedReserves' m
  end.

(** lines 1071-1192 together, with the assertions between the passes *)
Definition runPasses (fractionalLayersIn fractionalLayersOut : list Layer)
  : flow (gmap N (Z * Z) * gmap N (Z * Z)) :=
  '(addSupply, addNormalizedReserves, fractionalOutMap) ←
    buyPass fractionalLayersOut 0 0 ∅;
  let supplyAfterBuy := int64 (supply st + addSupply) in
  _ ← assert (0 <=? supplyAfterBuy);
  let reserveAfterBuy := int64 (supply st + addNormalizedReserves) in
  _ ← assert (0 <=? reserveAfterBuy);
  '(addSupply, addNormalizedReservesBB, addNormalizedReservesAB, fractionalInMap) ←
    sellPass supplyAfterBuy fractionalLayersIn 0 0 0 ∅;
  let supplyAfterSell := int64 (supply st + addSupply) in
  _ ← assert (0 <=? supplyAfterSell);
  let supplyAfterBuySell := int64 (supplyAfterBuy + addSupply) in
  _ ← assert (0 <=? supplyAfterBuySell);
  let reserveAfterSell := int64 (supply st + addNormalizedReservesBB) in
  _ ← assert (0 <=? reserveAfterSell);
  let reserveAfterBuySell := int64 (reserveAfterBuy + addNormalizedReservesAB) in
  _ ← assert (0 <=? reserveAfterBuySell);
  fractionalOutMap' ← rebuyPass supplyAfterSell fractionalLayersOut 0 0 fractionalOutMap;
  Next (fractionalInMap, fractionalOutMap').

End Passes.

(** *** Prices, lines 1196-1243 *)

Definition withSupply (ns : CCurrencyState) (s : Z) : CCurrencyState :=
  mkCurrencyState (version ns) (flags ns) (currencyID ns) (currencies ns) (weights ns)
                  (reserves ns) (initialSupply ns) (emitted ns) s.

Definition withReserve (ns : CCurrencyState) (i : nat) (r : Z) : CCurrencyState :=
  mkCurrencyState (version ns) (flags ns) (currencyID ns) (currencies ns) (weights ns)
                  (<[i := r]> (reserves ns)) (initialSupply ns) (emitted ns) (supply ns).

(** one round per currency; [fractionalSizes[i]] and [reserveSizes[i]] are
    only read in the round that writes them *)
Fixpoint priceLoop (st : CCurrencyState) (inputReserves inputFractional : list Z)
         (fractionalInMap fractionalOutMap : gmap N (Z * Z))
         (idx : list nat) (rates : list Z) (newState : CCurrencyState)
  : flow (list Z * CCurrencyState) :=
  match idx with
  | [] => Next (rates, newState)
  | i :: rest =>
      let inputReserve := at_ inputReserves i in
      let inputFraction := at_ inputFractional i in
      match fractionalOutMap !! currencyAt st i, fractionalInMap !! currencyAt st i with
      | Some (first, second), _ =>
          let bigFractionDelta := U256.of64 first in
          let fractionDelta :=
            U256.low64 (U256.shr1 (U256.add bigFractionDelta (U256.of64 second))) in
          _ ← assert (0 <? int64 (inputFraction + fractionDelta));
          let fractionalSize := int64 (inputFraction + fractionDelta) in
          q ← fdiv (U256.mul (U256.of64 inputReserve) (U256.of64 SATOSHIDEN))
                   (U256.of64 fractionalSize);
          let rate := U256.low64 q in
          let newState1 := withSupply newState (int64 (supply newState + fractionDelta)) in
          let newState2 :=
            withReserve newState1 i
              (int64 (at_ (reserves newState1) i
                      + (if nonzero inputFraction
                         then NativeToReserveRaw H fractionDelta rate
                         else inputReserve))) in
          priceLoop st inputReserves inputFractional fractionalInMap fractionalOutMap
                    rest (<[i := rate]> rates) newState2
      | None, Some (first, second) =>
          let bigReserveDelta := U256.of64 first in
          let adjustedReserveDelta :=
            NativeToReserve H st
              (U256.low64 (U256.shr1 (U256.add bigReserveDelta (U256.of64 second)))) i in
          let reserveSize := int64 (inputReserve + adjustedReserveDelta) in
          _ ← assert (0 <? inputFraction);
          q ← fdiv (U256.mul (U256.of64 reserveSize) (U256.of64 SATOSHIDEN))
                   (U256.of64 inputFraction);
          let rate := U256.low64 q in
          let newState1 := withSupply newState (int64 (supply newState - inputFraction)) in
          let newState2 :=
            withReserve newState1 i (int64 (at_ (reserves newState1) i - adjustedReserveDelta)) in
          priceLoop st inputReserves inputFractional fractionalInMap fractionalOutMap
                    rest (<[i := rate]> rates) newState2
      | None, None =>
          priceLoop st inputReserves inputFractional fractionalInMap fractionalOutMap
                    rest rates newState
      end
  end.

(** *** Cross conversions, lines 1247-1295 *)

(** element [i][j] of the cross-conversion matrix *)
Definition crossAt (rows : list (list Z)) (i j : nat) : Z :=
  at_ (default [] (rows !! i)) j.

(** lines 1254-1268: is any reserve-to-reserve amount present *)
Definition convertRToR (rows : list (list Z)) (numCurrencies : nat) : bool :=
  existsb (fun i => existsb (fun j => nonzero (crossAt rows i j)) (seq 0 numCurrencies))
          (seq 0 numCurrencies).

(** [reservesRToR[i]] of lines 1254-1268 *)
Definition reservesRToR (rows : list (list Z)) (numCurrencies i : nat) : Z :=
  fold_left (fun acc j => if nonzero (crossAt rows i j) then int64 (acc + crossAt rows i j)
                          else acc)
            (seq 0 numCurrencies) 0.

(** lines 1276-1288 *)
Definition fractionsToConvert (rows : list (list Z)) (numCurrencies : nat) (rates : list Z)
  : list Z :=
  fold_left
    (fun acc i =>
       if nonzero (reservesRToR rows numCurrencies i) then
         fold_left
           (fun acc' j =>
              if nonzero (crossAt rows i j)
              then <[j := int64 (at_ acc' j
                                 + ReserveToNativeRaw H (crossAt rows i j) (at_ rates i))]> acc'
              else acc')
           (seq 0 (length (default [] (rows !! i)))) acc
       else acc)
    (seq 0 numCurrencies) (replicate numCurrencies 0).

(** lines 1302-1308 *)
Definition fillRates (st : CCurrencyState) (rates : list Z) : list Z :=
  imap (fun i r => if r =? 0 then PriceInReserve H st i else r) rates.

(** *** [CCurrencyState::ConvertAmounts] *)

(** what a call leaves behind: the returned vector, the caller's
    [_newState] object and, when [pViaPrices] was passed, the vector it
    points to *)
Abbreviation converted := (list Z * CCurrencyState * option (list Z))%type.

(** lines 864-1003: the sign checks, the weight checks and the net flows;
    yields [bigMaxReserveRatio] and the two multimaps *)
Definition netting (st : CCurrencyState) (inputReserves inputFractional : list Z)
  : flow (Z * multimap * multimap) :=
  if existsb (fun oneIn => oneIn <? 0) inputReserves
     || existsb (fun oneIn => oneIn <? 0) inputFractional
  then Bail
  else
    '(maxReserveRatio, totalReserveWeight) ← checkWeights st;
    let bigMaxReserveRatio := U256.of64 maxReserveRatio in
    '(fractionalIn, fractionalOut) ←
      netFlows st inputReserves inputFractional bigMaxReserveRatio
               (seq 0 (length (currencies st))) [] [];
    Next (bigMaxReserveRatio, fractionalIn, fractionalOut).

(** lines 1011-1069 *)
Definition layering (st : CCurrencyState) (bigMaxReserveRatio : Z)
           (fractionalIn fractionalOut : multimap) : flow (list Layer * list Layer) :=
  let reserveMap := GetReserveMap st in
  fractionalLayersIn ←
    fractionalLayers (layerIn st reserveMap bigMaxReserveRatio) fractionalIn;
  fractionalLayersOut ←
    fractionalLayers (layerOut st reserveMap bigMaxReserveRatio) fractionalOut;
  Next (fractionalLayersIn, fractionalLayersOut).

(** lines 1247-1295: the nested conversion of the reserve-to-reserve
    amounts; yields the new state and the via vector left behind *)
Definition crossStep
           (self : CCurrencyState -> list Z -> list Z -> CCurrencyState -> outcome converted)
           (numCurrencies : nat) (rates : list Z) (newState : CCurrencyState)
           (pCrossConversions : option (list (list Z))) (pViaPrices : option (list Z))
  : flow (CCurrencyState * option (list Z)) :=
  match pCrossConversions with
  | Some rows =>
      if convertRToR rows numCurrencies then
        let scratchValues := replicate numCurrencies 0 in
        let intermediateState := newState in
        '(viaPrices, newState', _) ←
          liftO (self intermediateState scratchValues
                      (fractionsToConvert rows numCurrencies rates) newState);
        Next (newState',
              match pViaPrices with
              | Some _ => Some viaPrices
              | None => None
              end)
      else Next (newState, pViaPrices)
  | None => Next (newState, pViaPrices)
  end.

(** lines 864-1308, entered once a conversion is present *)
Definition convertFlow
           (self : CCurrencyState -> list Z -> list Z -> CCurrencyState -> outcome converted)
           (st : CCurrencyState) (inputReserves inputFractional : list Z)
           (pCrossConversions : option (list (list Z))) (pViaPrices : option (list Z))
  : flow converted :=
  let numCurrencies := length (currencies st) in
  '(bigMaxReserveRatio, fractionalIn, fractionalOut) ←
    netting st inputReserves inputFractional;
  '(fractionalLayersIn, fractionalLayersOut) ←
    layering st bigMaxReserveRatio fractionalIn fractionalOut;
  '(fractionalInMap, fractionalOutMap) ←
    runPasses st (GetReserveMap st) fractionalLayersIn fractionalLayersOut;
  '(rates, newState1) ←
    priceLoop st inputReserves inputFractional fractionalInMap fractionalOutMap
              (seq 0 numCurrencies) (replicate numCurrencies 0) st;
  '(newState2, via) ←
    crossStep self numCurrencies rates newState1 pCrossConversions pViaPrices;
  Next (fillRates st rates, newState2, via).

(** The function body with its one recursive call abstracted as [self].
    [_newState] is the value of the caller's object on entry;
    [pCrossConversions] and [pViaPrices] are [None] for null pointers. *)
Definition ConvertAmounts_body
           (self : CCurrencyState -> list Z -> list Z -> CCurrencyState -> outcome converted)
           (st : CCurrencyState) (inputReserves inputFractional : list Z)
           (_newState : CCurrencyState)
           (pCrossConversions : option (list (list Z))) (pViaPrices : option (list Z))
  : outcome converted :=
  let numCurrencies := length (currencies st) in
  let newState := st in
  let initialRates := PricesInReserve H st in
  match checkParameters numCurrencies inputReserves inputFractional pCrossConversions with
  | InvalidParameters => Returns (initialRates, _newState, pViaPrices)
  | HaveConversion false => Returns (initialRates, newState, pViaPrices)
  | HaveConversion true =>
      match convertFlow self st inputReserves inputFractional
                        pCrossConversions pViaPrices with
      | Next r => Returns r
      | Bail => Returns (initialRates, _newState, pViaPrices)
      | Crash f => Fails f
      end
  end.

(** the nested call passes neither a cross-conversion matrix nor a via
    vector, so it never calls itself again *)
Definition ConvertAmounts_direct (st : CCurrencyState) (inputReserves inputFractional : list Z)
           (_newState : CCurrencyState) : outcome converted :=
  ConvertAmounts_body (fun _ _ _ _ => Fails Undefined)
                      st inputReserves inputFractional _newState None None.

Definition ConvertAmounts : CCurrencyState -> list Z -> list Z -> CCurrencyState ->
                            option (list (list Z)) -> option (list Z) -> outcome converted :=
  ConvertAmounts_body ConvertAmounts_direct.

End Conversion.

(** ** Instances used to run the code on concrete inputs *)

(** Exact rational arithmetic as a decimal kernel.  Exponentiation is exact
    for integral exponents (the library takes the same route through
    repeated multiplication for them) and is the first-order expansion
    around 1 otherwise; the conversion to [int64_t] truncates toward zero
    and fails outside the [int64_t] range. *)
Definition exact_pow (x r : Q) : Q :=
  let r' := Qred r in
  if (Zpos (Qden r') =? 1)%Z then Qred (Qpower x (Qnum r'))
  else Qred (1 + r * (x - 1))%Q.

Definition exact_to_int64 (x : Q) : option Z :=
  let z := Z.quot (Qnum x) (Zpos (Qden x)) in
  if (INT64_MIN <=? z) && (z <=? INT64_MAX) then Some z else None.

Definition exactKernel : DecimalKernel :=
  mkKernel Q inject_Z
           (fun a b => Qred (a + b)%Q) (fun a b => Qred (a - b)%Q)
           (fun a b => Qred (a * b)%Q) (fun a b => Qred (a / b)%Q)
           exact_pow exact_to_int64.

(** Price helpers in integer arithmetic: the price of the fractional
    currency in reserve [i] is reserve / (supply * weight), scaled by
    [SATOSHIDEN]; amounts are converted by multiplying or dividing by it. *)
Definition samplePrice (st : CCurrencyState) (i : nat) : Z :=
  let s := supply st in
  let w := at_ (weights st) i in
  if (s =? 0) || (w =? 0) then 0
  else at_ (reserves st) i * SATOSHIDEN * SATOSHIDEN / (s * w).

Definition sampleReserveToNativeRaw (amount rate : Z) : Z :=
  if rate =? 0 then 0 else amount * SATOSHIDEN / rate.

Definition sampleNativeToReserveRaw (amount rate : Z) : Z := amount * rate / SATOSHIDEN.

Definition sampleHelpers : PriceHelpers :=
  mkHelpers (fun st => map (samplePrice st) (seq 0 (length (currencies st))))
            samplePrice
            (fun st amount i => sampleReserveToNativeRaw amount (samplePrice st i))
            (fun st amount i => sampleNativeToReserveRaw amount (samplePrice st i))
            sampleReserveToNativeRaw
            sampleNativeToReserveRaw.

(** the comparison of the reserves with the empty value map read as "no
    reserve is positive" *)
Definition noPositiveReserve (cs : list N) (rs : list Z) : bool :=
  forallb (fun r => r <=? 0) rs.

(** a shuffle that keeps the order *)
Definition keepOrder (seed : Z) (l : list Z) : list Z := l.

(** ** Conversions queued by an import (lines 2750-2853, 3021-3035) *)

(** The members of a transfer that the conversion branch of
    [AddReserveTransferImportOutputs] reads.  [FirstCurrency()] and
    [FirstValue()] are the header's accessors for the currency and amount
    the transfer carries. *)
Record Conversion := mkConversion {
  FirstCurrency : N;
  FirstValue : Z;
  destCurrencyID : N;
  secondReserveID : N;
  cv_flags : Z
}.

(** the accumulators the conversion branch feeds for the final
    [ConvertAmounts] call *)
Record Queued := mkQueued {
  reserveConverted : gmap N Z;
  fractionalConverted : gmap N Z;
  crossConversions : list (list Z)
}.

(** Modelled from the spec: [AsCurrencyVector] is declared in the header; the
    specification passes the aggregated flows as vectors indexed by reserve
    position, a currency without an entry contributing zero. *)
Definition AsCurrencyVector (m : gmap N Z) (cs : list N) : list Z := map (ValueMap.get m) cs.

(** [crossConversions[i][j] += v] *)
Definition addCross (i j : nat) (v : Z) (rows : list (list Z)) : list (list Z) :=
  let row := default [] (rows !! i) in
  <[i := <[j := int64 (at_ row j + v)]> row]> rows.

Section ImportConversions.

Variable K : DecimalKernel.
Variable H : PriceHelpers.
Variables SUCCESS_FEE MIN_SUCCESS_FEE : Z.
Variables FEE_OUTPUT RESERVE_TO_RESERVE : Z.
Variable importCurrencyID : N.
(** [importCurrencyDef.GetCurrenciesMap()] *)
Variable currencyIndexMap : gmap N nat.
(** [IsValid()] and [IsFractional()] of the cached definition of a currency *)
Variables isValidCurrency isFractionalCurrency : N -> bool.
(** [importCurrencyState.conversionPrice] *)
Variable conversionPrice : list Z.

Definition count (id : N) : bool := bool_decide (is_Some (currencyIndexMap !! id)).

Definition toFractional (t : Conversion) : bool :=
  bool_decide (importCurrencyID = destCurrencyID t)
  && isFractionalCurrency (destCurrencyID t)
  && count (FirstCurrency t).

(** the checks of lines 2752-2794; a failed check makes the import return
    [false] *)
Definition conversionAccepted (t : Conversion) : bool :=
  if bool_decide (FirstCurrency t = destCurrencyID t) then false
  else if negb (isValidCurrency (FirstCurrency t)) then false
  else if negb (toFractional t
                || (bool_decide (importCurrencyID = FirstCurrency t)
                    && isFractionalCurrency (FirstCurrency t)
                    && count (destCurrencyID t)))
  then false
  else if has_flag (cv_flags t) RESERVE_TO_RESERVE
          && (negb (toFractional t)
              || bool_decide (secondReserveID t = 0%N)
              || bool_decide (secondReserveID t = FirstCurrency t)
              || negb (count (secondReserveID t)))
  then false
  else true.

(** lines 2808-2826: the amount left after the conversion fee *)
Definition conversionValueOut (t : Conversion) : Z :=
  let oneConversionFee :=
    if has_flag (cv_flags t) FEE_OUTPUT then 0
    else
      let fee := CalculateConversionFee SUCCESS_FEE MIN_SUCCESS_FEE (FirstValue t) in
      let fee := if has_flag (cv_flags t) RESERVE_TO_RESERVE then int64 (fee * 2) else fee in
      if FirstValue t <? fee then FirstValue t else fee in
  int64 (FirstValue t - oneConversionFee).

(** lines 2828-2853: what the branch adds to the accumulators *)
Definition queueAmounts (t : Conversion) (q : Queued) : Queued :=
  let reserveIdx :=
    reserveIndex currencyIndexMap
                 (if toFractional t then FirstCurrency t else destCurrencyID t) in
  let valueOut := conversionValueOut t in
  let q1 :=
    if toFractional t
    then mkQueued (ValueMap.add_to (FirstCurrency t) valueOut (reserveConverted q))
                  (fractionalConverted q) (crossConversions q)
    else mkQueued (reserveConverted q)
                  (ValueMap.add_to (destCurrencyID t) valueOut (fractionalConverted q))
                  (crossConversions q) in
  let newCurrencyConverted :=
    if toFractional t
    then ReserveToNativeRaw H valueOut (at_ conversionPrice reserveIdx)
    else NativeToReserveRaw H valueOut (at_ conversionPrice reserveIdx) in
  if nonzero newCurrencyConverted && has_flag (cv_flags t) RESERVE_TO_RESERVE
  then mkQueued (reserveConverted q1) (fractionalConverted q1)
                (addCross reserveIdx (reserveIndex currencyIndexMap (secondReserveID t))
                          valueOut (crossConversions q1))
  else q1.

Definition queueConversion (t : Conversion) (q : Queued) : option Queued :=
  if conversionAccepted t then Some (queueAmounts t q) else None.

(** the transfers of a batch, in order *)
Fixpoint queueAll (batch : list Conversion) (q : Queued) : option Queued :=
  match batch with
  | [] => Some q
  | t :: rest => q' ← queueConversion t q; queueAll rest q'
  end.

(** line 2095 and lines 3021-3035: the accumulators start empty, every
    conversion of the batch is queued, and the aggregate is converted in
    one call ([None]: the import returned [false] before the call) *)
Definition convertBatch (importCurrencyState dummyCurState : CCurrencyState)
           (viaConversionPrice : list Z) (batch : list Conversion)
  : option (outcome (list Z * CCurrencyState * option (list Z))) :=
  let numCurrencies := length (currencies importCurrencyState) in
  q ← queueAll batch (mkQueued ∅ ∅ (replicate numCurrencies (replicate numCurrencies 0)));
  let preConvertedReserves : gmap N Z := ∅ in
  let adjustedReserveConverted := ValueMap.sub (reserveConverted q) preConvertedReserves in
  Some (ConvertAmounts K H importCurrencyState
          (AsCurrencyVector adjustedReserveConverted (currencies importCurrencyState))
          (AsCurrencyVector (fractionalConverted q) (currencies importCurrencyState))
          dummyCurState (Some (crossConversions q)) (Some viaConversionPrice)).

End ImportConversions.

(** ** Rejected arguments of [ConvertAmounts] *)

Definition sumZ (l : list Z) : Z := foldr Z.add 0 l.

Section Rejections.

Variable K : DecimalKernel.
Variable P : PriceHelpers.

(** the argument vectors and the cross-conversion matrix have one entry
    or row for every reserve *)
Definition sizesMatch (st : CCurrencyState) (inputReserves inputFractional : list Z)
           (pCrossConversions : option (list (list Z))) : Prop :=
  length inputReserves = length inputFractional
  /\ length inputReserves = length (currencies st)
  /\ match pCrossConversions with
     | None => True
     | Some rows => length rows = length (currencies st)
     end.

(** a conversion is present: the sizes match, every row of the matrix has
    one entry for every reserve, and some input amount is not zero *)
Definition conversionPresent (st : CCurrencyState) (inputReserves inputFractional : list Z)
           (pCrossConversions : option (list (list Z))) : Prop :=
  sizesMatch st inputReserves inputFractional pCrossConversions
  /\ match pCrossConversions with
     | None => True
     | Some rows => Forall (fun row => length row = length (currencies st)) rows
     end
  /\ (Exists (fun x => x <> 0) inputReserves \/ Exists (fun x => x <> 0) inputFractional).

(** the ways in which [ConvertAmounts] rejects its arguments *)
Inductive Rejected (st : CCurrencyState) (inputReserves inputFractional : list Z)
          (pCrossConversions : option (list (list Z))) : Prop :=
| rejected_sizes :
    ~ sizesMatch st inputReserves inputFractional pCrossConversions ->
    Rejected st inputReserves inputFractional pCrossConversions
| rejected_negative :
    conversionPresent st inputReserves inputFractional pCrossConversions ->
    Exists (fun x => x < 0) inputReserves \/ Exists (fun x => x < 0) inputFractional ->
    Rejected st inputReserves inputFractional pCrossConversions
| rejected_zero_weight :
    conversionPresent st inputReserves inputFractional pCrossConversions ->
    0 ∈ weights st ->
    Rejected st inputReserves inputFractional pCrossConversions
| rejected_no_weight :
    conversionPresent st inputReserves inputFractional pCrossConversions ->
    Forall (fun w => w <= 0) (weights st) ->
    Rejected st inputReserves inputFractional pCrossConversions
| rejected_total_weight :
    conversionPresent st inputReserves inputFractional pCrossConversions ->
    Forall (fun w => 0 <= w) (weights st) ->
    SATOSHIDEN < sumZ (weights st) <= INT32_MAX ->
    Rejected st inputReserves inputFractional pCrossConversions
| rejected_native_overflow :
    conversionPresent st inputReserves inputFractional pCrossConversions ->
    length (weights st) = length (currencies st) ->
    Forall (fun w => 0 < w <= INT32_MAX) (weights st) ->
    (exists i, (i < length (currencies st))%nat
               /\ ReserveToNative P st (at_ inputReserves i) i < 0) ->
    Rejected st inputReserves inputFractional pCrossConversions
| rejected_netting :
    conversionPresent st inputReserves inputFractional pCrossConversions ->
    netting P st inputReserves inputFractional = Bail ->
    Rejected st inputReserves inputFractional pCrossConversions
| rejected_layering bigMaxReserveRatio fractionalIn fractionalOut :
    conversionPresent st inputReserves inputFractional pCrossConversions ->
    netting P st inputReserves inputFractional
    = Next (bigMaxReserveRatio, fractionalIn, fractionalOut) ->
    layering st bigMaxReserveRatio fractionalIn fractionalOut = Bail ->
    Rejected st inputReserves inputFractional pCrossConversions
| rejected_supply_overflow bigMaxReserveRatio fractionalIn fractionalOut
                           fractionalLayersIn fractionalLayersOut :
    conversionPresent st inputReserves inputFractional pCrossConversions ->
    netting P st inputReserves inputFractional
    = Next (bigMaxReserveRatio, fractionalIn, fractionalOut) ->
    layering st bigMaxReserveRatio fractionalIn fractionalOut
    = Next (fractionalLayersIn, fractionalLayersOut) ->
    buyPass K st (GetReserveMap st) fractionalLayersOut 0 0 ∅ = Bail ->
    Rejected st inputReserves inputFractional pCrossConversions.

End Rejections.

(** The ledger of a same-system import of one plain transfer: 100 units of
    the reserve currency 7 with a fee of 20000 in the system currency 1
    (lines 2497, 2618, 2956 and 2422); the import currency is 5.  No line of
    the same-system path writes [importedCurrency] or [gatewayDepositsIn]. *)
Definition plainTransferLedger : Ledger :=
  let l := AddReserveOutput 7 100 (AddReserveInput 7 100 (mkLedger ∅ 0 0)) in
  mkLedger (ledger_currencies l) 20000 20000.

(** ** Exact decimal kernels *)

(** A kernel is exact when its values can be read as rationals on which the
    operations are the rational ones, an exponent of one returns the base,
    and the conversion returns the integer a value holds. *)
Record ExactKernel (K : DecimalKernel) := mkExact {
  value : dec K -> Q;
  value_of_int : forall z, (value (dec_of_int K z) == inject_Z z)%Q;
  value_add : forall a b, (value (dec_add K a b) == value a + value b)%Q;
  value_sub : forall a b, (value (dec_sub K a b) == value a - value b)%Q;
  value_mul : forall a b, (value (dec_mul K a b) == value a * value b)%Q;
  value_div : forall a b, ~ (value b == 0)%Q ->
                          (value (dec_div K a b) == value a / value b)%Q;
  value_pow_one : forall x r, (value r == 1)%Q -> (value (dec_pow K x r) == value x)%Q;
  to_int64_value : forall x z, (value x == inject_Z z)%Q -> in_int64 z ->
                               dec_to_int64 K x = Some z
}.


(** ** The transfer fee expression *)

(** does the shifted fee differ from the formula for base fee [F] and
    [q = size / divisor] *)
Definition shiftDiffers (F q : Z) : bool :=
  if 1 + 2 * F * q <? 64 then negb (int64 (F * 2 ^ (1 + 2 * F * q)) =? 2 * F * (1 + q)) else true.

(** ** Further fee functions (lines 76-98, 3668-3731) *)

Section MoreFees.

Variables DEFAULT_PER_STEP_FEE DESTINATION_BYTE_DIVISOR : Z.
Variables SUCCESS_FEE MIN_SUCCESS_FEE : Z.
Variables FEE_OUTPUT PRECONVERT CONVERT RESERVE_TO_RESERVE : Z.

(** [CReserveTransfer::CalculateFee(flags, transferTotal)], lines 76-98.
    [feeCurrencyID] is the member of the transfer that names the currency
    the transfer fee is paid in.  The two arguments are not read: the body
    calls the member functions, which use the transfer's own flag word. *)
Definition CalculateFee (feeCurrencyID : N) (t : CReserveTransfer)
           (flags transferTotal : Z) : option (gmap N Z) :=
  transferFee ← CalculateTransferFee DEFAULT_PER_STEP_FEE DESTINATION_BYTE_DIVISOR
                  FEE_OUTPUT PRECONVERT CONVERT (destination_size t) (rt_flags t);
  let feeMap := ValueMap.set feeCurrencyID transferFee ∅ in
  if IsConversion CONVERT t || IsPreConversion PRECONVERT t then
    let feeMap :=
      map_fold (fun cur amount acc =>
                  ValueMap.add_to cur (CalculateConversionFee SUCCESS_FEE MIN_SUCCESS_FEE amount)
                                  acc)
               feeMap (reserveValues t) in
    Some (if IsReserveToReserve RESERVE_TO_RESERVE t then ValueMap.scale feeMap 2 else feeMap)
  else Some feeMap.

(** [CReserveTransactionDescriptor::CalculateAdditionalConversionFee],
    lines 3715-3731 *)
Definition CalculateAdditionalConversionFee (inputAmount : Z) : outcome Z :=
  let bigAmount := U256.of64 inputAmount in
  let bigSatoshi := U256.of64 SATOSHIDEN in
  let conversionFee := U256.of64 SUCCESS_FEE in
  outcome_bind
    (udiv (U256.mul bigAmount bigSatoshi) (U256.sub bigSatoshi conversionFee))
    (fun q =>
       let newAmount := U256.low64 q in
       let newAmount :=
         if int64 (newAmount - inputAmount) <? MIN_SUCCESS_FEE
         then int64 (inputAmount + MIN_SUCCESS_FEE) else newAmount in
       let fee := CalculateConversionFee SUCCESS_FEE MIN_SUCCESS_FEE newAmount in
       let newAmount := int64 (inputAmount + fee) in
       let fee := CalculateConversionFee SUCCESS_FEE MIN_SUCCESS_FEE newAmount in
       Returns (int64 (fee + int64 (inputAmount - int64 (newAmount - fee))))).

End MoreFees.

(** [CCurrencyState::CalculateConversionFee], lines 3668-3693 *)
Module CurrencyState.

Section StateFee.

Variable K : DecimalKernel.
(** [PriceInReserveDecFloat50(currencyIndex)] of the header *)
Variable PriceInReserveDecFloat50 : CCurrencyState -> Z -> dec K.
Variables SUCCESS_FEE MIN_SUCCESS_FEE : Z.

Definition CalculateConversionFee (st : CCurrencyState) (inputAmount : Z)
           (convertToNative : bool) (currencyIndex : Z) : outcome Z :=
  let bigSatoshi := U256.of64 SATOSHIDEN in
  outcome_bind
    (if convertToNative then
       match dec_to_int64 K (PriceInReserveDecFloat50 st currencyIndex) with
       | None => Fails AssertionFailed
       | Some price =>
           if price =? 0 then Returns 0
           else udiv (U256.mul (U256.of64 inputAmount) bigSatoshi) (U256.of64 price)
       end
     else Returns (U256.of64 inputAmount))
    (fun bigAmount =>
       let fee := U256.low64 (U256.mul bigAmount (U256.of64 SUCCESS_FEE) / bigSatoshi) in
       Returns (if fee <? MIN_SUCCESS_FEE then MIN_SUCCESS_FEE else fee)).

End StateFee.

End CurrencyState.

(** ** Views of the import ledger (lines 1381-1495, 1916-1932, 3409-3491) *)

(** lines 1381-1384 *)
Definition AddReserveConversionFees (currency : N) (value : Z) (l : Ledger) : Ledger :=
  let io := inOuts l currency in
  withInOuts l currency
    (mkInOuts (reserveIn io) (reserveOut io) (reserveOutConverted io)
              (nativeOutConverted io) (int64 (reserveConversionFees io + value))).

(** the descriptor's flag word beside its ledger *)
Record Descriptor := mkDescriptor {
  desc_flags : Z;
  desc_ledger : Ledger
}.

Section DescriptorViews.

(** the identifier of the chain the node runs on, a global of the node *)
Variable ASSETCHAINS_CHAINID : N.
(** [IS_RESERVE] of [CReserveTransactionDescriptor::EFlagBits] *)
Variable IS_RESERVE : Z.
Variable H : PriceHelpers.
(** [ConnectedChains.GetCachedCurrency(id).systemID] *)
Variable systemOf : N -> N.

(** [nativeID.IsNull() ? ASSETCHAINS_CHAINID : nativeID]; the null
    identifier is the all-zero one *)
Definition nativeOrChain (nativeID : N) : N :=
  if decide (nativeID = 0%N) then ASSETCHAINS_CHAINID else nativeID.

(** the loop shared by [AddReserveOutput(const CTokenOutput &)], lines
    1386-1396, and [AddReserveTransfer], lines 1398-1408 *)
Definition addOutputs (values : gmap N Z) (l : Ledger) : Ledger :=
  map_fold (fun cur value l =>
              if negb (bool_decide (cur = ASSETCHAINS_CHAINID)) && nonzero value
              then AddReserveOutput cur value l else l)
           l values.

(** [AddReserveOutput(const CTokenOutput &ro)], from [ro.reserveValues] *)
Definition AddReserveOutput_CTokenOutput (ro_reserveValues : gmap N Z) (d : Descriptor)
  : Descriptor :=
  mkDescriptor (Z.lor (desc_flags d) IS_RESERVE) (addOutputs ro_reserveValues (desc_ledger d)).

(** [AddReserveTransfer(const CReserveTransfer &rt)] *)
Definition AddReserveTransfer (rt : CReserveTransfer) (d : Descriptor) : Descriptor :=
  mkDescriptor (Z.lor (desc_flags d) IS_RESERVE) (addOutputs (reserveValues rt) (desc_ledger d)).

(** lines 1441-1458 *)
Definition ReserveFees (l : Ledger) (nativeID : N) : gmap N Z :=
  let id := nativeOrChain nativeID in
  map_fold (fun cur io retFees =>
              if bool_decide (cur = id) then retFees
              else
                let oneFee :=
                  int64 (reserveIn io - int64 (reserveOut io - reserveOutConverted io)) in
                if nonzero oneFee then ValueMap.set cur oneFee retFees else retFees)
           ∅ (ledger_currencies l).

(** lines 1460-1463 *)
Definition NativeFees (l : Ledger) : Z := int64 (nativeIn l - nativeOut l).

(** lines 1410-1423; [ReserveFees()] is called with its default argument,
    the null identifier *)
Definition AllFeesAsNative (l : Ledger) (currencyState : CCurrencyState) : Z :=
  let reserveFees := ReserveFees l 0 in
  fold_left (fun nativeFees i =>
               match reserveFees !! currencyAt currencyState i with
               | Some fee => int64 (nativeFees + ReserveToNative H currencyState fee i)
               | None => nativeFees
               end)
            (seq 0 (length (currencies currencyState))) (NativeFees l).

(** lines 1425-1439 *)
Definition AllFeesAsNative_rates (l : Ledger) (currencyState : CCurrencyState)
           (exchangeRates : list Z) : outcome Z :=
  if bool_decide (length exchangeRates = length (currencies currencyState)) then
    let reserveFees := ReserveFees l 0 in
    Returns
      (fold_left (fun nativeFees i =>
                    match reserveFees !! currencyAt currencyState i with
                    | Some fee =>
                        int64 (nativeFees + ReserveToNativeRaw H fee (at_ exchangeRates i))
                    | None => nativeFees
                    end)
                 (seq 0 (length (currencies currencyState))) (NativeFees l))
  else Fails AssertionFailed.

(** lines 1465-1479; an index outside [currencies] is an out-of-range read *)
Definition AllFeesAsReserve (l : Ledger) (currencyState : CCurrencyState)
           (defaultReserve : nat) : outcome (gmap N Z) :=
  let reserveFees := ReserveFees l 0 in
  match currencies currencyState !! defaultReserve with
  | None => Fails Undefined
  | Some cur =>
      match reserveFees !! cur with
      | Some fee =>
          Returns (<[cur := int64 (fee + NativeToReserve H currencyState (NativeFees l)
                                                         defaultReserve)]> reserveFees)
      | None => Returns (<[cur := NativeFees l]> reserveFees)
      end
  end.

(** lines 1481-1495; [exchangeRates[defaultReserve]] is read only when a
    reserve fee is recorded *)
Definition AllFeesAsReserve_rates (l : Ledger) (currencyState : CCurrencyState)
           (exchangeRates : list Z) (defaultReserve : nat) : outcome (gmap N Z) :=
  let reserveFees := ReserveFees l 0 in
  match currencies currencyState !! defaultReserve with
  | None => Fails Undefined
  | Some cur =>
      match reserveFees !! cur with
      | Some fee =>
          match exchangeRates !! defaultReserve with
          | Some rate =>
              Returns (<[cur := int64 (fee + NativeToReserveRaw H (NativeFees l) rate)]>
                         reserveFees)
          | None => Fails Undefined
          end
      | None => Returns (<[cur := NativeFees l]> reserveFees)
      end
  end.

(** lines 1916-1932 *)
Definition GeneratedImportCurrency (l : Ledger) (fromSystemID importSystemID importCurrencyID : N)
  : gmap N Z :=
  map_fold (fun cur io retVal =>
              let isImportCurrency := bool_decide (cur = importCurrencyID) in
              if (nonzero (nativeOutConverted io) && isImportCurrency)
                 || (nonzero (reserveIn io)
                     && negb (bool_decide (fromSystemID = ASSETCHAINS_CHAINID))
                     && bool_decide (systemOf cur = fromSystemID))
              then ValueMap.set cur (if isImportCurrency then nativeOutConverted io
                                     else reserveIn io) retVal
              else retVal)
           ∅ (ledger_currencies l).

(** lines 3409-3429 *)
Definition ReserveInputMap (l : Ledger) (nativeID : N) : gmap N Z :=
  let id := nativeOrChain nativeID in
  map_fold (fun cur io retVal =>
              let retVal :=
                if negb (bool_decide (cur = id)) && nonzero (reserveIn io)
                then ValueMap.set cur (reserveIn io) retVal else retVal in
              if nonzero (nativeOutConverted io)
              then ValueMap.set cur (nativeOutConverted io) retVal else retVal)
           ∅ (ledger_currencies l).

(** lines 3431-3447 *)
Definition ReserveOutputMap (l : Ledger) (nativeID : N) : gmap N Z :=
  let id := nativeOrChain nativeID in
  map_fold (fun cur io retVal =>
              if negb (bool_decide (cur = id)) && nonzero (reserveOut io)
              then ValueMap.set cur (reserveOut io) retVal else retVal)
           ∅ (ledger_currencies l).

(** lines 3449-3465 *)
Definition ReserveOutConvertedMap (l : Ledger) (nativeID : N) : gmap N Z :=
  let id := nativeOrChain nativeID in
  map_fold (fun cur io retVal =>
              if negb (bool_decide (cur = id)) && nonzero (reserveOutConverted io)
              then ValueMap.set cur (reserveOutConverted io) retVal else retVal)
           ∅ (ledger_currencies l).

(** lines 3467-3478 *)
Definition NativeOutConvertedMap (l : Ledger) : gmap N Z :=
  map_fold (fun cur io retVal =>
              if nonzero (nativeOutConverted io)
              then ValueMap.set cur (nativeOutConverted io) retVal else retVal)
           ∅ (ledger_currencies l).

(** lines 3480-3491 *)
Definition ReserveConversionFeesMap (l : Ledger) : gmap N Z :=
  map_fold (fun cur io retVal =>
              if nonzero (reserveConversionFees io)
              then ValueMap.set cur (reserveConversionFees io) retVal else retVal)
           ∅ (ledger_currencies l).

End DescriptorViews.

(** ** What a conversion leaves alone *)

(** two states that differ at most in their supply and in the amounts of
    their reserves *)
Definition sameBasket (a b : CCurrencyState) : Prop :=
  version a = version b /\ flags a = flags b /\ currencyID a = currencyID b
  /\ currencies a = currencies b /\ weights a = weights b
  /\ initialSupply a = initialSupply b /\ emitted a = emitted b
  /\ length (reserves a) = length (reserves b).

Section ConversionAtIndex.

Variable K : DecimalKernel.
Variable H : PriceHelpers.

(** [CCurrencyState::ConvertAmounts(inputReserve, inputFraction, newState,
    reserveIndex)], lines 1312-1328: the conversion of one reserve.  The
    result is the returned rate and the caller's [newState] object. *)
Definition ConvertAmounts_index (st : CCurrencyState) (inputReserve inputFraction : Z)
           (newState : CCurrencyState) (reserveIndex : Z) : outcome (Z * CCurrencyState) :=
  let numCurrencies := int32 (Z.of_nat (length (currencies st))) in
  if numCurrencies <=? reserveIndex then Returns (0, newState)
  else if reserveIndex <? 0 then Fails Undefined
  else
    let i := Z.to_nat reserveIndex in
    let inputReserves := <[i := inputReserve]> (replicate (Z.to_nat numCurrencies) 0) in
    let inputFractional := <[i := inputFraction]> (replicate (Z.to_nat numCurrencies) 0) in
    outcome_bind (ConvertAmounts K H st inputReserves inputFractional newState None None)
      (fun '(retVal, newState', _) =>
         match retVal !! i with
         | Some rate => Returns (rate, newState')
         | None => Fails Undefined
         end).

End ConversionAtIndex.

(** ** The ledger as vectors (lines 3493-3546) *)

(** the entries of a [std::map] keyed by identifiers in the order in which
    it is walked: by ascending key *)
Definition keyLe {A} (x y : N * A) : Prop := (x.1 <= y.1)%N.

#[global] Instance keyLe_dec {A} : RelDecision (@keyLe A) :=
  fun x y => decide (x.1 <= y.1)%N.

Definition entriesInOrder {A} (m : gmap N A) : list (N * A) :=
  merge_sort keyLe (map_to_list m).

(** the loop [retVal[curMap[oneInOut.first]] = oneInOut.second.<field>]:
    [curMap[...]] reads 0 for a currency the map does not hold, and a
    position outside [retVal] is an out-of-range write *)
Fixpoint storeFields (field : CReserveInOuts -> Z) (curMap : gmap N nat)
         (entries : list (N * CReserveInOuts)) (retVal : list Z) : outcome (list Z) :=
  match entries with
  | [] => Returns retVal
  | (cur, io) :: rest =>
      let i := reserveIndex curMap cur in
      if bool_decide (i < length retVal)%nat
      then storeFields field curMap rest (<[i := field io]> retVal)
      else Fails Undefined
  end.

(** the five functions differ in the field they read *)
Definition ledgerVec (field : CReserveInOuts -> Z) (l : Ledger) (cState : CCurrencyState)
  : outcome (list Z) :=
  storeFields field (GetReserveMap cState) (entriesInOrder (ledger_currencies l))
              (replicate (length (currencies cState)) 0).

Definition ReserveInputVec := ledgerVec reserveIn.
Definition ReserveOutputVec := ledgerVec reserveOut.
Definition ReserveOutConvertedVec := ledgerVec reserveOutConverted.
Definition NativeOutConvertedVec := ledgerVec nativeOutConverted.
Definition ReserveConversionFeesVec := ledgerVec reserveConversionFees.

(** ** [CCoinbaseCurrencyState] (lines 3065-3079 and 3652-3666) *)

(** [v[i]] is defined for a position below the size of the vector only *)
Definition inRange {A} (i : nat) (v : list A) : bool := bool_decide (i < length v)%nat.

Module Coinbase.

(** the currency state of a block: the [CCurrencyState] it extends and the
    flows of the block, indexed by reserve position *)
Record CCoinbaseCurrencyState := mkState {
  state : CCurrencyState;
  reserveIn : list Z;
  nativeIn : list Z;
  reserveOut : list Z;
  conversionPrice : list Z;
  viaConversionPrice : list Z;
  fees : list Z;
  conversionFees : list Z;
  nativeFees : Z;
  nativeConversionFees : Z;
  nativeOut : Z;
  preConvertedOut : Z
}.

Definition withState (s : CCoinbaseCurrencyState) (b : CCurrencyState)
  : CCoinbaseCurrencyState :=
  mkState b (reserveIn s) (nativeIn s) (reserveOut s) (conversionPrice s)
          (viaConversionPrice s) (fees s) (conversionFees s) (nativeFees s)
          (nativeConversionFees s) (nativeOut s) (preConvertedOut s).

(** the two assignments of lines 3660-3661 for the reserve at [idx] *)
Definition revertAt (idx : nat) (s : CCoinbaseCurrencyState) : CCoinbaseCurrencyState :=
  let b := state s in
  withState s
    (mkCurrencyState (version b) (flags b) (currencyID b) (currencies b) (weights b)
       (<[idx := int64 (at_ (reserves b) idx
                        + int64 (at_ (reserveOut s) idx - at_ (reserveIn s) idx))]>
          (reserves b))
       (initialSupply b) (emitted b) (int64 (supply b + at_ (nativeIn s) idx))).

(** one round of the loop of lines 3658-3662: the four vectors are indexed
    at [idx] *)
Definition revertRound (idx : nat) (s : CCoinbaseCurrencyState)
  : outcome CCoinbaseCurrencyState :=
  if inRange idx (reserves (state s)) && inRange idx (reserveOut s)
     && inRange idx (reserveIn s) && inRange idx (nativeIn s)
  then Returns (revertAt idx s)
  else Fails Undefined.

(** lines 3655-3664: the reserves and the supply as they were before the
    flows of the block *)
Definition revertFlows (s : CCoinbaseCurrencyState) : outcome CCoinbaseCurrencyState :=
  let currencyMap := GetReserveMap (state s) in
  outcome_bind
    (fold_left (fun acc '(_, idx) => outcome_bind acc (revertRound idx))
               (entriesInOrder currencyMap) (Returns s))
    (fun s1 =>
       let b := state s1 in
       Returns
         (withState s1
            (withSupply b
               (int64 (supply b
                       - int64 (Z.max (nativeOut s1) (emitted b) - preConvertedOut s1)))))).

(** [CCoinbaseCurrencyState::RevertReservesAndSupply], lines 3652-3666;
    [ClearForNextBlock] is declared in the header *)
Definition RevertReservesAndSupply
           (ClearForNextBlock : CCoinbaseCurrencyState -> CCoinbaseCurrencyState)
           (s : CCoinbaseCurrencyState) : outcome CCoinbaseCurrencyState :=
  outcome_bind (revertFlows s) (fun s' => Returns (ClearForNextBlock s')).

(** the five assignments of lines 3073-3077 for the reserve at [i], in
    [AddReserveTransferImportOutputs], which records the flows of an import
    into a launched currency *)
Definition recordAt (isFractional : bool)
           (vResConverted vResOutConverted vFracConverted vFracOutConverted vLiquidityFees
            : list Z)
           (i : nat) (s : CCoinbaseCurrencyState) : CCoinbaseCurrencyState :=
  let b := state s in
  mkState
    (mkCurrencyState (version b) (flags b) (currencyID b) (currencies b) (weights b)
       (<[i := int64 (at_ (reserves b) i
                      + (if isFractional
                         then int64 (int64 (at_ vResConverted i - at_ vResOutConverted i)
                                     + at_ vLiquidityFees i)
                         else 0))]> (reserves b))
       (initialSupply b) (emitted b)
       (int64 (supply b + int64 (at_ vFracOutConverted i - at_ vFracConverted i))))
    (<[i := int64 (at_ vResConverted i + at_ vLiquidityFees i)]> (reserveIn s))
    (<[i := at_ vFracConverted i]> (nativeIn s))
    (<[i := at_ vResOutConverted i]> (reserveOut s))
    (conversionPrice s) (viaConversionPrice s) (fees s) (conversionFees s)
    (nativeFees s) (nativeConversionFees s) (nativeOut s) (preConvertedOut s).

(** one round of the loop of lines 3071-3078: the five vectors of the
    import and the four of the state are indexed at [i] *)
Definition recordRound (isFractional : bool)
           (vResConverted vResOutConverted vFracConverted vFracOutConverted vLiquidityFees
            : list Z)
           (i : nat) (s : CCoinbaseCurrencyState) : outcome CCoinbaseCurrencyState :=
  if inRange i vResConverted && inRange i vResOutConverted && inRange i vFracConverted
     && inRange i vFracOutConverted && inRange i vLiquidityFees
     && inRange i (reserves (state s)) && inRange i (reserveIn s)
     && inRange i (reserveOut s) && inRange i (nativeIn s)
  then Returns (recordAt isFractional vResConverted vResOutConverted vFracConverted
                         vFracOutConverted vLiquidityFees i s)
  else Fails Undefined.

(** lines 3071-3078 *)
Definition recordFlows (isFractional : bool)
           (vResConverted vResOutConverted vFracConverted vFracOutConverted vLiquidityFees
            : list Z)
           (s : CCoinbaseCurrencyState) : outcome CCoinbaseCurrencyState :=
  fold_left (fun acc i =>
               outcome_bind acc
                 (recordRound isFractional vResConverted vResOutConverted vFracConverted
                              vFracOutConverted vLiquidityFees i))
            (seq 0 (length (currencies (state s)))) (Returns s).

End Coinbase.

(** ** Launch prices without the system currency (lines 3126-3140, 3164-3178) *)

(** the loop that adds the share of the removed weight to the others *)
Fixpoint addExtraWeight (ws : list Z) (oneExtraWeight weightRemainder : Z) : list Z :=
  match ws with
  | [] => []
  | oneWeight :: rest =>
      if weightRemainder =? 0
      then int32 (oneWeight + oneExtraWeight) :: addExtraWeight rest oneExtraWeight weightRemainder
      else int32 (int32 (oneWeight + oneExtraWeight) + 1)
             :: addExtraWeight rest oneExtraWeight (int32 (weightRemainder - 1))
  end.

(** the weight of the system currency is taken out of the vector and
    spread over the remaining weights; the division is by the unsigned
    size of the vector *)
Definition spreadSystemWeight (weights : list Z) (systemDestIdx : nat) : outcome (list Z) :=
  match weights !! systemDestIdx with
  | None => Fails Undefined
  | Some sysWeight =>
      let ws := delete systemDestIdx weights in
      let n := Z.of_nat (length ws) in
      if n =? 0 then Fails Undefined
      else Returns (addExtraWeight ws (int32 (uint64 sysWeight / n))
                                   (int32 (uint64 sysWeight mod n)))
  end.

(** ** Columns of amounts read from JSON (lines 635-665) *)

(** what [AmountFromValue] does with a value: it returns an amount, or
    throws a [std::exception], or throws something else *)
Inductive amountParse : Type :=
| Amount (a : Z)
| StdException
| OtherException.

Section ValueColumns.

(** [UniValue] and the names used as keys, with the three operations of the
    JSON library and of the RPC layer that the function calls *)
Variables UniValue Name : Type.
Variable find_value : UniValue -> Name -> UniValue.
Variable isObject : UniValue -> bool.
Variable AmountFromValue : UniValue -> amountParse.

(** the loop over [columnNames] for one row, lines 645-661.  [None]: an
    exception left the function.  The element [retVal[j]] exists, the
    vector having been extended at this [j] or at that of an earlier row. *)
Fixpoint columnsOfRow (row : UniValue) (columnNames : list Name) (j : nat)
         (retVal : list (list Z)) : option (list (list Z)) :=
  match columnNames with
  | [] => Some retVal
  | name :: rest =>
      let retVal := if bool_decide (length retVal = j) then retVal ++ [[]] else retVal in
      match AmountFromValue (find_value row name) with
      | OtherException => None
      | parsed =>
          let columnVal := match parsed with Amount a => a | _ => 0 end in
          columnsOfRow row rest (S j) (alter (fun column => column ++ [columnVal]) j retVal)
      end
  end.

(** the loop over [rowNames], lines 640-663 *)
Fixpoint columnsOfRows (uni : UniValue) (rowNames columnNames : list Name)
         (retVal : list (list Z)) : option (list (list Z)) :=
  match rowNames with
  | [] => Some retVal
  | name :: rest =>
      let row := find_value uni name in
      if isObject row
      then retVal' ← columnsOfRow row columnNames 0 retVal;
           columnsOfRows uni rest columnNames retVal'
      else columnsOfRows uni rest columnNames retVal
  end.

Definition ValueColumnsFromUniValue (uni : UniValue) (rowNames columnNames : list Name)
  : option (list (list Z)) :=
  columnsOfRows uni rowNames columnNames [].

(** the amount stored for a row and a column *)
Definition cellAmount (uni : UniValue) (rowName columnName : Name) : Z :=
  match AmountFromValue (find_value (find_value uni rowName) columnName) with
  | Amount a => a
  | _ => 0
  end.

End ValueColumns.

(** ** Refunds (lines 1934-1961) *)

(** a transfer together with the further members that [GetRefundTransfer]
    reads and writes: the currency the transfer is destined for and the
    type of its destination *)
Record RefundableTransfer := mkRefundable {
  rf_transfer : CReserveTransfer;
  rf_destCurrencyID : N;
  rf_destinationType : Z
}.

Section Refund.

(** flag bits of [CReserveTransfer::EOptions] *)
Variables DOUBLE_SEND PRECONVERT CONVERT PREALLOCATE MINT_CURRENCY REFUND : Z.
(** destination types of [CTransferDestination] *)
Variables DEST_FULLID DEST_ID : Z.

(** [flags &= ~mask] on the [uint32_t] flag word *)
Definition clearFlags (flags mask : Z) : Z := Z.land flags (Z.lnot mask).

(** [CReserveTransfer::GetRefundTransfer()].  The temporary [CIdentity] of
    line 1941 is dropped, and the assignment of lines 1945-1948 is
    overwritten by that of line 1959.  [valueMap.begin()] is the entry with
    the least key; in an empty map it must not be dereferenced.  The new
    destination keeps the bytes of the old one. *)
Definition GetRefundTransfer (t : RefundableTransfer) : outcome RefundableTransfer :=
  let rt := rf_transfer t in
  let destinationType :=
    if rf_destinationType t =? DEST_FULLID then DEST_ID else rf_destinationType t in
  let flags := clearFlags (rt_flags rt) (Z.lor (Z.lor DOUBLE_SEND PRECONVERT) CONVERT) in
  match entriesInOrder (reserveValues rt) with
  | [] => Fails Undefined
  | (firstCurrency, _) :: _ =>
      let '(flags, values) :=
        if has_flag flags (Z.lor PREALLOCATE MINT_CURRENCY)
        then (clearFlags flags (Z.lor PREALLOCATE MINT_CURRENCY),
              <[firstCurrency := 0]> (reserveValues rt))
        else (flags, reserveValues rt) in
      Returns (mkRefundable
                 (mkReserveTransfer (Z.lor flags REFUND) values (destination_size rt))
                 firstCurrency destinationType)
  end.

End Refund.

(** * Properties *)

(** evaluate a closed subterm in place *)
Ltac norm e := let e' := eval vm_compute in e in change e with e'.

(** ** Machine integer facts *)

Section IntFacts.

Lemma int64_id x : in_int64 x -> int64 x = x.
Proof.
  unfold in_int64, INT64_MIN, INT64_MAX, int64, signed. intros Hx.
  destruct (Z_lt_le_dec x 0) as [Hn | Hp].
  - replace (x mod 2 ^ 64) with (x + 2 ^ 64).
    + destruct (Z.ltb_spec (x + 2 ^ 64) (2 ^ (64 - 1))); lia.
    + symmetry. rewrite <- (Z.mod_add x 1 (2 ^ 64)) by lia.
      rewrite Z.mod_small; lia.
  - rewrite Z.mod_small by lia.
    destruct (Z.ltb_spec x (2 ^ (64 - 1))); lia.
Qed.

Lemma uint64_id x : 0 <= x < 2 ^ 64 -> uint64 x = x.
Proof. intros Hx. unfold uint64, unsigned. now rewrite Z.mod_small. Qed.

Lemma int64_range x : in_int64 (int64 x).
Proof.
  unfold in_int64, INT64_MIN, INT64_MAX, int64, signed.
  pose proof (Z.mod_pos_bound x (2 ^ 64) ltac:(lia)) as Hb.
  destruct (Z.ltb_spec (x mod 2 ^ 64) (2 ^ (64 - 1))); lia.
Qed.

(** wrap-around respects congruence modulo 2^64, so wrapped sums may be
    re-associated *)
Lemma int64_mod x : int64 x mod 2 ^ 64 = x mod 2 ^ 64.
Proof.
  unfold int64, signed.
  destruct (Z.ltb_spec (x mod 2 ^ 64) (2 ^ (64 - 1))).
  - apply Z.mod_mod; lia.
  - rewrite <- (Z.mod_add _ 1 (2 ^ 64)) by lia.
    replace (x mod 2 ^ 64 - 2 ^ 64 + 1 * 2 ^ 64) with (x mod 2 ^ 64) by lia.
    apply Z.mod_mod; lia.
Qed.

Lemma int64_eq_mod x y : x mod 2 ^ 64 = y mod 2 ^ 64 -> int64 x = int64 y.
Proof. unfold int64, signed. now intros ->. Qed.

Lemma int64_add_l x y : int64 (int64 x + y) = int64 (x + y).
Proof.
  apply int64_eq_mod.
  rewrite Z.add_mod by lia. rewrite int64_mod.
  rewrite <- Z.add_mod by lia. reflexivity.
Qed.

Lemma int64_add_swap a x y : int64 (int64 (a + x) + y) = int64 (int64 (a + y) + x).
Proof. rewrite !int64_add_l. f_equal. lia. Qed.

Lemma low64_small a : 0 <= a <= INT64_MAX -> U256.low64 a = a.
Proof.
  unfold U256.low64, INT64_MAX. intros Ha.
  rewrite Z.mod_small by lia. apply int64_id.
  unfold in_int64, INT64_MIN, INT64_MAX. lia.
Qed.

Lemma of64_small a : 0 <= a <= INT64_MAX -> U256.of64 a = a.
Proof. unfold U256.of64, INT64_MAX. intros Ha. apply uint64_id. lia. Qed.

Lemma norm_small a : 0 <= a < 2 ^ 256 -> U256.norm a = a.
Proof. intros Ha. unfold U256.norm. now rewrite Z.mod_small. Qed.

End IntFacts.

(** ** Value map facts *)

Section ValueMapFacts.

Lemma get_sub a b k :
  ValueMap.get (ValueMap.sub a b) k = int64 (ValueMap.get a k - ValueMap.get b k).
Proof.
  unfold ValueMap.get, ValueMap.sub. rewrite lookup_merge.
  destruct (a !! k), (b !! k); reflexivity.
Qed.

Lemma get_add_to_eq k v m :
  ValueMap.get (ValueMap.add_to k v m) k = int64 (ValueMap.get m k + v).
Proof. unfold ValueMap.get at 1, ValueMap.add_to. now rewrite lookup_insert_eq. Qed.

Lemma get_add_to_ne k k' v m :
  k <> k' -> ValueMap.get (ValueMap.add_to k v m) k' = ValueMap.get m k'.
Proof. intros Hk. unfold ValueMap.get, ValueMap.add_to. now rewrite lookup_insert_ne. Qed.

Lemma add_to_comm k1 v1 k2 v2 (m : gmap N Z) :
  ValueMap.add_to k1 v1 (ValueMap.add_to k2 v2 m)
  = ValueMap.add_to k2 v2 (ValueMap.add_to k1 v1 m).
Proof.
  destruct (decide (k1 = k2)) as [-> | Hne].
  - unfold ValueMap.add_to at 1 3. rewrite !get_add_to_eq.
    unfold ValueMap.add_to. rewrite !insert_insert_eq.
    f_equal. apply int64_add_swap.
  - unfold ValueMap.add_to at 1 3.
    rewrite (get_add_to_ne k2 k1) by congruence.
    rewrite (get_add_to_ne k1 k2) by congruence.
    unfold ValueMap.add_to. apply insert_insert_ne. congruence.
Qed.

Lemma HasNegative_false (m : gmap N Z) k v :
  ValueMap.HasNegative m = false -> m !! k = Some v -> 0 <= v.
Proof.
  unfold ValueMap.HasNegative. intros Hn Hk.
  apply bool_decide_eq_false in Hn.
  destruct (Z_lt_le_dec v 0) as [Hlt | Hge]; [|assumption].
  exfalso. apply Hn. exists k, v. split; assumption.
Qed.

Lemma HasNegative_true (m : gmap N Z) :
  ValueMap.HasNegative m = true <-> exists k v, m !! k = Some v /\ v < 0.
Proof.
  unfold ValueMap.HasNegative. rewrite bool_decide_eq_true. reflexivity.
Qed.

Lemma get_insert_eq k v (m : gmap N Z) : ValueMap.get (<[k := v]> m) k = v.
Proof. unfold ValueMap.get. now rewrite lookup_insert_eq. Qed.

Lemma get_insert_ne k k' v (m : gmap N Z) :
  k <> k' -> ValueMap.get (<[k := v]> m) k' = ValueMap.get m k'.
Proof. intros Hne. unfold ValueMap.get. now rewrite lookup_insert_ne. Qed.

End ValueMapFacts.

(** two value maps built by insertions are equal when they agree at every
    key; the inner reads are resolved first *)
Ltac value_map_eq :=
  unfold ValueMap.set, ValueMap.add_to;
  repeat first [ rewrite get_insert_eq | rewrite get_insert_ne by congruence ];
  apply map_eq; intros ?k;
  rewrite ?lookup_insert;
  repeat case_decide; subst; try congruence;
  f_equal; rewrite ?int64_add_l; f_equal; lia.


(** ** Fees *)

Section FeeFacts.

Variables DEFAULT_PER_STEP_FEE DESTINATION_BYTE_DIVISOR : Z.
Variables SUCCESS_FEE MIN_SUCCESS_FEE : Z.
Variables FEE_OUTPUT PRECONVERT CONVERT RESERVE_TO_RESERVE : Z.

(** The two cases in which no transfer fee is due. *)
Lemma CalculateTransferFee_zero size flags :
  has_flag flags FEE_OUTPUT = true
  \/ (has_flag flags CONVERT = true /\ has_flag flags PRECONVERT = false) ->
  CalculateTransferFee DEFAULT_PER_STEP_FEE DESTINATION_BYTE_DIVISOR
                       FEE_OUTPUT PRECONVERT CONVERT size flags = Some 0.
Proof.
  unfold CalculateTransferFee. intros [-> | [-> ->]]; [reflexivity|].
  now rewrite orb_true_r.
Qed.

(** A destination shorter than the divisor costs the base fee, which is
    also what the formula of the specification gives. *)
Lemma CalculateTransferFee_short size flags :
  has_flag flags FEE_OUTPUT = false ->
  (has_flag flags CONVERT = false \/ has_flag flags PRECONVERT = true) ->
  0 <= DEFAULT_PER_STEP_FEE < 2 ^ 61 ->
  size / DESTINATION_BYTE_DIVISOR = 0 ->
  CalculateTransferFee DEFAULT_PER_STEP_FEE DESTINATION_BYTE_DIVISOR
                       FEE_OUTPUT PRECONVERT CONVERT size flags
  = Some (transfer_fee_formula DEFAULT_PER_STEP_FEE DESTINATION_BYTE_DIVISOR size).
Proof.
  intros Hf Hc Hfee Hq. unfold CalculateTransferFee, transfer_fee_formula.
  rewrite Hf, Hq. simpl orb.
  replace (negb (has_flag flags PRECONVERT) && has_flag flags CONVERT) with false
    by (destruct Hc as [-> | ->]; [now rewrite andb_false_r | reflexivity]).
  unfold shl64. simpl. rewrite Z.mul_0_r.
  change (uint64 (1 + uint64 0)) with 1. simpl.
  f_equal. rewrite int64_id; [lia|].
  unfold in_int64, INT64_MIN, INT64_MAX. lia.
Qed.

Lemma CalculateConversionFeeNoMin_exact a :
  0 <= SUCCESS_FEE <= SATOSHIDEN -> 0 <= a <= INT64_MAX ->
  CalculateConversionFeeNoMin SUCCESS_FEE a = a * SUCCESS_FEE / SATOSHIDEN.
Proof.
  intros Hs Ha. unfold CalculateConversionFeeNoMin.
  assert (HS : SATOSHIDEN = 100000000) by reflexivity.
  assert (HM : INT64_MAX = 2 ^ 63 - 1) by reflexivity.
  rewrite (of64_small a) by assumption.
  rewrite (of64_small SUCCESS_FEE) by lia.
  rewrite (of64_small SATOSHIDEN) by lia.
  unfold U256.mul. rewrite norm_small.
  - apply low64_small. split.
    + apply Z.div_pos; lia.
    + apply Z.le_trans with (m := a); [|lia].
      apply Z.div_le_upper_bound; [lia|]. nia.
  - split; [nia|].
    apply Z.le_lt_trans with (m := 2 ^ 63 * 2 ^ 63); [nia|]. reflexivity.
Qed.

Lemma CalculateConversionFee_floor a :
  MIN_SUCCESS_FEE <= CalculateConversionFee SUCCESS_FEE MIN_SUCCESS_FEE a.
Proof.
  unfold CalculateConversionFee.
  destruct (Z.ltb_spec (CalculateConversionFeeNoMin SUCCESS_FEE a) MIN_SUCCESS_FEE); lia.
Qed.

Lemma CalculateConversionFee_exact a :
  0 <= SUCCESS_FEE <= SATOSHIDEN -> 0 <= a <= INT64_MAX ->
  CalculateConversionFee SUCCESS_FEE MIN_SUCCESS_FEE a
  = Z.max MIN_SUCCESS_FEE (a * SUCCESS_FEE / SATOSHIDEN).
Proof.
  intros Hs Ha. unfold CalculateConversionFee.
  rewrite CalculateConversionFeeNoMin_exact by assumption.
  destruct (Z.ltb_spec (a * SUCCESS_FEE / SATOSHIDEN) MIN_SUCCESS_FEE); lia.
Qed.

(** the fee map before doubling holds, for every carried currency, the fee
    on its amount *)
Lemma fee_fold_get (f : Z -> Z) (m : gmap N Z) k :
  ValueMap.get
    (map_fold (fun cur amount acc => ValueMap.add_to cur (f amount) acc) ∅ m) k
  = match m !! k with
    | Some a => int64 (f a)
    | None => 0
    end.
Proof.
  revert k.
  apply (map_fold_weak_ind
           (fun r m => forall k, ValueMap.get r k
                                 = match m !! k with Some a => int64 (f a) | None => 0 end)).
  - intros k. unfold ValueMap.get. now rewrite !lookup_empty.
  - intros i x m' r Hi IH k.
    destruct (decide (i = k)) as [-> | Hne].
    + rewrite get_add_to_eq, lookup_insert_eq, IH, Hi. reflexivity.
    + rewrite get_add_to_ne, lookup_insert_ne, IH by assumption. reflexivity.
Qed.

Lemma get_scale (m : gmap N Z) s k :
  ValueMap.get (ValueMap.scale m s) k = int64 (ValueMap.get m k * s).
Proof.
  unfold ValueMap.get, ValueMap.scale. rewrite lookup_fmap.
  destruct (m !! k); reflexivity.
Qed.

(** ** C6 *)


End FeeFacts.


(** ** C5 *)

(** For every destination of at least 128 bytes the shift count of the
    returned expression is out of range with the published constants. *)
Lemma CalculateTransferFee_long size flags :
  has_flag flags 8 = false ->
  (has_flag flags 2 = false \/ has_flag flags 4 = true) ->
  128 <= size < 2 ^ 32 ->
  CalculateTransferFee 10000 128 8 4 2 size flags = None.
Proof.
  intros Hf Hc Hsize. unfold CalculateTransferFee.
  rewrite Hf. simpl orb.
  replace (negb (has_flag flags 4) && has_flag flags 2) with false
    by (destruct Hc as [-> | ->]; [now rewrite andb_false_r | reflexivity]).
  change (shl64 10000 1) with (Some 20000). simpl.
  assert (Hq : 1 <= size / 128 < 2 ^ 32).
  { split.
    - apply Z.div_le_lower_bound; lia.
    - apply Z.div_lt_upper_bound; lia. }
  unfold shl64.
  rewrite (uint64_id (20000 * (size / 128))) by lia.
  rewrite uint64_id by lia.
  destruct (Z.ltb_spec (1 + 20000 * (size / 128)) 64); [lia|].
  now rewrite andb_false_r.
Qed.

(** With the published constants, a destination of 128 bytes and a plain
    transfer, the code shifts DEFAULT_PER_STEP_FEE by 20001 positions, which
    has no defined value, while the fee of the formula is 40000. *)
Lemma CalculateTransferFee_128_bytes :
  CalculateTransferFee 10000 128 8 4 2 128 1 = None
  /\ transfer_fee_formula 10000 128 128 = 40000.
Proof. split; reflexivity. Qed.

Lemma shiftDiffers_small :
  forallb (fun F => forallb (shiftDiffers F) (seqZ 1 31)) (seqZ 1 31) = true.
Proof. vm_compute. reflexivity. Qed.

(** C5: whenever the destination is at least as long as the divisor, the
    value computed by [CalculateTransferFee] is not the fee
    (2 * DEFAULT_PER_STEP_FEE) * (1 + k / DESTINATION_BYTE_DIVISOR): the sum is
    the shift count, so the result is the base fee shifted by at least three
    positions, or undefined once the count reaches the word size. *)
Theorem CalculateTransferFee_never_formula FEE DIV FO PC CV size flags :
  has_flag flags FO = false ->
  (has_flag flags CV = false \/ has_flag flags PC = true) ->
  0 < FEE < 2 ^ 61 -> 0 < DIV <= size ->
  2 * FEE * (size / DIV) < 2 ^ 63 ->
  CalculateTransferFee FEE DIV FO PC CV size flags
  <> Some (transfer_fee_formula FEE DIV size).
Proof.
  intros Hf Hc Hfee Hdiv Hbound. unfold CalculateTransferFee, transfer_fee_formula.
  rewrite Hf. simpl orb.
  replace (negb (has_flag flags PC) && has_flag flags CV) with false
    by (destruct Hc as [-> | ->]; [now rewrite andb_false_r | reflexivity]).
  assert (Hq : 1 <= size / DIV) by (apply Z.div_le_lower_bound; lia).
  set (q := size / DIV) in *.
  assert (Htwice : shl64 FEE 1 = Some (2 * FEE)).
  { unfold shl64. change ((0 <=? 1) && (1 <? 64)) with true. cbv iota.
    replace (FEE * 2 ^ 1) with (2 * FEE) by lia.
    f_equal. apply int64_id. unfold in_int64, INT64_MIN, INT64_MAX. lia. }
  rewrite Htwice. cbn [mbind option_bind].
  rewrite (uint64_id (2 * FEE * q)) by lia.
  rewrite uint64_id by lia.
  unfold shl64.
  destruct (Z.leb_spec 0 (1 + 2 * FEE * q)); [|lia].
  destruct (Z.ltb_spec (1 + 2 * FEE * q) 64) as [Hlt | Hge]; [|discriminate].
  simpl andb. cbv iota.
  intros Heq. injection Heq as Heq.
  assert (HF : 1 <= FEE <= 31) by nia.
  assert (Hq' : 1 <= q <= 31) by nia.
  pose proof shiftDiffers_small as Hall.
  rewrite forallb_forall in Hall.
  specialize (Hall FEE).
  rewrite forallb_forall in Hall.
  assert (Hd : shiftDiffers FEE q = true).
  { apply Hall.
    - apply list_elem_of_In. apply elem_of_seqZ. lia.
    - apply list_elem_of_In. apply elem_of_seqZ. lia. }
  unfold shiftDiffers in Hd.
  destruct (Z.ltb_spec (1 + 2 * FEE * q) 64); [|lia].
  rewrite Heq in Hd. rewrite Z.eqb_refl in Hd. discriminate.
Qed.

Lemma CalculateTransferFee_never_formula_witness :
  CalculateTransferFee 10000 128 8 4 2 128 1
  <> Some (transfer_fee_formula 10000 128 128).
Proof.
  apply (CalculateTransferFee_never_formula 10000 128 8 4 2 128 1).
  - reflexivity.
  - left. reflexivity.
  - lia.
  - lia.
  - vm_compute. reflexivity.
Defined.

(** ** Emission *)

Section EmissionFacts.

Variable FLAG_FRACTIONAL : Z.
Variable reserves_le_empty : list N -> list Z -> bool.
Variable shuffle : Z -> list Z -> list Z.

(** a shuffle of equal entries changes nothing *)
Lemma shuffle_replicate (seed x : Z) (n : nat) :
  (forall s l, Permutation (shuffle s l) l) ->
  shuffle seed (replicate n x) = replicate n x.
Proof.
  intros Hperm.
  assert (Hall : Forall (fun y => y = x) (shuffle seed (replicate n x))).
  { rewrite Forall_forall. intros y Hy.
    apply list_elem_of_In in Hy.
    apply (Permutation_in _ (Hperm seed (replicate n x))) in Hy.
    apply list_elem_of_In in Hy.
    apply elem_of_replicate in Hy. tauto. }
  assert (Hlen : length (shuffle seed (replicate n x)) = n).
  { rewrite (Permutation_length (Hperm seed (replicate n x))).
    apply length_replicate. }
  revert Hall Hlen. generalize (shuffle seed (replicate n x)). clear Hperm.
  intros l. revert n. induction l as [|y l IH]; intros n Hall Hlen.
  - simpl in Hlen. subst n. reflexivity.
  - destruct n as [|n]; [discriminate|].
    apply Forall_cons_1 in Hall. destruct Hall as [-> Hall].
    simpl. f_equal. apply IH; [assumption|]. simpl in Hlen. lia.
Qed.

(** Emission never touches the reserves, and a completed emission leaves
    the old supply in [initialSupply]. *)
Lemma Returns_inj {A} (a b : A) : Returns a = Returns b -> a = b.
Proof. intros Heq. congruence. Qed.

Lemma UpdateWithEmission_reserves st toEmit st' :
  UpdateWithEmission FLAG_FRACTIONAL reserves_le_empty shuffle st toEmit = Returns st' ->
  reserves st' = reserves st /\ currencies st' = currencies st
  /\ initialSupply st' = supply st.
Proof.
  unfold UpdateWithEmission.
  destruct (negb (IsFractional FLAG_FRACTIONAL st) || (supply st <=? 0)
            || reserves_le_empty (currencies st) (reserves st)).
  { destruct (supply st <? 0); intros Heq; apply Returns_inj in Heq; subst st'; auto. }
  destruct (toEmit =? 0); [intros Heq; apply Returns_inj in Heq; subst st'; auto|].
  destruct (newTotalRatio _ _ _) as [newRatio|f]; unfold outcome_bind; [|discriminate].
  destruct (if _ =? 0 then _ else _) as [ws|f]; [|discriminate].
  intros Heq. apply Returns_inj in Heq. subst st'. auto.
Qed.

(** ** C8 *)

(** C8 (amended): when the state is not fractional, or its supply is not
    positive, or its reserves compare below the empty map, the emission
    leaves weights and reserves untouched; the supply becomes
    supply + toEmit when the supply is zero or positive and becomes toEmit
    itself when the supply is negative. *)
Theorem UpdateWithEmission_simple_add st toEmit :
  IsFractional FLAG_FRACTIONAL st = false
  \/ supply st <= 0
  \/ reserves_le_empty (currencies st) (reserves st) = true ->
  exists st',
    UpdateWithEmission FLAG_FRACTIONAL reserves_le_empty shuffle st toEmit = Returns st'
    /\ weights st' = weights st
    /\ reserves st' = reserves st
    /\ emitted st' = toEmit
    /\ supply st' = if supply st <? 0 then toEmit else int64 (supply st + toEmit).
Proof.
  intros Hguard. unfold UpdateWithEmission.
  replace (negb (IsFractional FLAG_FRACTIONAL st) || (supply st <=? 0)
           || reserves_le_empty (currencies st) (reserves st)) with true.
  - destruct (supply st <? 0); eexists; repeat split.
  - symmetry. destruct Hguard as [-> | [Hle | ->]].
    + reflexivity.
    + apply Z.leb_le in Hle. rewrite Hle. now rewrite orb_true_r.
    + now rewrite orb_true_r.
Qed.

(** ** C7 *)

(** C7: a basket of two reserves weighted 40% and 10%, supply 10^8,
    emission 10^8.  The total ratio halves from 50% to 25% and the
    reserves are unchanged, but the updated weights are 23.75% and 1.25%,
    not the previous weights times supply/(supply+k), which are 20% and
    5%: the proportional shares are taken of [SATOSHIDEN] instead of the
    initial ratio and the rest is spread evenly. *)
Theorem UpdateWithEmission_uneven_basket v f id c1 c2 r1 r2 is0 em0 :
  let st := mkCurrencyState v f id [c1; c2] [40000000; 10000000] [r1; r2]
                            is0 em0 100000000 in
  (forall s l, Permutation (shuffle s l) l) ->
  IsFractional FLAG_FRACTIONAL st = true ->
  reserves_le_empty (currencies st) (reserves st) = false ->
  UpdateWithEmission FLAG_FRACTIONAL reserves_le_empty shuffle st 100000000
  = Returns (mkCurrencyState v f id [c1; c2] [23750000; 1250000] [r1; r2]
                             100000000 100000000 200000000)
  /\ 40000000 * 100000000 / (100000000 + 100000000) = 20000000
  /\ 10000000 * 100000000 / (100000000 + 100000000) = 5000000.
Proof.
  intros st Hperm Hfrac Hle.
  split; [|split; reflexivity].
  unfold UpdateWithEmission. rewrite Hfrac, Hle.
  subst st. cbn [supply weights currencies reserves version flags currencyID length].
  change (negb true || (100000000 <=? 0) || false) with false.
  change (100000000 =? 0) with false. cbv iota.
  replace (fold_left (fun acc w => int64 (acc + w)) [40000000; 10000000] 0)
    with 50000000 by (vm_compute; reflexivity).
  replace (newTotalRatio 50000000 100000000 100000000)
    with (Returns 25000000) by (vm_compute; reflexivity).
  unfold outcome_bind at 1.
  replace (int64 (50000000 - 25000000)) with 25000000 by (vm_compute; reflexivity).
  replace (scaleWeights (U256.of64 25000000) [40000000; 10000000] 0)
    with ([30000000; 7500000], 12500000) by (vm_compute; reflexivity).
  cbn [fst snd].
  replace (int64 (25000000 - 12500000)) with 12500000 by (vm_compute; reflexivity).
  change (12500000 =? 0) with false. cbv iota.
  unfold spreadExtra.
  change (Z.of_nat 2 =? 0) with false. cbv iota.
  replace (int64 (uint64 12500000 / Z.of_nat 2)) with 6250000 by (vm_compute; reflexivity).
  replace (int64 (uint64 12500000 mod Z.of_nat 2)) with 0 by (vm_compute; reflexivity).
  change (fillExtra 2 6250000 0) with (replicate 2 6250000).
  rewrite (shuffle_replicate _ 6250000 2 Hperm).
  vm_compute. reflexivity.
Qed.

End EmissionFacts.

Lemma UpdateWithEmission_simple_add_witness :
  let st := mkCurrencyState 1 1 5%N [7%N] [SATOSHIDEN] [100000000] 0 0 0 in
  exists st',
    UpdateWithEmission 1 noPositiveReserve keepOrder st 250 = Returns st'
    /\ weights st' = weights st
    /\ reserves st' = reserves st
    /\ emitted st' = 250
    /\ supply st' = if supply st <? 0 then 250 else int64 (supply st + 250).
Proof.
  apply (UpdateWithEmission_simple_add 1 noPositiveReserve keepOrder
           (mkCurrencyState 1 1 5%N [7%N] [SATOSHIDEN] [100000000] 0 0 0) 250).
  right. left. simpl. lia.
Defined.

(** C8 as stated fails for a negative supply: emitting 10 into a state whose
    supply is -5 leaves a supply of 10, not of -5 + 10. *)
Lemma UpdateWithEmission_negative_supply :
  let st := mkCurrencyState 1 0 5%N [7%N] [SATOSHIDEN] [100000000] 0 0 (-5) in
  supply st <= 0
  /\ exists st',
      UpdateWithEmission 1 noPositiveReserve keepOrder st 10 = Returns st'
      /\ supply st' = 10
      /\ supply st' <> supply st + 10.
Proof.
  split; [simpl; lia|].
  eexists. split; [vm_compute; reflexivity|].
  split; [reflexivity|]. simpl. lia.
Qed.

Lemma UpdateWithEmission_uneven_basket_witness :
  UpdateWithEmission 1 noPositiveReserve keepOrder
    (mkCurrencyState 1 1 5%N [7%N; 8%N] [40000000; 10000000] [100000000; 100000000]
                     0 0 100000000) 100000000
  = Returns (mkCurrencyState 1 1 5%N [7%N; 8%N] [23750000; 1250000] [100000000; 100000000]
                             100000000 100000000 200000000)
  /\ 40000000 * 100000000 / (100000000 + 100000000) = 20000000
  /\ 10000000 * 100000000 / (100000000 + 100000000) = 5000000.
Proof.
  apply (UpdateWithEmission_uneven_basket 1 noPositiveReserve keepOrder
           1 1 5%N 7%N 8%N 100000000 100000000 0 0).
  - intros s l. apply Permutation_refl.
  - reflexivity.
  - reflexivity.
Defined.

(** ** The import ledger *)

Section ImportClosingFacts.

Variables importCurrencyID systemDestID systemID : N.

(** the rounds of the closing loop for two different currencies commute, so
    the result does not depend on the order in which the map is walked *)
Lemma closeOne_comm id1 io1 id2 io2 c :
  id1 <> id2 ->
  closeOne importCurrencyID systemDestID id1 io1
           (closeOne importCurrencyID systemDestID id2 io2 c)
  = closeOne importCurrencyID systemDestID id2 io2
             (closeOne importCurrencyID systemDestID id1 io1 c).
Proof.
  intros Hne. unfold closeOne.
  destruct (decide (id1 = importCurrencyID)) as [H1 | H1],
           (decide (id2 = importCurrencyID)) as [H2 | H2];
    [congruence | | |];
    destruct (decide (id1 = systemDestID)) as [S1 | S1],
             (decide (id2 = systemDestID)) as [S2 | S2];
    try congruence;
    cbn [ReserveInputs spentCurrencyOut systemOutConverted state_nativeOut];
    repeat match goal with
           | |- context [if ?b then _ else _] => destruct b
           end;
    f_equal; try reflexivity; try value_map_eq.
Qed.

Lemma closing_fold_insert id io (m : gmap N CReserveInOuts) c0 :
  m !! id = None ->
  map_fold (closeOne importCurrencyID systemDestID) c0 (<[id := io]> m)
  = closeOne importCurrencyID systemDestID id io
             (map_fold (closeOne importCurrencyID systemDestID) c0 m).
Proof.
  intros Hnone. apply map_fold_insert_L; [|assumption].
  intros j1 j2 z1 z2 y Hne _ _. now apply closeOne_comm.
Qed.

(** ** C2 *)


End ImportClosingFacts.



(** ** The conversion engine *)

Section ConversionFacts.

Variable K : DecimalKernel.
Variable P : PriceHelpers.

Lemma int32_id x : - 2 ^ 31 <= x <= INT32_MAX -> int32 x = x.
Proof.
  unfold INT32_MAX, int32, signed. intros Hx.
  destruct (Z_lt_le_dec x 0) as [Hn | Hp].
  - replace (x mod 2 ^ 32) with (x + 2 ^ 32).
    + destruct (Z.ltb_spec (x + 2 ^ 32) (2 ^ (32 - 1))); lia.
    + symmetry. rewrite <- (Z.mod_add x 1 (2 ^ 32)) by lia.
      rewrite Z.mod_small; lia.
  - rewrite Z.mod_small by lia.
    destruct (Z.ltb_spec x (2 ^ (32 - 1))); lia.
Qed.

(** *** Parameter checks *)

Lemma existsb_nonzero_false l :
  Forall (fun x => x = 0) l -> existsb nonzero l = false.
Proof.
  induction 1 as [|x l -> _ IH]; [reflexivity|].
  simpl. exact IH.
Qed.

Lemma existsb_nonzero_true l :
  Exists (fun x => x <> 0) l -> existsb nonzero l = true.
Proof.
  induction 1 as [x l Hx | x l _ IH]; simpl.
  - unfold nonzero. destruct (Z.eqb_spec x 0); [contradiction|reflexivity].
  - rewrite IH. apply orb_true_r.
Qed.

Lemma existsb_negative_true l :
  Exists (fun x => x < 0) l -> existsb (fun oneIn => oneIn <? 0) l = true.
Proof.
  induction 1 as [x l Hx | x l _ IH]; simpl.
  - apply Z.ltb_lt in Hx. now rewrite Hx.
  - rewrite IH. apply orb_true_r.
Qed.

Lemma scanRows_all rows n :
  Forall (fun row => length row = n) rows -> scanRows rows n = length rows.
Proof.
  induction 1 as [|row rows Hrow _ IH]; [reflexivity|].
  simpl. rewrite decide_True by assumption. now rewrite IH.
Qed.

Lemma checkParameters_invalid st inR inF cross :
  ~ sizesMatch st inR inF cross ->
  checkParameters (length (currencies st)) inR inF cross = InvalidParameters.
Proof.
  intros Hno. unfold checkParameters.
  destruct (bool_decide (length inR = length inF)) eqn:H1; [|reflexivity].
  destruct (bool_decide (length inR = length (currencies st))) eqn:H2; [|reflexivity].
  apply bool_decide_eq_true in H1, H2.
  destruct cross as [rows|]; simpl.
  - destruct (bool_decide (length rows = length (currencies st))) eqn:H3; [|reflexivity].
    apply bool_decide_eq_true in H3. exfalso. apply Hno. repeat split; assumption.
  - exfalso. apply Hno. repeat split; assumption.
Qed.

Lemma checkParameters_sized st inR inF cross :
  sizesMatch st inR inF cross ->
  exists b, checkParameters (length (currencies st)) inR inF cross = HaveConversion b
            /\ (b = true -> existsb nonzero inR || existsb nonzero inF = true).
Proof.
  intros (H1 & H2 & H3). unfold checkParameters.
  rewrite (bool_decide_eq_true_2 _ H1), (bool_decide_eq_true_2 _ H2). simpl.
  destruct cross as [rows|].
  - rewrite (bool_decide_eq_true_2 _ H3).
    destruct (bool_decide _); eexists; split; try reflexivity; [tauto|discriminate].
  - eexists; split; [reflexivity|tauto].
Qed.

Lemma checkParameters_present st inR inF cross :
  conversionPresent st inR inF cross ->
  checkParameters (length (currencies st)) inR inF cross = HaveConversion true.
Proof.
  intros ((H1 & H2 & H3) & Hrows & Hsome). unfold checkParameters.
  rewrite (bool_decide_eq_true_2 _ H1), (bool_decide_eq_true_2 _ H2). simpl.
  assert (Hin : existsb nonzero inR || existsb nonzero inF = true).
  { destruct Hsome as [Hs | Hs]; apply existsb_nonzero_true in Hs; rewrite Hs;
      [reflexivity | apply orb_true_r]. }
  destruct cross as [rows|].
  - rewrite (bool_decide_eq_true_2 _ H3).
    rewrite take_ge by lia. rewrite scanRows_all by assumption.
    rewrite (bool_decide_eq_true_2 _ H3). now rewrite Hin.
  - now rewrite Hin.
Qed.

(** ** C10 *)

(** C10: with correctly sized vectors whose entries are all zero,
    [ConvertAmounts] reports no error: the caller's [newState] becomes a
    copy of the state and the prior prices are returned. *)
Theorem ConvertAmounts_all_zero st inR inF ns cross via :
  sizesMatch st inR inF cross ->
  Forall (fun x => x = 0) inR ->
  Forall (fun x => x = 0) inF ->
  ConvertAmounts K P st inR inF ns cross via = Returns (PricesInReserve P st, st, via).
Proof.
  intros Hsz HR HF. unfold ConvertAmounts, ConvertAmounts_body.
  destruct (checkParameters_sized st inR inF cross Hsz) as (b & -> & Hb).
  destruct b; [|reflexivity].
  specialize (Hb eq_refl).
  rewrite (existsb_nonzero_false _ HR), (existsb_nonzero_false _ HF) in Hb.
  discriminate.
Qed.

(** *** Weights *)

Lemma weightLoop_zero ws m t : 0 ∈ ws -> weightLoop ws m t = Bail.
Proof.
  revert m t. induction ws as [|w ws IH]; intros m t Hin.
  - now apply elem_of_nil in Hin.
  - simpl. destruct (Z.eqb_spec w 0) as [_ | Hne]; [reflexivity|].
    apply IH. apply elem_of_cons in Hin. destruct Hin as [Heq | Hin]; [congruence|assumption].
Qed.

Lemma weightLoop_never_crashes ws m t f : weightLoop ws m t <> Crash f.
Proof.
  revert m t. induction ws as [|w ws IH]; intros m t; simpl; [discriminate|].
  destruct (w =? 0); [discriminate|apply IH].
Qed.

Lemma weightLoop_nonpositive ws t :
  Forall (fun w => w <= 0) ws ->
  weightLoop ws 0 t = Bail \/ exists t', weightLoop ws 0 t = Next (0, t').
Proof.
  intros Hall. revert t. induction Hall as [|w ws Hw _ IH]; intros t; simpl.
  - right. eexists. reflexivity.
  - destruct (w =? 0); [now left|].
    destruct (Z.ltb_spec 0 w); [lia|]. apply IH.
Qed.

Lemma weightLoop_total ws m t :
  Forall (fun w => 0 <= w) ws ->
  0 <= t -> t + sumZ ws <= INT32_MAX ->
  weightLoop ws m t = Bail \/ exists m', weightLoop ws m t = Next (m', t + sumZ ws).
Proof.
  intros Hall. revert m t. induction Hall as [|w ws Hw Hall IH]; intros m t Ht Hsum; simpl.
  - right. exists m. f_equal. f_equal. simpl. lia.
  - destruct (w =? 0); [now left|].
    assert (Hs : 0 <= sumZ ws).
    { clear -Hall. induction Hall; simpl; [lia|]. unfold sumZ in *. simpl. lia. }
    change (sumZ (w :: ws)) with (w + sumZ ws) in *.
    rewrite int32_id by (unfold INT32_MAX in *; lia).
    destruct (IH (if m <? w then w else m) (t + w) ltac:(lia) ltac:(lia)) as [-> | [m' ->]].
    + now left.
    + right. exists m'. f_equal. f_equal. lia.
Qed.

Lemma checkWeights_never_crashes st f : checkWeights st <> Crash f.
Proof.
  unfold checkWeights.
  destruct (weightLoop (weights st) 0 0) as [[m t]| |f'] eqn:Hw; simpl.
  - destruct (m =? 0); [discriminate|].
    destruct (_ <? _); discriminate.
  - discriminate.
  - now apply weightLoop_never_crashes in Hw.
Qed.

(** what [checkWeights] has established when it lets the call go on *)
Lemma checkWeights_next st m t :
  checkWeights st = Next (m, t) -> ~ 0 ∈ weights st.
Proof.
  unfold checkWeights. intros Hc Hin.
  rewrite (weightLoop_zero _ 0 0 Hin) in Hc. discriminate.
Qed.

(** *** Net flows *)

Lemma netFlows_native_overflow st inR inF bigMax idx fIn fOut :
  (forall j, j ∈ idx -> U256.of64 (at_ (weights st) j) <> 0) ->
  (exists i, i ∈ idx /\ ReserveToNative P st (at_ inR i) i < 0) ->
  netFlows P st inR inF bigMax idx fIn fOut = Bail.
Proof.
  revert fIn fOut. induction idx as [|j idx IH]; intros fIn fOut Hw (i & Hi & Hneg).
  - now apply elem_of_nil in Hi.
  - simpl.
    destruct (Z.ltb_spec (ReserveToNative P st (at_ inR j) j) 0) as [_ | Hge]; [reflexivity|].
    assert (Hrest : exists i, i ∈ idx /\ ReserveToNative P st (at_ inR i) i < 0).
    { exists i. split; [|assumption].
      apply elem_of_cons in Hi. destruct Hi as [-> | Hi]; [lia|assumption]. }
    assert (Hw' : forall j', j' ∈ idx -> U256.of64 (at_ (weights st) j') <> 0).
    { intros j' Hj'. apply Hw. now apply list_elem_of_further. }
    assert (Hwj : U256.of64 (at_ (weights st) j) <> 0).
    { apply Hw. apply list_elem_of_here. }
    unfold fdiv, udiv, U256.div.
    destruct (Z.eqb_spec (U256.of64 (at_ (weights st) j)) 0) as [He | _]; [contradiction|].
    simpl.
    destruct (0 <? _).
    { destruct (INT64_MAX <? _); [reflexivity|]. now apply IH. }
    destruct (_ <? 0).
    { destruct (INT64_MAX <? _); [reflexivity|]. now apply IH. }
    now apply IH.
Qed.

Lemma positive_weights_nonzero st j :
  length (weights st) = length (currencies st) ->
  Forall (fun w => 0 < w <= INT32_MAX) (weights st) ->
  j ∈ seq 0 (length (currencies st)) ->
  U256.of64 (at_ (weights st) j) <> 0.
Proof.
  intros Hlen Hall Hj.
  apply elem_of_seq in Hj.
  assert (Hlt : (j < length (weights st))%nat) by lia.
  apply lookup_lt_is_Some_2 in Hlt. destruct Hlt as [w Hw].
  unfold at_. rewrite Hw. simpl.
  rewrite Forall_lookup in Hall. specialize (Hall j w Hw).
  rewrite of64_small; unfold INT32_MAX, INT64_MAX in *; lia.
Qed.

(** *** Rejections *)

Lemma netting_bail_rejects self st inR inF ns cross via :
  conversionPresent st inR inF cross ->
  netting P st inR inF = Bail ->
  ConvertAmounts_body K P self st inR inF ns cross via
  = Returns (PricesInReserve P st, ns, via).
Proof.
  intros Hp Hn. unfold ConvertAmounts_body.
  rewrite (checkParameters_present _ _ _ _ Hp).
  unfold convertFlow. rewrite Hn. reflexivity.
Qed.

Lemma netting_negative st inR inF :
  Exists (fun x => x < 0) inR \/ Exists (fun x => x < 0) inF ->
  netting P st inR inF = Bail.
Proof.
  intros Hneg. unfold netting.
  destruct Hneg as [Hn | Hn]; apply existsb_negative_true in Hn; rewrite Hn;
    [reflexivity | now rewrite orb_true_r].
Qed.

Lemma netting_checkWeights st inR inF :
  checkWeights st = Bail -> netting P st inR inF = Bail.
Proof.
  intros Hc. unfold netting. rewrite Hc.
  destruct (_ || _); reflexivity.
Qed.

Lemma checkWeights_total st :
  Forall (fun w => 0 <= w) (weights st) ->
  SATOSHIDEN < sumZ (weights st) <= INT32_MAX ->
  checkWeights st = Bail.
Proof.
  intros Hall Hsum. unfold checkWeights.
  destruct (weightLoop_total (weights st) 0 0 Hall ltac:(lia) ltac:(lia)) as [-> | [m' ->]];
    [reflexivity|].
  cbn [mbind flow_bind]. rewrite Z.add_0_l.
  destruct (m' =? 0); [reflexivity|].
  assert (HS : SATOSHIDEN = 100000000) by reflexivity.
  rewrite (of64_small SATOSHIDEN) by (unfold INT64_MAX; lia).
  rewrite (of64_small (sumZ (weights st))) by (unfold INT64_MAX, INT32_MAX in *; lia).
  destruct (Z.ltb_spec SATOSHIDEN (sumZ (weights st))); [reflexivity|lia].
Qed.

Lemma checkWeights_nonpositive st :
  Forall (fun w => w <= 0) (weights st) -> checkWeights st = Bail.
Proof.
  intros Hall. unfold checkWeights.
  destruct (weightLoop_nonpositive (weights st) 0 Hall) as [-> | [t' ->]]; reflexivity.
Qed.

End ConversionFacts.

(** *** The layering loops terminate within their fuel *)

Section LayerLoopFacts.

Lemma upper_bound_spec k (m : multimap) :
  Forall (fun e => e.1 <= k) (upper_bound k m).1
  /\ m = (upper_bound k m).1 ++ (upper_bound k m).2
  /\ (length (upper_bound k m).2 <= length m)%nat.
Proof.
  induction m as [|[k' v'] m IH]; simpl.
  - repeat split; constructor.
  - destruct (Z.ltb_spec k k') as [Hlt | Hge]; simpl.
    + repeat split; [constructor | lia].
    + destruct (upper_bound k m) as [pre suf]. simpl in *.
      destruct IH as (Hall & Heq & Hlen).
      repeat split; [constructor; [simpl; lia | assumption] | congruence | lia].
Qed.

Lemma upper_bound_skip k (pre l : multimap) :
  Forall (fun e => e.1 <= k) pre ->
  (upper_bound k (pre ++ l)).2 = (upper_bound k l).2.
Proof.
  induction 1 as [|[k' v'] pre Hk _ IH]; simpl; [reflexivity|].
  simpl in Hk. destruct (Z.ltb_spec k k'); [lia|].
  destruct (upper_bound k (pre ++ l)). simpl in *. exact IH.
Qed.

Lemma fdiv_not_undefined a b : fdiv a b <> Crash Undefined.
Proof. unfold fdiv, udiv. destruct (U256.div a b); discriminate. Qed.

Lemma layerIn_keys st rm bm h els L els' L' :
  layerIn st rm bm h els L = Next (els', L') -> map fst els' = map fst els.
Proof.
  revert L els' L'. induction els as [|[k [amount id]] els IH]; intros L els' L'; simpl.
  - intros [= <- _]. reflexivity.
  - destruct (fdiv _ _) as [q| |f]; cbn [mbind flow_bind]; try discriminate.
    destruct (_ <? 0); [discriminate|].
    destruct (layerIn _ _ _ _ els _) as [[rest' L'']| |f] eqn:Hrec;
      cbn [mbind flow_bind]; try discriminate.
    intros [= <- _]. simpl. f_equal. eapply IH. eassumption.
Qed.

Lemma layerOut_keys st rm bm h els L els' L' :
  layerOut st rm bm h els L = Next (els', L') -> map fst els' = map fst els.
Proof.
  revert L els' L'. induction els as [|[k [amount id]] els IH]; intros L els' L'; simpl.
  - intros [= <- _]. reflexivity.
  - destruct (fdiv _ _) as [q| |f]; cbn [mbind flow_bind]; try discriminate.
    destruct (INT64_MAX <? q); [discriminate|].
    destruct (assert _) as [[]| |f]; cbn [mbind flow_bind]; try discriminate.
    destruct (layerOut _ _ _ _ els _) as [[rest' L'']| |f] eqn:Hrec;
      cbn [mbind flow_bind]; try discriminate.
    intros [= <- _]. simpl. f_equal. eapply IH. eassumption.
Qed.

Lemma layerIn_not_undefined st rm bm h els L :
  layerIn st rm bm h els L <> Crash Undefined.
Proof.
  revert L. induction els as [|[k [amount id]] els IH]; intros L; simpl; [discriminate|].
  pose proof (fdiv_not_undefined (U256.mul (U256.of64 h)
                (U256.of64 (at_ (weights st) (reserveIndex rm id)))) bm) as Hd.
  destruct (fdiv _ _) as [q| |f]; cbn [mbind flow_bind]; try congruence.
  destruct (_ <? 0); [discriminate|].
  specialize (IH (mkLayer (int32 (layer_weight L + at_ (weights st) (reserveIndex rm id)))
                          (int64 (layer_amount L + U256.low64 q)) (layer_ids L ++ [id]))).
  destruct (layerIn _ _ _ _ els _) as [[rest' L'']| |f];
    cbn [mbind flow_bind]; congruence.
Qed.

Lemma layerOut_not_undefined st rm bm h els L :
  layerOut st rm bm h els L <> Crash Undefined.
Proof.
  revert L. induction els as [|[k [amount id]] els IH]; intros L; simpl; [discriminate|].
  pose proof (fdiv_not_undefined (U256.mul (U256.of64 h)
                (U256.of64 (at_ (weights st) (reserveIndex rm id)))) bm) as Hd.
  destruct (fdiv _ _) as [q| |f]; cbn [mbind flow_bind]; try congruence.
  destruct (INT64_MAX <? q); [discriminate|].
  unfold assert. destruct (0 <=? _); cbn [mbind flow_bind]; [|discriminate].
  specialize (IH (mkLayer (int32 (layer_weight L + at_ (weights st) (reserveIndex rm id)))
                          (int64 (layer_amount L + U256.low64 q)) (layer_ids L ++ [id]))).
  destruct (layerOut _ _ _ _ els _) as [[rest' L'']| |f];
    cbn [mbind flow_bind]; congruence.
Qed.

(** the layering loops never run out of fuel *)
Lemma layerLoop_fuel (inner : Z -> multimap -> Layer -> flow (multimap * Layer)) :
  (forall h els L els' L', inner h els L = Next (els', L') -> map fst els' = map fst els) ->
  (forall h els L, inner h els L <> Crash Undefined) ->
  forall fuel layerAmount m layers,
    (length (upper_bound layerAmount m).2 < fuel)%nat ->
    layerLoop inner fuel layerAmount m layers <> Crash Undefined.
Proof.
  intros Hkeys Hcrash. induction fuel as [|fuel IH]; intros la m layers Hlen; [lia|].
  simpl.
  destruct (upper_bound_spec la m) as (Hpre & Heq & _).
  destruct (upper_bound la m) as [pre suf] eqn:Hub. simpl in *.
  destruct suf as [|[k v] rest]; [discriminate|].
  assert (Hk : la < k).
  { clear -Hub. revert pre Hub. induction m as [|[k' v'] m IHm]; intros pre; simpl.
    - discriminate.
    - destruct (Z.ltb_spec la k').
      + intros [= _ -> _ _]. assumption.
      + destruct (upper_bound la m) as [p s]. intros [= _ ->]. eapply IHm. reflexivity. }
  specialize (Hcrash (int64 (k - la)) ((k, v) :: rest) emptyLayer).
  destruct (inner (int64 (k - la)) ((k, v) :: rest) emptyLayer) as [[suf' L]| |f] eqn:Hin;
    cbn [mbind flow_bind]; try congruence.
  apply IH.
  apply Hkeys in Hin.
  destruct suf' as [|[k2 v2] rest']; [discriminate|].
  simpl in Hin. injection Hin as -> Hrest.
  rewrite upper_bound_skip by (eapply Forall_impl; [exact Hpre | simpl; intros; lia]).
  simpl. destruct (Z.ltb_spec k k); [lia|].
  destruct (upper_bound_spec k rest') as (_ & _ & Hl).
  destruct (upper_bound k rest') as [p s]. simpl in *.
  assert (length rest' = length rest).
  { rewrite <- (length_map fst rest'), Hrest. apply length_map. }
  lia.
Qed.

Lemma fractionalLayers_fuel (inner : Z -> multimap -> Layer -> flow (multimap * Layer)) m :
  (forall h els L els' L', inner h els L = Next (els', L') -> map fst els' = map fst els) ->
  (forall h els L, inner h els L <> Crash Undefined) ->
  fractionalLayers inner m <> Crash Undefined.
Proof.
  intros Hkeys Hcrash. unfold fractionalLayers.
  apply layerLoop_fuel; [assumption..|].
  destruct (upper_bound_spec 0 m) as (_ & _ & Hl). lia.
Qed.

Lemma layering_fuel st bm fIn fOut : layering st bm fIn fOut <> Crash Undefined.
Proof.
  unfold layering.
  pose proof (fractionalLayers_fuel (layerIn st (GetReserveMap st) bm) fIn
                (layerIn_keys st _ bm) (layerIn_not_undefined st _ bm)) as HIn.
  pose proof (fractionalLayers_fuel (layerOut st (GetReserveMap st) bm) fOut
                (layerOut_keys st _ bm) (layerOut_not_undefined st _ bm)) as HOut.
  destruct (fractionalLayers (layerIn _ _ _) fIn) as [li| |f];
    cbn [mbind flow_bind]; try congruence.
  destruct (fractionalLayers (layerOut _ _ _) fOut) as [lo| |f];
    cbn [mbind flow_bind]; congruence.
Qed.

End LayerLoopFacts.

Section ConversionClaims.

Variable K : DecimalKernel.
Variable P : PriceHelpers.

(** ** C3 *)


End ConversionClaims.

(** ** Exact kernels: a purchase at 100% weight is 1:1 *)

Section Exact.
Variable K : DecimalKernel.
Variable E : ExactKernel K.

Local Abbreviation val := (value K E).

Lemma value_bigSatoshi : (val (dec_bigSatoshi K) == 100000000)%Q.
Proof. unfold dec_bigSatoshi. apply value_of_int. Qed.

Lemma value_scaled z : (val (dec_div K (dec_of_int K z) (dec_bigSatoshi K)) == inject_Z z / 100000000)%Q.
Proof.
  rewrite value_div.
  - now rewrite value_of_int, value_bigSatoshi.
  - rewrite value_bigSatoshi. discriminate.
Qed.

Lemma CalculateFractionalOut_one_to_one rin s :
  rin <> 0 -> s <> 0 -> in_int64 rin ->
  CalculateFractionalOut K rin s s SATOSHIDEN = rin.
Proof.
  intros Hr Hs Hin. unfold CalculateFractionalOut.
  destruct (Z.eqb_spec rin 0) as [|_]; [contradiction|].
  rewrite (to_int64_value K E _ rin); [reflexivity| |assumption].
  unfold supplyoutDecimal.
  destruct (Z.eqb_spec s 0) as [|_]; [contradiction|].
  assert (Hsq : ~ (inject_Z s == 0)%Q).
  { intros Hq. apply Hs. unfold Qeq in Hq. simpl in Hq. lia. }
  assert (Hsv : ~ (val (dec_div K (dec_of_int K s) (dec_bigSatoshi K)) == 0)%Q).
  { rewrite value_scaled. intros Hq. apply Hsq.
    rewrite <- (Qmult_div_r (inject_Z s) 100000000) by discriminate.
    rewrite Hq. reflexivity. }
  rewrite value_mul, value_mul, value_sub, value_pow_one.
  - rewrite value_add, (value_div K E _ _ Hsv), !value_scaled, value_bigSatoshi.
    unfold dec_one. rewrite value_of_int.
    field. exact Hsq.
  - unfold SATOSHIDEN. rewrite value_scaled. reflexivity.
Qed.
End Exact.

Lemma exactKernel_exact : ExactKernel exactKernel.
Proof.
  refine (mkExact exactKernel (fun x => x) _ _ _ _ _ _ _); simpl.
  - intros z. reflexivity.
  - intros a b. apply Qred_correct.
  - intros a b. apply Qred_correct.
  - intros a b. apply Qred_correct.
  - intros a b _. apply Qred_correct.
  - intros x r Hr. unfold exact_pow.
    assert (Hred : Qred r = 1%Q) by (apply (Qred_complete r 1 Hr)).
    rewrite Hred. simpl. rewrite Qred_correct. reflexivity.
  - intros x z Hx Hin. unfold exact_to_int64.
    assert (Hq : Z.quot (Qnum x) (Zpos (Qden x)) = z).
    { unfold Qeq in Hx. simpl in Hx. rewrite Z.mul_1_r in Hx. rewrite Hx.
      apply Z.quot_mul. discriminate. }
    rewrite Hq. unfold in_int64 in Hin.
    destruct (Z.leb_spec INT64_MIN z); [|lia].
    destruct (Z.leb_spec z INT64_MAX); [reflexivity|lia].
Qed.

(** ** Scenario: one reserve at 100% weight *)

Section SingleReserve.

Variable K : DecimalKernel.
Variable P : PriceHelpers.
Variables (v f : Z) (id c0 : N) (is0 em0 : Z).

Let st : CCurrencyState :=
  mkCurrencyState v f id [c0] [SATOSHIDEN] [400000000] is0 em0 400000000.

(** the header's [ReserveToNative] values one unit of the reserve at one
    unit of the fractional currency (the price is 1:1) *)
Hypothesis Hnative : ReserveToNative P st 100000000 0 = 100000000.
(** the decimal kernel evaluates 10^8 * (4 * ((1/4 + 1)^1 - 1)) to 10^8 *)
Hypothesis Hkernel :
  CalculateFractionalOut K 100000000 400000000 400000000 SATOSHIDEN = 100000000.

Lemma netting_single :
  netting P st [100000000] [0] = Next (100000000, [], [(100000000, (100000000, c0))]).
Proof.
  unfold netting.
  change (existsb _ [100000000] || existsb _ [0]) with false.
  cbv iota.
  replace (checkWeights st) with (@Next (Z * Z) (100000000, 100000000))
    by (vm_compute; reflexivity).
  cbn [mbind flow_bind].
  change (seq 0 (length (currencies st))) with [0%nat].
  unfold netFlows.
  change (at_ [100000000] 0) with 100000000.
  rewrite Hnative.
  vm_compute. reflexivity.
Qed.

Lemma reserveIndex_single : reserveIndex (GetReserveMap st) c0 = 0%nat.
Proof.
  unfold reserveIndex, GetReserveMap. cbn [currencies st imap fold_left].
  rewrite lookup_insert_eq. reflexivity.
Qed.

Lemma weightOf_single : weightOf st (GetReserveMap st) c0 = 100000000.
Proof. unfold weightOf. rewrite reserveIndex_single. reflexivity. Qed.

Lemma layering_single :
  layering st 100000000 [] [(100000000, (100000000, c0))]
  = Next ([], [mkLayer 100000000 100000000 [c0]]).
Proof.
  unfold layering.
  change (fractionalLayers _ []) with (@Next (list Layer) []).
  cbn [mbind flow_bind].
  unfold fractionalLayers, layerLoop.
  cbn [length upper_bound].
  change (100000000 <? 100000000) with false. change (0 <? 100000000) with true.
  cbv iota. cbn [upper_bound].
  unfold layerOut. rewrite reserveIndex_single.
  vm_compute. reflexivity.
Qed.

Lemma runPasses_single :
  runPasses K st (GetReserveMap st) [] [mkLayer 100000000 100000000 [c0]]
  = Next (∅, <[c0 := (100000000, 100000000)]> (<[c0 := (100000000, 0)]> ∅)).
Proof.
  pose proof Hkernel as Hk. unfold SATOSHIDEN in Hk.
  unfold runPasses, buyPass.
  cbn [layer_weight layer_amount layer_ids].
  norm (int64 (U256.low64 (U256.mul (bigSupply st) (U256.of64 100000000) / bigSatoshi) + 0)).
  norm (int64 (supply st + 0)).
  rewrite Hk.
  change (100000000 <? 0) with false. cbv iota.
  unfold buyShares. rewrite weightOf_single.
  norm (fdiv (U256.mul32 (U256.of64 100000000) 100000000) (U256.of64 100000000)).
  cbn [mbind flow_bind]. rewrite lookup_empty.
  norm (U256.low64 100000000).
  norm (int64 (0 + 100000000)).
  norm (int64 (supply st + 100000000)).
  change (assert (0 <=? 500000000)) with (@Next unit tt).
  cbn [mbind flow_bind].
  unfold sellPass. cbn [mbind flow_bind].
  norm (int64 (supply st + 0)).
  norm (int64 (500000000 + 0)).
  change (assert (0 <=? 400000000)) with (@Next unit tt).
  change (assert (0 <=? 500000000)) with (@Next unit tt).
  cbn [mbind flow_bind].
  unfold rebuyPass. cbn [layer_weight layer_amount layer_ids].
  norm (int64 (U256.low64 (U256.mul (U256.of64 400000000) (U256.of64 100000000) / bigSatoshi)
               + 0)).
  norm (int64 (400000000 + 0)).
  rewrite Hk.
  unfold rebuyShares. rewrite lookup_insert_eq, weightOf_single.
  norm (fdiv (U256.mul32 (U256.of64 100000000) 100000000) (U256.of64 100000000)).
  cbn [mbind flow_bind].
  norm (int64 (0 + U256.low64 100000000)).
  reflexivity.
Qed.

Lemma priceLoop_single :
  priceLoop P st [100000000] [0] ∅
            (<[c0 := (100000000, 100000000)]> (<[c0 := (100000000, 0)]> ∅))
            [0%nat] [0] st
  = Next ([100000000],
          mkCurrencyState v f id [c0] [SATOSHIDEN] [500000000] is0 em0 500000000).
Proof.
  unfold priceLoop.
  change (currencyAt st 0) with c0.
  rewrite lookup_insert_eq.
  change (at_ [100000000] 0) with 100000000. change (at_ [0] 0) with 0.
  norm (U256.low64 (U256.shr1 (U256.add (U256.of64 100000000) (U256.of64 100000000)))).
  norm (int64 (0 + 100000000)).
  change (assert (0 <? 100000000)) with (@Next unit tt).
  cbn [mbind flow_bind].
  norm (fdiv (U256.mul (U256.of64 100000000) (U256.of64 SATOSHIDEN)) (U256.of64 100000000)).
  cbn [mbind flow_bind].
  change (nonzero 0) with false. cbv iota.
  vm_compute. reflexivity.
Qed.

(** the whole call, from the four phases above *)
Lemma ConvertAmounts_single ns via :
  ConvertAmounts K P st [100000000] [0] ns None via
  = Returns ([100000000],
             mkCurrencyState v f id [c0] [SATOSHIDEN] [500000000] is0 em0 500000000, via).
Proof.
  unfold ConvertAmounts, ConvertAmounts_body.
  change (checkParameters (length (currencies st)) [100000000] [0] None)
    with (HaveConversion true).
  cbv iota. unfold convertFlow.
  rewrite netting_single. cbn [mbind flow_bind].
  rewrite layering_single. cbn [mbind flow_bind].
  rewrite runPasses_single. cbn [mbind flow_bind].
  change (seq 0 (length (currencies st))) with [0%nat].
  change (replicate (length (currencies st)) 0) with [0].
  rewrite priceLoop_single. cbn [mbind flow_bind].
  unfold crossStep. cbn [mbind flow_bind].
  reflexivity.
Qed.

End SingleReserve.

(** ** C1 *)

(** C1: for a state with one reserve currency, weight SATOSHIDEN, supply
    4*10^8 and reserves[0] = 4*10^8, [ConvertAmounts] with inputReserves =
    [10^8] and inputFractional = [0] returns rates[0] = 10^8 and sets
    newState.supply = 5*10^8 and newState.reserves[0] = 5*10^8.  The header's
    [ReserveToNative] and the decimal kernel enter through what they return
    at this input. *)
Theorem ConvertAmounts_single_reserve (K : DecimalKernel) (P : PriceHelpers)
        (v f : Z) (id c0 : N) (is0 em0 : Z) (ns : CCurrencyState) (via : option (list Z)) :
  let st := mkCurrencyState v f id [c0] [SATOSHIDEN] [400000000] is0 em0 400000000 in
  ReserveToNative P st 100000000 0 = 100000000 ->
  CalculateFractionalOut K 100000000 400000000 400000000 SATOSHIDEN = 100000000 ->
  exists rates newState,
    ConvertAmounts K P st [100000000] [0] ns None via = Returns (rates, newState, via)
    /\ rates = [100000000]
    /\ supply newState = 500000000
    /\ reserves newState = [500000000].
Proof.
  intros st Hn Hk.
  exists [100000000].
  exists (mkCurrencyState v f id [c0] [SATOSHIDEN] [500000000] is0 em0 500000000).
  split; [|repeat split].
  exact (ConvertAmounts_single K P v f id c0 is0 em0 Hn Hk ns via).
Qed.

Lemma ConvertAmounts_single_reserve_witness :
  let st := mkCurrencyState 1 1 5%N [7%N] [SATOSHIDEN] [400000000] 0 0 400000000 in
  exists rates newState,
    ConvertAmounts exactKernel sampleHelpers st [100000000] [0]
                   (mkCurrencyState 0 0 0%N [] [] [] 0 0 0) None None
    = Returns (rates, newState, None)
    /\ rates = [100000000]
    /\ supply newState = 500000000
    /\ reserves newState = [500000000].
Proof.
  apply (ConvertAmounts_single_reserve exactKernel sampleHelpers 1 1 5%N 7%N 0 0
           (mkCurrencyState 0 0 0%N [] [] [] 0 0 0) None).
  - vm_compute. reflexivity.
  - vm_compute. reflexivity.
Defined.

(** ** Closed instances for C3, C9 and C10 *)

Lemma ConvertAmounts_all_zero_witness :
  ConvertAmounts exactKernel sampleHelpers
    (mkCurrencyState 1 1 5%N [7%N] [SATOSHIDEN] [400000000] 0 0 400000000)
    [0] [0] (mkCurrencyState 0 0 0%N [] [] [] 0 0 0) None None
  = Returns (PricesInReserve sampleHelpers
               (mkCurrencyState 1 1 5%N [7%N] [SATOSHIDEN] [400000000] 0 0 400000000),
             mkCurrencyState 1 1 5%N [7%N] [SATOSHIDEN] [400000000] 0 0 400000000,
             None).
Proof.
  apply (ConvertAmounts_all_zero exactKernel sampleHelpers
           (mkCurrencyState 1 1 5%N [7%N] [SATOSHIDEN] [400000000] 0 0 400000000)
           [0] [0] (mkCurrencyState 0 0 0%N [] [] [] 0 0 0) None None).
  - repeat split; reflexivity.
  - repeat constructor.
  - repeat constructor.
Defined.



(** ** C9 *)

Section OverflowFacts.

Variable K : DecimalKernel.

(** [CalculateFractionalOut] reports a failed conversion by returning -1 *)
Lemma CalculateFractionalOut_overflow rin s r ratio :
  rin <> 0 ->
  dec_to_int64 K (supplyoutDecimal K rin s r ratio) = None ->
  CalculateFractionalOut K rin s r ratio = -1.
Proof.
  intros Hne Hov. unfold CalculateFractionalOut.
  destruct (Z.eqb_spec rin 0); [contradiction|]. now rewrite Hov.
Qed.

(** [CalculateReserveOut] does not: a failed conversion is an assertion
    failure *)
Lemma CalculateReserveOut_overflow fin s r ratio :
  fin <> 0 ->
  dec_to_int64 K (reserveoutDecimal K fin s r ratio) = None ->
  CalculateReserveOut K fin s r ratio = Fails AssertionFailed.
Proof.
  intros Hne Hov. unfold CalculateReserveOut.
  destruct (Z.eqb_spec fin 0); [contradiction|]. now rewrite Hov.
Qed.

End OverflowFacts.

(** C9: selling 10^18 base units of a fractional currency with supply 10^8
    and one reserve at 50% weight.  The decimal result of the sell formula,
    about -5*10^27, does not fit an [int64_t]; [CalculateReserveOut] asserts
    instead of reporting the failure, and [ConvertAmounts] ends in that
    assertion instead of returning the initial prices. *)
Theorem CalculateReserveOut_overflow_aborts :
  dec_to_int64 exactKernel
    (reserveoutDecimal exactKernel 1000000000000000000 100000000 50000000 50000000) = None
  /\ CalculateReserveOut exactKernel 1000000000000000000 100000000 50000000 50000000
     = Fails AssertionFailed
  /\ ConvertAmounts exactKernel sampleHelpers
       (mkCurrencyState 1 1 5%N [7%N] [50000000] [100000000] 0 0 100000000)
       [0] [1000000000000000000] (mkCurrencyState 0 0 0%N [] [] [] 0 0 0) None None
     = Fails AssertionFailed.
Proof. repeat split; vm_compute; reflexivity. Qed.

(** ** Batches of conversions *)

Section QueueFacts.

Lemma at_insert_eq (row : list Z) j a :
  (j < length row)%nat -> at_ (<[j := a]> row) j = a.
Proof. intros Hj. unfold at_. now rewrite list_lookup_insert_eq. Qed.

Lemma at_insert_ne (row : list Z) j j' a :
  j <> j' -> at_ (<[j := a]> row) j' = at_ row j'.
Proof. intros Hj. unfold at_. now rewrite list_lookup_insert_ne. Qed.

(** two [+=] on entries of one row commute *)
Lemma row_add_comm (row : list Z) j v j' v' :
  <[j := int64 (at_ (<[j' := int64 (at_ row j' + v')]> row) j + v)]>
    (<[j' := int64 (at_ row j' + v')]> row)
  = <[j' := int64 (at_ (<[j := int64 (at_ row j + v)]> row) j' + v')]>
      (<[j := int64 (at_ row j + v)]> row).
Proof.
  destruct (decide (j = j')) as [<- | Hne].
  - destruct (decide (j < length row)%nat) as [Hlt | Hge].
    + rewrite !at_insert_eq by assumption.
      rewrite !list_insert_insert_eq. f_equal. apply int64_add_swap.
    + rewrite !list_insert_ge by (rewrite ?length_insert; lia). reflexivity.
  - rewrite (at_insert_ne row j' j) by congruence.
    rewrite (at_insert_ne row j j') by congruence.
    apply list_insert_insert_ne. congruence.
Qed.

Lemma addCross_comm i j v i' j' v' (rows : list (list Z)) :
  addCross i j v (addCross i' j' v' rows) = addCross i' j' v' (addCross i j v rows).
Proof.
  unfold addCross.
  destruct (decide (i = i')) as [<- | Hne].
  - destruct (rows !! i) as [row|] eqn:Hrow.
    + assert (Hlt : (i < length rows)%nat) by (eapply lookup_lt_Some; eassumption).
      rewrite !list_lookup_insert_eq by assumption. simpl.
      rewrite !list_insert_insert_eq. f_equal. apply row_add_comm.
    + assert (Hge : (length rows <= i)%nat) by (now apply lookup_ge_None).
      rewrite !list_insert_ge by (rewrite ?length_insert; lia). reflexivity.
  - rewrite (list_lookup_insert_ne rows i' i) by congruence.
    rewrite (list_lookup_insert_ne rows i i') by congruence.
    apply list_insert_insert_ne. congruence.
Qed.

Variable K : DecimalKernel.
Variable P : PriceHelpers.
Variables SUCCESS_FEE MIN_SUCCESS_FEE : Z.
Variables FEE_OUTPUT RESERVE_TO_RESERVE : Z.
Variable importCurrencyID : N.
Variable currencyIndexMap : gmap N nat.
Variables isValidCurrency isFractionalCurrency : N -> bool.
Variable conversionPrice : list Z.

Local Abbreviation queueAmounts' :=
  (queueAmounts P SUCCESS_FEE MIN_SUCCESS_FEE FEE_OUTPUT RESERVE_TO_RESERVE
                importCurrencyID currencyIndexMap isFractionalCurrency conversionPrice).
Local Abbreviation queueConversion' :=
  (queueConversion P SUCCESS_FEE MIN_SUCCESS_FEE FEE_OUTPUT RESERVE_TO_RESERVE
                   importCurrencyID currencyIndexMap isValidCurrency isFractionalCurrency
                   conversionPrice).
Local Abbreviation queueAll' :=
  (queueAll P SUCCESS_FEE MIN_SUCCESS_FEE FEE_OUTPUT RESERVE_TO_RESERVE
            importCurrencyID currencyIndexMap isValidCurrency isFractionalCurrency
            conversionPrice).

Lemma queueAmounts_comm t1 t2 q :
  queueAmounts' t1 (queueAmounts' t2 q) = queueAmounts' t2 (queueAmounts' t1 q).
Proof.
  unfold queueAmounts.
  destruct (toFractional importCurrencyID currencyIndexMap isFractionalCurrency t1),
           (toFractional importCurrencyID currencyIndexMap isFractionalCurrency t2);
    repeat match goal with
           | |- context [if ?b && ?c then _ else _] => destruct (b && c)
           end;
    cbn [reserveConverted fractionalConverted crossConversions];
    f_equal; auto using add_to_comm, addCross_comm.
Qed.

Lemma queueAll_permutation b1 b2 :
  Permutation b1 b2 -> forall q, queueAll' b1 q = queueAll' b2 q.
Proof.
  induction 1 as [| t b1 b2 _ IH | t1 t2 b | b1 b2 b3 _ IH1 _ IH2]; intros q.
  - reflexivity.
  - simpl. destruct (queueConversion' t q); simpl; [apply IH|reflexivity].
  - simpl. unfold queueConversion.
    destruct (conversionAccepted _ _ _ _ _ t1), (conversionAccepted _ _ _ _ _ t2);
      simpl; try reflexivity.
    now rewrite queueAmounts_comm.
  - now rewrite IH1, IH2.
Qed.

(** ** C4 *)

End QueueFacts.



Section MoreFeeFacts.

Variables DEFAULT_PER_STEP_FEE DESTINATION_BYTE_DIVISOR : Z.
Variables SUCCESS_FEE MIN_SUCCESS_FEE : Z.
Variables FEE_OUTPUT PRECONVERT CONVERT RESERVE_TO_RESERVE : Z.

Local Abbreviation CCF := (CalculateConversionFee SUCCESS_FEE MIN_SUCCESS_FEE).

(** X1: the conversion fee grows with the amount and never exceeds the
    larger of the amount and the minimum fee *)
Theorem CalculateConversionFee_monotone a b :
  0 <= SUCCESS_FEE <= SATOSHIDEN ->
  0 <= a -> a <= b -> b <= INT64_MAX ->
  CCF a <= CCF b /\ CCF a <= Z.max MIN_SUCCESS_FEE a.
Proof.
  intros Hs Ha Hab Hb.
  rewrite !CalculateConversionFee_exact by lia.
  assert (HS : SATOSHIDEN = 100000000) by reflexivity.
  assert (H1 : a * SUCCESS_FEE / SATOSHIDEN <= b * SUCCESS_FEE / SATOSHIDEN).
  { apply Z.div_le_mono; [lia|]. nia. }
  assert (H2 : a * SUCCESS_FEE / SATOSHIDEN <= a).
  { apply Z.div_le_upper_bound; [lia|]. nia. }
  lia.
Qed.

(** the fee fold started from any map *)
Lemma fee_fold_get_from (f : Z -> Z) (init m : gmap N Z) k :
  ValueMap.get
    (map_fold (fun cur amount acc => ValueMap.add_to cur (f amount) acc) init m) k
  = match m !! k with
    | Some a => int64 (ValueMap.get init k + f a)
    | None => ValueMap.get init k
    end.
Proof.
  revert k.
  apply (map_fold_weak_ind
           (fun r m => forall k, ValueMap.get r k
                                 = match m !! k with
                                   | Some a => int64 (ValueMap.get init k + f a)
                                   | None => ValueMap.get init k
                                   end)).
  - intros k. now rewrite lookup_empty.
  - intros i x m' r Hi IH k.
    destruct (decide (i = k)) as [-> | Hne].
    + rewrite get_add_to_eq, lookup_insert_eq, IH, Hi. reflexivity.
    + rewrite get_add_to_ne, lookup_insert_ne, IH by assumption. reflexivity.
Qed.

(** X2: for a conversion that is not a pre-conversion no transfer fee is
    due, so [CalculateFee] charges every currency what [ConversionFee]
    charges it *)
Theorem CalculateFee_conversion feeCurrencyID t flags transferTotal :
  IsConversion CONVERT t = true -> IsPreConversion PRECONVERT t = false ->
  exists feeMap,
    CalculateFee DEFAULT_PER_STEP_FEE DESTINATION_BYTE_DIVISOR SUCCESS_FEE MIN_SUCCESS_FEE
                 FEE_OUTPUT PRECONVERT CONVERT RESERVE_TO_RESERVE
                 feeCurrencyID t flags transferTotal = Some feeMap
    /\ forall k, ValueMap.get feeMap k
                 = ValueMap.get (ConversionFee SUCCESS_FEE MIN_SUCCESS_FEE
                                               PRECONVERT CONVERT RESERVE_TO_RESERVE t) k.
Proof.
  intros Hc Hp. unfold CalculateFee, ConversionFee.
  rewrite (CalculateTransferFee_zero DEFAULT_PER_STEP_FEE DESTINATION_BYTE_DIVISOR
             FEE_OUTPUT PRECONVERT CONVERT)
    by (right; split; assumption).
  cbn [mbind option_bind]. rewrite Hc. cbn [orb].
  eexists. split; [reflexivity|]. intros k.
  assert (Hinit : ValueMap.get (ValueMap.set feeCurrencyID 0 ∅) k = 0).
  { unfold ValueMap.set. destruct (decide (feeCurrencyID = k)) as [-> | Hne].
    - apply get_insert_eq.
    - rewrite get_insert_ne by assumption. reflexivity. }
  destruct (IsReserveToReserve RESERVE_TO_RESERVE t).
  - rewrite !get_scale, fee_fold_get_from, fee_fold_get, Hinit.
    destruct (reserveValues t !! k); reflexivity.
  - rewrite fee_fold_get_from, fee_fold_get, Hinit.
    destruct (reserveValues t !! k); reflexivity.
Qed.

(** floor of a quotient, from its two bounds *)
Lemma div_unique_bounds x d q : 0 < d -> q * d <= x < (q + 1) * d -> x / d = q.
Proof. intros Hd Hx. symmetry. apply (Z.div_unique x d q (x - q * d)); lia. Qed.

(** X3: the additional fee [r] for an amount [a] is the fee on [a + r] *)
Theorem CalculateAdditionalConversionFee_fixed_point a :
  0 <= SUCCESS_FEE < SATOSHIDEN -> 0 <= MIN_SUCCESS_FEE ->
  0 <= a -> a * SATOSHIDEN / (SATOSHIDEN - SUCCESS_FEE) <= INT64_MAX ->
  a + MIN_SUCCESS_FEE <= INT64_MAX ->
  let r := Z.max MIN_SUCCESS_FEE (a * SUCCESS_FEE / (SATOSHIDEN - SUCCESS_FEE)) in
  CalculateAdditionalConversionFee SUCCESS_FEE MIN_SUCCESS_FEE a = Returns r
  /\ CCF (a + r) = r.
Proof.
  intros Hs Hmin Ha Hfit Hfit' r.
  assert (HS : SATOSHIDEN = 100000000) by reflexivity.
  assert (HM : INT64_MAX = 2 ^ 63 - 1) by reflexivity.
  set (D := SATOSHIDEN - SUCCESS_FEE) in *.
  assert (HD : 0 < D <= SATOSHIDEN) by (unfold D; lia).
  set (e := a * SUCCESS_FEE / D) in *.
  assert (He0 : 0 <= e) by (apply Z.div_pos; nia).
  assert (He : e * D <= a * SUCCESS_FEE < (e + 1) * D).
  { unfold e. pose proof (Z.mul_div_le (a * SUCCESS_FEE) D ltac:(lia)).
    pose proof (Z.mul_succ_div_gt (a * SUCCESS_FEE) D ltac:(lia)). lia. }
  assert (Hn0 : a * SATOSHIDEN / D = a + e).
  { apply div_unique_bounds; [lia|]. unfold D in *. nia. }
  rewrite Hn0 in Hfit.
  (* the fee on a + max(MIN, e) is max(MIN, e) *)
  assert (Hfix : CCF (a + r) = r).
  { rewrite CalculateConversionFee_exact by (unfold r; lia).
    unfold r. destruct (Z_lt_le_dec e MIN_SUCCESS_FEE) as [Hlt | Hge].
    - rewrite (Z.max_l MIN_SUCCESS_FEE e) by lia.
      assert ((a + MIN_SUCCESS_FEE) * SUCCESS_FEE / SATOSHIDEN <= MIN_SUCCESS_FEE); [|lia].
      apply Z.div_le_upper_bound; [lia|].
      assert (a * SUCCESS_FEE < MIN_SUCCESS_FEE * D) by nia.
      unfold D in *. lia.
    - rewrite (Z.max_r MIN_SUCCESS_FEE e) by lia.
      replace ((a + e) * SUCCESS_FEE / SATOSHIDEN) with e; [lia|].
      symmetry. apply div_unique_bounds; [lia|]. unfold D in *. lia. }
  split; [|exact Hfix].
  unfold CalculateAdditionalConversionFee.
  rewrite (of64_small a) by lia.
  rewrite (of64_small SATOSHIDEN) by lia.
  rewrite (of64_small SUCCESS_FEE) by lia.
  unfold U256.mul, U256.sub.
  rewrite (norm_small (a * SATOSHIDEN))
    by (split; [nia|]; apply Z.le_lt_trans with (m := 2 ^ 63 * 2 ^ 63); [nia|reflexivity]).
  rewrite (norm_small (SATOSHIDEN - SUCCESS_FEE))
    by (split; [lia|]; apply Z.le_lt_trans with (m := 2 ^ 63); [lia|reflexivity]).
  fold D. unfold udiv, U256.div.
  destruct (Z.eqb_spec D 0) as [|_]; [lia|]. unfold outcome_bind.
  rewrite Hn0. rewrite (low64_small (a + e)) by lia.
  replace (a + e - a) with e by lia.
  assert (Hint : forall x, 0 <= x <= INT64_MAX -> int64 x = x).
  { intros x Hx. apply int64_id. unfold in_int64, INT64_MIN. lia. }
  rewrite (Hint e) by lia.
  assert (Hr : 0 <= r) by (unfold r; lia).
  assert (Hra : a + r <= INT64_MAX) by (unfold r; lia).
  assert (Hnew : (if e <? MIN_SUCCESS_FEE then int64 (a + MIN_SUCCESS_FEE) else a + e) = a + r).
  { unfold r. destruct (Z.ltb_spec e MIN_SUCCESS_FEE).
    - rewrite Hint by lia. lia.
    - lia. }
  rewrite Hnew, !Hfix, (Hint (a + r)) by lia. rewrite Hfix.
  replace (a + r - r) with a by lia. rewrite (Hint a) by lia.
  replace (a - a) with 0 by lia. rewrite (Hint 0) by lia.
  rewrite Z.add_0_r. f_equal. apply Hint. lia.
Qed.

(** X4: the amount a conversion passes on after its fee lies between zero
    and the amount transferred: the fee taken is never more than
    the amount, and an amount of at most the minimum fee is used up *)
Theorem conversionValueOut_bounds (t : Conversion) :
  0 <= SUCCESS_FEE -> 2 * SUCCESS_FEE <= SATOSHIDEN -> 0 <= MIN_SUCCESS_FEE <= 2 ^ 61 ->
  0 <= FirstValue t <= INT64_MAX ->
  0 <= conversionValueOut SUCCESS_FEE MIN_SUCCESS_FEE FEE_OUTPUT RESERVE_TO_RESERVE t
    <= FirstValue t
  /\ (has_flag (cv_flags t) FEE_OUTPUT = true ->
      conversionValueOut SUCCESS_FEE MIN_SUCCESS_FEE FEE_OUTPUT RESERVE_TO_RESERVE t
      = FirstValue t)
  /\ (has_flag (cv_flags t) FEE_OUTPUT = false -> FirstValue t <= MIN_SUCCESS_FEE ->
      conversionValueOut SUCCESS_FEE MIN_SUCCESS_FEE FEE_OUTPUT RESERVE_TO_RESERVE t = 0).
Proof.
  intros Hs0 Hs2 Hmin Ha.
  assert (HS : SATOSHIDEN = 100000000) by reflexivity.
  assert (HM : INT64_MAX = 2 ^ 63 - 1) by reflexivity.
  assert (Hs : 0 <= SUCCESS_FEE <= SATOSHIDEN) by lia.
  assert (Hint : forall x, 0 <= x <= INT64_MAX -> int64 x = x).
  { intros x Hx. apply int64_id. unfold in_int64, INT64_MIN. lia. }
  unfold conversionValueOut.
  destruct (has_flag (cv_flags t) FEE_OUTPUT).
  - rewrite Z.sub_0_r, Hint by lia.
    split; [lia|]. split; [intros _; reflexivity|discriminate].
  - pose proof (CalculateConversionFee_exact SUCCESS_FEE MIN_SUCCESS_FEE (FirstValue t) Hs Ha)
      as Hfee.
    assert (Hq : 0 <= FirstValue t * SUCCESS_FEE / SATOSHIDEN
                 /\ 2 * (FirstValue t * SUCCESS_FEE / SATOSHIDEN) <= FirstValue t).
    { split; [apply Z.div_pos; nia|].
      pose proof (Z.mul_div_le (FirstValue t * SUCCESS_FEE) SATOSHIDEN ltac:(lia)). nia. }
    set (fee := CalculateConversionFee SUCCESS_FEE MIN_SUCCESS_FEE (FirstValue t)) in *.
    assert (Hf : MIN_SUCCESS_FEE <= fee /\ 0 <= fee /\ 2 * fee <= INT64_MAX) by lia.
    set (fee' := if has_flag (cv_flags t) RESERVE_TO_RESERVE then int64 (fee * 2) else fee).
    assert (Hf' : fee <= fee' <= INT64_MAX).
    { unfold fee'. destruct (has_flag _ _); [rewrite Hint by lia|]; lia. }
    destruct (Z.ltb_spec (FirstValue t) fee').
    + rewrite Z.sub_diag. change (int64 0) with 0.
      split; [lia|]. split; [discriminate|intros _ _; reflexivity].
    + rewrite Hint by lia.
      split; [lia|]. split; [discriminate|]. intros _ Hsmall. lia.
Qed.

End MoreFeeFacts.

(** *** The fee computed by the currency state *)

Section StateFeeFacts.

Variable K : DecimalKernel.
Variable PriceInReserveDecFloat50 : CCurrencyState -> Z -> dec K.
Variables SUCCESS_FEE MIN_SUCCESS_FEE : Z.

Local Abbreviation stateFee :=
  (CurrencyState.CalculateConversionFee K PriceInReserveDecFloat50 SUCCESS_FEE MIN_SUCCESS_FEE).

(** X5: on an amount that is not converted to native the state computes
    the fee the descriptor computes; on an amount converted to native it
    takes the fee on the amount divided by the price of the reserve, the
    minimum fee when that price is zero, and stops at an assertion when
    the price does not fit 64 bits *)
Theorem CurrencyState_CalculateConversionFee_cases st a idx :
  0 <= SUCCESS_FEE <= SATOSHIDEN -> 0 <= MIN_SUCCESS_FEE -> 0 <= a <= INT64_MAX ->
  stateFee st a false idx = Returns (CalculateConversionFee SUCCESS_FEE MIN_SUCCESS_FEE a)
  /\ (dec_to_int64 K (PriceInReserveDecFloat50 st idx) = None ->
      stateFee st a true idx = Fails AssertionFailed)
  /\ (dec_to_int64 K (PriceInReserveDecFloat50 st idx) = Some 0 ->
      stateFee st a true idx = Returns MIN_SUCCESS_FEE)
  /\ (forall price,
         dec_to_int64 K (PriceInReserveDecFloat50 st idx) = Some price ->
         0 < price <= INT64_MAX ->
         a * SATOSHIDEN / price * SUCCESS_FEE / SATOSHIDEN <= INT64_MAX ->
         stateFee st a true idx
         = Returns (Z.max MIN_SUCCESS_FEE (a * SATOSHIDEN / price * SUCCESS_FEE / SATOSHIDEN))).
Proof.
  intros Hs Hmin Ha.
  assert (HS : SATOSHIDEN = 100000000) by reflexivity.
  assert (HM : INT64_MAX = 2 ^ 63 - 1) by reflexivity.
  unfold CurrencyState.CalculateConversionFee.
  split; [reflexivity|]. split; [|split].
  - intros ->. reflexivity.
  - intros ->. cbn [Z.eqb outcome_bind].
    replace (U256.low64 (U256.mul 0 (U256.of64 SUCCESS_FEE) / U256.of64 SATOSHIDEN)) with 0
      by (unfold U256.mul; cbn; reflexivity).
    destruct (Z.ltb_spec 0 MIN_SUCCESS_FEE); [reflexivity|f_equal; lia].
  - intros price -> Hp Hfit.
    destruct (Z.eqb_spec price 0) as [|_]; [lia|].
    rewrite (of64_small a), (of64_small SATOSHIDEN), (of64_small price),
      (of64_small SUCCESS_FEE) by lia.
    unfold U256.mul.
    rewrite (norm_small (a * SATOSHIDEN))
      by (split; [nia|]; apply Z.le_lt_trans with (m := 2 ^ 63 * 2 ^ 63); [nia|reflexivity]).
    unfold udiv, U256.div.
    destruct (Z.eqb_spec price 0) as [|_]; [lia|]. unfold outcome_bind.
    set (n := a * SATOSHIDEN / price).
    assert (Hn : 0 <= n <= a * SATOSHIDEN).
    { unfold n. split; [apply Z.div_pos; nia|].
      apply Z.div_le_upper_bound; [lia|]. nia. }
    rewrite (norm_small (n * SUCCESS_FEE))
      by (split; [nia|];
          apply Z.le_lt_trans with (m := 2 ^ 63 * 2 ^ 63 * 2 ^ 63); [nia|reflexivity]).
    rewrite low64_small by (split; [apply Z.div_pos; nia|assumption]).
    f_equal. destruct (Z.ltb_spec (n * SUCCESS_FEE / SATOSHIDEN) MIN_SUCCESS_FEE); lia.
Qed.

End StateFeeFacts.

Lemma CalculateConversionFee_monotone_witness :
  CalculateConversionFee 25000 20000 1000000000 <= CalculateConversionFee 25000 20000 2000000000
  /\ CalculateConversionFee 25000 20000 1000000000 <= Z.max 20000 1000000000.
Proof.
  apply (CalculateConversionFee_monotone 25000 20000 1000000000 2000000000).
  - unfold SATOSHIDEN. lia.
  - lia.
  - lia.
  - unfold INT64_MAX. lia.
Defined.

Lemma CalculateFee_conversion_witness :
  let t := mkReserveTransfer (1 + 2) {[ 7%N := 1000000000 ]} 20 in
  exists feeMap,
    CalculateFee 10000 128 25000 20000 8 4 2 1024 7%N t 0 0 = Some feeMap
    /\ forall k, ValueMap.get feeMap k
                 = ValueMap.get (ConversionFee 25000 20000 4 2 1024 t) k.
Proof.
  apply (CalculateFee_conversion 10000 128 25000 20000 8 4 2 1024 7%N
           (mkReserveTransfer (1 + 2) {[ 7%N := 1000000000 ]} 20) 0 0).
  - reflexivity.
  - reflexivity.
Defined.

Lemma CalculateAdditionalConversionFee_fixed_point_witness :
  let r := Z.max 20000 (1000000000 * 25000 / (SATOSHIDEN - 25000)) in
  CalculateAdditionalConversionFee 25000 20000 1000000000 = Returns r
  /\ CalculateConversionFee 25000 20000 (1000000000 + r) = r.
Proof.
  apply (CalculateAdditionalConversionFee_fixed_point 25000 20000 1000000000).
  - unfold SATOSHIDEN. lia.
  - lia.
  - lia.
  - vm_compute. discriminate.
  - unfold INT64_MAX. lia.
Defined.

Lemma conversionValueOut_bounds_witness :
  let t := mkConversion 7 1000000000 5 0 (1 + 2) in
  0 <= conversionValueOut 25000 20000 8 1024 t <= FirstValue t
  /\ (has_flag (cv_flags t) 8 = true ->
      conversionValueOut 25000 20000 8 1024 t = FirstValue t)
  /\ (has_flag (cv_flags t) 8 = false -> FirstValue t <= 20000 ->
      conversionValueOut 25000 20000 8 1024 t = 0).
Proof.
  apply (conversionValueOut_bounds 25000 20000 8 1024 (mkConversion 7 1000000000 5 0 (1 + 2))).
  - lia.
  - unfold SATOSHIDEN. lia.
  - lia.
  - simpl. unfold INT64_MAX. lia.
Defined.

Lemma CurrencyState_CalculateConversionFee_cases_witness :
  let st := mkCurrencyState 1 1 5%N [7%N] [SATOSHIDEN] [400000000] 0 0 400000000 in
  let price : CCurrencyState -> Z -> dec exactKernel := fun _ _ => inject_Z 200000000 in
  CurrencyState.CalculateConversionFee exactKernel price 25000 20000 st 1000000000 false 0
  = Returns (CalculateConversionFee 25000 20000 1000000000)
  /\ (dec_to_int64 exactKernel (price st 0) = None ->
      CurrencyState.CalculateConversionFee exactKernel price 25000 20000 st 1000000000 true 0
      = Fails AssertionFailed)
  /\ (dec_to_int64 exactKernel (price st 0) = Some 0 ->
      CurrencyState.CalculateConversionFee exactKernel price 25000 20000 st 1000000000 true 0
      = Returns 20000)
  /\ (forall p,
         dec_to_int64 exactKernel (price st 0) = Some p ->
         0 < p <= INT64_MAX ->
         1000000000 * SATOSHIDEN / p * 25000 / SATOSHIDEN <= INT64_MAX ->
         CurrencyState.CalculateConversionFee exactKernel price 25000 20000 st 1000000000 true 0
         = Returns (Z.max 20000 (1000000000 * SATOSHIDEN / p * 25000 / SATOSHIDEN))).
Proof.
  apply (CurrencyState_CalculateConversionFee_cases exactKernel
           (fun _ _ => inject_Z 200000000) 25000 20000
           (mkCurrencyState 1 1 5%N [7%N] [SATOSHIDEN] [400000000] 0 0 400000000)
           1000000000 0).
  - unfold SATOSHIDEN. lia.
  - lia.
  - unfold INT64_MAX. lia.
Defined.

Section MoreEmissionFacts.

Variable FLAG_FRACTIONAL : Z.
Variable reserves_le_empty : list N -> list Z -> bool.
Variable shuffle : Z -> list Z -> list Z.

Local Abbreviation emit := (UpdateWithEmission FLAG_FRACTIONAL reserves_le_empty shuffle).

Lemma scaleWeights_length d ws t : length (scaleWeights d ws t).1 = length ws.
Proof.
  revert t. induction ws as [|w ws IH]; intros t; [reflexivity|].
  cbn [scaleWeights].
  destruct (scaleWeights d ws _) as [rest' total] eqn:Hrec.
  cbn [fst length]. f_equal.
  specialize (IH (int64 (t + U256.low64 (U256.mul d (U256.of64 w) / U256.of64 SATOSHIDEN)))).
  now rewrite Hrec in IH.
Qed.

Lemma subtractExtra_length ws extra : length (subtractExtra ws extra) = length ws.
Proof. unfold subtractExtra. apply length_imap. Qed.

(** X6: an emission that returns leaves version, flags, identifier,
    currencies and reserves as they were and keeps the number of weights;
    it records the former supply as the initial supply and the amount as
    emitted, and adds the amount to the supply (a negative supply is
    replaced by the amount) *)
Theorem UpdateWithEmission_frame st toEmit st' :
  in_int64 (supply st) ->
  emit st toEmit = Returns st' ->
  version st' = version st /\ flags st' = flags st /\ currencyID st' = currencyID st
  /\ currencies st' = currencies st /\ reserves st' = reserves st
  /\ length (weights st') = length (weights st)
  /\ initialSupply st' = supply st
  /\ emitted st' = toEmit
  /\ supply st' = if supply st <? 0 then toEmit else int64 (supply st + toEmit).
Proof.
  intros Hin. unfold UpdateWithEmission.
  destruct (negb (IsFractional FLAG_FRACTIONAL st) || (supply st <=? 0)
            || reserves_le_empty (currencies st) (reserves st)) eqn:Hguard.
  { destruct (supply st <? 0); intros Heq; apply Returns_inj in Heq; subst st';
      cbn; repeat split; reflexivity. }
  assert (Hpos : 0 < supply st).
  { apply orb_false_iff in Hguard. destruct Hguard as [Hguard _].
    apply orb_false_iff in Hguard. destruct Hguard as [_ Hle].
    apply Z.leb_gt in Hle. exact Hle. }
  destruct (Z.ltb_spec (supply st) 0) as [|_]; [lia|].
  destruct (Z.eqb_spec toEmit 0) as [-> | Hne].
  { intros Heq; apply Returns_inj in Heq; subst st'. cbn.
    rewrite Z.add_0_r, int64_id by assumption. repeat split; reflexivity. }
  destruct (newTotalRatio _ _ _) as [newRatio|f]; unfold outcome_bind; [|discriminate].
  match goal with
  | |- context [scaleWeights ?d ?ws ?t] =>
      pose proof (scaleWeights_length d ws t) as Hlen;
      destruct (scaleWeights d ws t) as [scaled total]
  end.
  cbn [fst snd] in *.
  destruct (_ =? 0).
  - intros Heq; apply Returns_inj in Heq; subst st'. cbn. repeat split; try reflexivity.
    exact Hlen.
  - unfold spreadExtra. destruct (_ =? 0); [discriminate|].
    intros Heq; apply Returns_inj in Heq; subst st'. cbn. repeat split; try reflexivity.
    rewrite subtractExtra_length. exact Hlen.
Qed.

(** *** The weights after an emission *)

Lemma sumZ_app l1 l2 : sumZ (l1 ++ l2) = sumZ l1 + sumZ l2.
Proof. induction l1 as [|x l1 IH]; cbn; [reflexivity|]. unfold sumZ in *. lia. Qed.

Lemma sumZ_Permutation l1 l2 : Permutation l1 l2 -> sumZ l1 = sumZ l2.
Proof.
  induction 1 as [|x l1 l2 _ IH|x y l|l1 l2 l3 _ IH1 _ IH2]; unfold sumZ in *; cbn; lia.
Qed.

Lemma sumZ_nonneg l : Forall (fun w => 0 <= w) l -> 0 <= sumZ l.
Proof. induction 1 as [|x l Hx _ IH]; unfold sumZ in *; cbn; lia. Qed.

Lemma sumZ_cons x l : sumZ (x :: l) = x + sumZ l.
Proof. reflexivity. Qed.

Lemma int_of_small x : 0 <= x <= INT64_MAX -> int64 x = x.
Proof. intros Hx. apply int64_id. unfold in_int64, INT64_MIN. lia. Qed.

Lemma fold_initial_ratio ws acc :
  Forall (fun w => 0 <= w) ws -> 0 <= acc -> acc + sumZ ws <= INT64_MAX ->
  fold_left (fun acc w => int64 (acc + w)) ws acc = acc + sumZ ws.
Proof.
  intros Hws. revert acc. induction Hws as [|w ws Hw Hws IH]; intros acc Hacc Hsum.
  - cbn. unfold sumZ. cbn. lia.
  - cbn [fold_left]. rewrite sumZ_cons in *.
    pose proof (sumZ_nonneg ws Hws).
    rewrite int_of_small by lia. rewrite IH by lia. lia.
Qed.

(** lines 3580-3600 without wrap-around: the new total ratio is the old one
    scaled by supply / (supply + emission), rounded to one of the two
    neighbouring integers *)
Lemma newTotalRatio_spec I s e :
  0 <= I <= SATOSHIDEN -> 0 < s <= INT64_MAX -> 0 < e <= INT64_MAX ->
  exists newRatio,
    newTotalRatio I s e = Returns newRatio
    /\ I * s / (s + e) <= newRatio <= I * s / (s + e) + 1
    /\ 0 <= newRatio <= I.
Proof.
  intros HI Hs He.
  assert (HS : SATOSHIDEN = 100000000) by reflexivity.
  assert (HM : INT64_MAX = 2 ^ 63 - 1) by reflexivity.
  unfold newTotalRatio.
  rewrite (of64_small I), (of64_small s), (of64_small e), (of64_small SATOSHIDEN) by lia.
  unfold U256.mul, U256.add.
  rewrite (norm_small (I * s))
    by (split; [nia|]; apply Z.le_lt_trans with (m := 2 ^ 63 * 2 ^ 63); [nia|reflexivity]).
  rewrite (norm_small (I * s * SATOSHIDEN))
    by (split; [nia|];
        apply Z.le_lt_trans with (m := 2 ^ 63 * 2 ^ 63 * 2 ^ 63); [nia|reflexivity]).
  rewrite (norm_small (s + e))
    by (split; [lia|]; apply Z.le_lt_trans with (m := 2 ^ 64); [lia|reflexivity]).
  unfold udiv, U256.div.
  destruct (Z.eqb_spec (s + e) 0) as [|_]; [lia|]. unfold outcome_bind.
  set (scratch := I * s * SATOSHIDEN / (s + e)).
  set (q := I * s / (s + e)).
  assert (Hq : scratch / SATOSHIDEN = q).
  { unfold scratch, q. rewrite Z.div_div by lia.
    rewrite Z.div_mul_cancel_r by lia. reflexivity. }
  assert (Hq0 : 0 <= q) by (apply Z.div_pos; nia).
  assert (HqI : q <= I /\ (0 < I -> q < I)).
  { unfold q. split.
    - apply Z.div_le_upper_bound; [lia|]. nia.
    - intros HIpos. apply Z.div_lt_upper_bound; [lia|]. nia. }
  assert (Hscr0 : 0 <= scratch) by (apply Z.div_pos; nia).
  rewrite Hq.
  assert (Hcap : (SATOSHIDEN <=? q) = false).
  { apply Z.leb_gt. destruct (Z.eq_dec I 0) as [-> | Hne].
    - unfold q. cbn. lia.
    - lia. }
  rewrite Hcap.
  rewrite (low64_small q) by lia.
  eexists. split; [reflexivity|].
  destruct (Z.eq_dec I 0) as [HI0 | Hne].
  - (* with a zero ratio there is no remainder to round up *)
    assert (Hs0 : scratch = 0) by (unfold scratch; rewrite HI0; reflexivity).
    assert (Hq00 : q = 0) by (unfold q; rewrite HI0; reflexivity).
    rewrite Hs0, Hq00.
    match goal with
    | |- context [if ?b then _ else _] => replace b with false by (vm_compute; reflexivity)
    end.
    lia.
  - destruct (_ || _).
    + rewrite int_of_small by lia. lia.
    + lia.
Qed.

(** lines 3609-3614 without wrap-around: every weight gives up its share
    [delta * weight / SATOSHIDEN] of the decrease *)
Lemma scaleWeights_spec delta ws t :
  0 <= delta <= SATOSHIDEN ->
  Forall (fun w => 0 <= w) ws -> sumZ ws <= SATOSHIDEN ->
  0 <= t -> t + sumZ ws <= INT64_MAX ->
  let r := scaleWeights (U256.of64 delta) ws t in
  sumZ r.1 + (r.2 - t) = sumZ ws
  /\ t <= r.2
  /\ (r.2 - t) * SATOSHIDEN <= delta * sumZ ws
  /\ Forall (fun w => 0 <= w <= SATOSHIDEN) r.1.
Proof.
  intros Hd Hws. revert t.
  assert (HS : SATOSHIDEN = 100000000) by reflexivity.
  assert (HM : INT64_MAX = 2 ^ 63 - 1) by reflexivity.
  assert (H32 : INT32_MAX = 2 ^ 31 - 1) by reflexivity.
  induction Hws as [|w ws Hw Hws IH]; intros t Hsum Ht Hfit.
  - cbn. unfold sumZ. cbn. repeat split; try lia. constructor.
  - rewrite sumZ_cons in *. pose proof (sumZ_nonneg ws Hws) as Hnn.
    cbn [scaleWeights].
    rewrite (of64_small delta), (of64_small w), (of64_small SATOSHIDEN) by lia.
    unfold U256.mul.
    rewrite (norm_small (delta * w))
      by (split; [nia|]; apply Z.le_lt_trans with (m := 2 ^ 63 * 2 ^ 63); [nia|reflexivity]).
    set (wd := delta * w / SATOSHIDEN).
    assert (Hwd : 0 <= wd /\ wd <= w /\ wd * SATOSHIDEN <= delta * w).
    { unfold wd. split; [apply Z.div_pos; nia|]. split.
      - apply Z.div_le_upper_bound; [lia|]. nia.
      - pose proof (Z.mul_div_le (delta * w) SATOSHIDEN ltac:(lia)). lia. }
    rewrite (low64_small wd) by lia.
    rewrite (int_of_small (t + wd)) by lia.
    specialize (IH (t + wd) ltac:(lia) ltac:(lia) ltac:(lia)).
    destruct (scaleWeights (delta) ws (t + wd)) as [rest' total] eqn:Hrec.
    rewrite (of64_small delta) in IH by lia. rewrite Hrec in IH.
    cbn [fst snd] in *. destruct IH as (IH1 & IH2 & IH3 & IH4).
    rewrite sumZ_cons.
    rewrite int32_id by lia.
    repeat split; try lia.
    constructor; [lia|assumption].
Qed.

(** lines 3628-3636: the extra weight per currency *)
Lemma fillExtra_spec n forAll forSome :
  0 <= forAll -> forAll + 1 <= INT64_MAX ->
  0 <= forSome <= Z.of_nat n -> forSome <= INT64_MAX ->
  sumZ (fillExtra n forAll forSome) = Z.of_nat n * forAll + forSome
  /\ length (fillExtra n forAll forSome) = n
  /\ Forall (fun x => forAll <= x <= forAll + 1) (fillExtra n forAll forSome).
Proof.
  intros Ha Hfit. revert forSome.
  assert (HM : INT64_MAX = 2 ^ 63 - 1) by reflexivity.
  induction n as [|n IH]; intros forSome Hs Hs'.
  - cbn. unfold sumZ. cbn. repeat split; try lia. constructor.
  - cbn [fillExtra]. destruct (Z.eqb_spec forSome 0) as [-> | Hne].
    + destruct (IH 0 ltac:(lia) ltac:(lia)) as (IH1 & IH2 & IH3).
      rewrite sumZ_cons, IH1. cbn [length]. rewrite IH2.
      repeat split; try lia. constructor; [lia|assumption].
    + rewrite (int_of_small (forAll + 1)) by lia.
      rewrite (int_of_small (forSome - 1)) by lia.
      destruct (IH (forSome - 1) ltac:(lia) ltac:(lia)) as (IH1 & IH2 & IH3).
      rewrite sumZ_cons, IH1. cbn [length]. rewrite IH2.
      repeat split; try lia. constructor; [lia|assumption].
Qed.

(** lines 3639-3642: subtracting the extra weights *)
Lemma subtractExtra_sum ws extra :
  length extra = length ws ->
  Forall (fun w => 0 <= w <= SATOSHIDEN) ws ->
  Forall (fun x => 0 <= x <= SATOSHIDEN + 1) extra ->
  sumZ (subtractExtra ws extra) = sumZ ws - sumZ extra.
Proof.
  assert (HS : SATOSHIDEN = 100000000) by reflexivity.
  assert (H32 : INT32_MAX = 2 ^ 31 - 1) by reflexivity.
  unfold subtractExtra. revert extra.
  induction ws as [|w ws IH]; intros extra Hlen Hws Hex.
  - destruct extra; [reflexivity|discriminate].
  - destruct extra as [|x extra]; [discriminate|].
    apply Forall_cons_1 in Hws. destruct Hws as [Hw Hws].
    apply Forall_cons_1 in Hex. destruct Hex as [Hx Hex].
    cbn [imap]. rewrite !sumZ_cons.
    change (at_ (x :: extra) 0) with x.
    rewrite int32_id by lia.
    rewrite (imap_ext _ (fun i w => int32 (w - at_ extra i)))
      by (intros i y _; reflexivity).
    rewrite IH; [lia| |assumption|assumption].
    cbn in Hlen. lia.
Qed.

(** X7: after an emission into a fractional currency the weights add up to
    the new total ratio, which is the old total scaled by
    supply / (supply + emission) and rounded to a neighbouring integer *)
Theorem UpdateWithEmission_weights_total st toEmit :
  (forall s l, Permutation (shuffle s l) l) ->
  IsFractional FLAG_FRACTIONAL st = true ->
  reserves_le_empty (currencies st) (reserves st) = false ->
  length (weights st) = length (currencies st) ->
  Forall (fun w => 0 <= w) (weights st) -> sumZ (weights st) <= SATOSHIDEN ->
  0 < supply st <= INT64_MAX -> 0 < toEmit <= INT64_MAX ->
  exists st',
    emit st toEmit = Returns st'
    /\ newTotalRatio (sumZ (weights st)) (supply st) toEmit = Returns (sumZ (weights st'))
    /\ sumZ (weights st) * supply st / (supply st + toEmit) <= sumZ (weights st')
       <= sumZ (weights st) * supply st / (supply st + toEmit) + 1
    /\ sumZ (weights st') <= sumZ (weights st).
Proof.
  intros Hperm Hfrac Hle Hlen Hws Hsum Hs He.
  assert (HS : SATOSHIDEN = 100000000) by reflexivity.
  assert (HM : INT64_MAX = 2 ^ 63 - 1) by reflexivity.
  pose proof (sumZ_nonneg _ Hws) as Hnn.
  unfold UpdateWithEmission. rewrite Hfrac, Hle.
  destruct (Z.leb_spec (supply st) 0) as [|_]; [lia|]. cbn [negb orb].
  destruct (Z.eqb_spec toEmit 0) as [|_]; [lia|].
  rewrite (fold_initial_ratio (weights st) 0) by (try assumption; lia).
  rewrite Z.add_0_l.
  destruct (newTotalRatio_spec (sumZ (weights st)) (supply st) toEmit ltac:(lia) Hs He)
    as (newRatio & Hnew & Hround & Hrange).
  rewrite Hnew. unfold outcome_bind at 1.
  set (delta := sumZ (weights st) - newRatio).
  rewrite (int_of_small delta) by (unfold delta; lia).
  pose proof (scaleWeights_spec delta (weights st) 0 ltac:(unfold delta; lia) Hws Hsum
                ltac:(lia) ltac:(lia)) as Hscale.
  destruct (scaleWeights (U256.of64 delta) (weights st) 0) as [scaled total] eqn:Hsc.
  pose proof (scaleWeights_length (U256.of64 delta) (weights st) 0) as Hsl.
  rewrite Hsc in Hsl.
  cbn [fst snd] in *. destruct Hscale as (Hs1 & Hs2 & Hs3 & Hs4).
  assert (Htot : total <= delta) by (unfold delta in *; nia).
  rewrite (int_of_small (delta - total)) by lia.
  destruct (Z.eqb_spec (delta - total) 0) as [H0 | Hne].
  - unfold outcome_bind. eexists. split; [reflexivity|]. cbn [weights].
    replace (sumZ scaled) with newRatio by (unfold delta in *; lia).
    repeat split; try assumption; lia.
  - unfold spreadExtra.
    set (n := length (currencies st)) in *.
    assert (Hn : 0 < Z.of_nat n).
    { destruct n as [|n]; [|lia]. exfalso.
      destruct (weights st); [|discriminate]. unfold sumZ in *. cbn in *. lia. }
    destruct (Z.eqb_spec (Z.of_nat n) 0) as [|_]; [lia|].
    set (ue := delta - total) in *.
    rewrite (uint64_id ue) by lia.
    assert (Hq : 0 <= ue / Z.of_nat n <= ue).
    { split; [apply Z.div_pos; lia|]. apply Z.div_le_upper_bound; [lia|]. nia. }
    pose proof (Z.mod_pos_bound ue (Z.of_nat n) Hn) as Hr.
    pose proof (Z.mod_le ue (Z.of_nat n) ltac:(lia) Hn) as Hr'.
    rewrite (int_of_small (ue / Z.of_nat n)) by lia.
    rewrite (int_of_small (ue mod Z.of_nat n)) by lia.
    destruct (fillExtra_spec n (ue / Z.of_nat n) (ue mod Z.of_nat n)
                ltac:(lia) ltac:(lia) ltac:(lia) ltac:(lia)) as (Hf1 & Hf2 & Hf3).
    set (extra := shuffle _ (fillExtra n (ue / Z.of_nat n) (ue mod Z.of_nat n))).
    assert (Hpe : Permutation extra (fillExtra n (ue / Z.of_nat n) (ue mod Z.of_nat n)))
      by apply Hperm.
    unfold outcome_bind. eexists. split; [reflexivity|]. cbn [weights].
    rewrite subtractExtra_sum.
    + rewrite (sumZ_Permutation _ _ Hpe), Hf1.
      pose proof (Z.div_mod ue (Z.of_nat n) ltac:(lia)) as Hdm.
      replace (sumZ scaled - (Z.of_nat n * (ue / Z.of_nat n) + ue mod Z.of_nat n))
        with newRatio by (unfold ue, delta in *; lia).
      repeat split; try assumption; lia.
    + rewrite (Permutation_length Hpe), Hf2, Hsl. symmetry. exact Hlen.
    + exact Hs4.
    + apply (Permutation_Forall (Permutation_sym Hpe)).
      eapply Forall_impl; [exact Hf3|]. cbn. intros x Hx. unfold ue, delta in *. lia.
Qed.

End MoreEmissionFacts.

Lemma UpdateWithEmission_frame_witness :
  let st := mkCurrencyState 1 1 5%N [7%N; 8%N] [40000000; 10000000] [100000000; 100000000]
                            0 0 100000000 in
  let st' := mkCurrencyState 1 1 5%N [7%N; 8%N] [23750000; 1250000] [100000000; 100000000]
                             100000000 100000000 200000000 in
  version st' = version st /\ flags st' = flags st /\ currencyID st' = currencyID st
  /\ currencies st' = currencies st /\ reserves st' = reserves st
  /\ length (weights st') = length (weights st)
  /\ initialSupply st' = supply st
  /\ emitted st' = 100000000
  /\ supply st' = if supply st <? 0 then 100000000 else int64 (supply st + 100000000).
Proof.
  apply (UpdateWithEmission_frame 1 noPositiveReserve keepOrder
           (mkCurrencyState 1 1 5%N [7%N; 8%N] [40000000; 10000000] [100000000; 100000000]
                            0 0 100000000) 100000000).
  - vm_compute. split; discriminate.
  - vm_compute. reflexivity.
Defined.

Lemma UpdateWithEmission_weights_total_witness :
  let st := mkCurrencyState 1 1 5%N [7%N; 8%N] [40000000; 10000000] [100000000; 100000000]
                            0 0 100000000 in
  exists st',
    UpdateWithEmission 1 noPositiveReserve keepOrder st 100000000 = Returns st'
    /\ newTotalRatio (sumZ (weights st)) (supply st) 100000000 = Returns (sumZ (weights st'))
    /\ sumZ (weights st) * supply st / (supply st + 100000000) <= sumZ (weights st')
       <= sumZ (weights st) * supply st / (supply st + 100000000) + 1
    /\ sumZ (weights st') <= sumZ (weights st).
Proof.
  apply (UpdateWithEmission_weights_total 1 noPositiveReserve keepOrder
           (mkCurrencyState 1 1 5%N [7%N; 8%N] [40000000; 10000000] [100000000; 100000000]
                            0 0 100000000) 100000000).
  - intros s l. apply Permutation_refl.
  - reflexivity.
  - reflexivity.
  - reflexivity.
  - repeat constructor; lia.
  - vm_compute. discriminate.
  - simpl. unfold INT64_MAX. lia.
  - unfold INT64_MAX. lia.
Defined.

Section LedgerViewFacts.

Variable ASSETCHAINS_CHAINID : N.
Variable IS_RESERVE : Z.
Variable H : PriceHelpers.
Variable systemOf : N -> N.

(** a loop that writes, for every key of a map, at most that key of the
    result *)
Lemma own_key_fold {A} (g : N -> A -> option Z) (m : gmap N A) k :
  map_fold (fun cur a acc => match g cur a with
                             | Some v => <[cur := v]> acc
                             | None => acc
                             end) (∅ : gmap N Z) m !! k
  = m !! k ≫= g k.
Proof.
  revert k.
  apply (map_fold_weak_ind (fun (r : gmap N Z) m => forall k, r !! k = m !! k ≫= g k)).
  - intros k. now rewrite !lookup_empty.
  - intros i x m' r Hi IH k.
    destruct (decide (i = k)) as [-> | Hne].
    + rewrite lookup_insert_eq. cbn.
      destruct (g k x); [now rewrite lookup_insert_eq|].
      rewrite IH, Hi. reflexivity.
    + rewrite (lookup_insert_ne m') by assumption.
      destruct (g i x); [rewrite lookup_insert_ne by assumption|]; apply IH.
Qed.

Lemma own_key_fold_ext {A} (f : N -> A -> gmap N Z -> gmap N Z) (g : N -> A -> option Z)
      (m : gmap N A) k :
  (forall cur a acc, f cur a acc = match g cur a with
                                  | Some v => <[cur := v]> acc
                                  | None => acc
                                  end) ->
  map_fold f ∅ m !! k = m !! k ≫= g k.
Proof.
  intros Hf. rewrite <- own_key_fold. f_equal.
  apply (map_fold_weak_ind
           (fun r m => r = map_fold (fun cur a acc => match g cur a with
                                                      | Some v => <[cur := v]> acc
                                                      | None => acc
                                                      end) ∅ m)).
  - now rewrite map_fold_empty.
  - intros i x m' r Hi ->. rewrite Hf.
    symmetry. rewrite map_fold_insert_L; [reflexivity| |assumption].
    intros j1 j2 z1 z2 y Hne _ _.
    destruct (g j1 z1), (g j2 z2); try reflexivity.
    apply insert_insert_ne. congruence.
Qed.

Lemma inOuts_lookup l k io : ledger_currencies l !! k = Some io -> inOuts l k = io.
Proof. unfold inOuts. now intros ->. Qed.

Lemma inOuts_missing l k : ledger_currencies l !! k = None -> inOuts l k = noInOuts.
Proof. unfold inOuts. now intros ->. Qed.

(** *** Reserve fees *)

Lemma ReserveFees_lookup l nativeID k :
  ReserveFees ASSETCHAINS_CHAINID l nativeID !! k
  = ledger_currencies l !! k ≫= fun io =>
      if bool_decide (k = nativeOrChain ASSETCHAINS_CHAINID nativeID) then None
      else
        let oneFee := int64 (reserveIn io - int64 (reserveOut io - reserveOutConverted io)) in
        if nonzero oneFee then Some oneFee else None.
Proof.
  unfold ReserveFees.
  etrans.
  { apply (own_key_fold_ext _
           (fun cur io =>
              if bool_decide (cur = nativeOrChain ASSETCHAINS_CHAINID nativeID) then None
              else
                let oneFee :=
                  int64 (reserveIn io - int64 (reserveOut io - reserveOutConverted io)) in
                if nonzero oneFee then Some oneFee else None)).
    intros cur io acc. destruct (bool_decide _); [reflexivity|]. cbn.
  destruct (nonzero _); reflexivity. }
  reflexivity.
Qed.

Lemma ReserveFees_get l nativeID k :
  ValueMap.get (ReserveFees ASSETCHAINS_CHAINID l nativeID) k
  = if decide (k = nativeOrChain ASSETCHAINS_CHAINID nativeID) then 0
    else int64 (reserveIn (inOuts l k)
                - int64 (reserveOut (inOuts l k) - reserveOutConverted (inOuts l k))).
Proof.
  unfold ValueMap.get. rewrite ReserveFees_lookup.
  destruct (ledger_currencies l !! k) as [io|] eqn:Hk; cbn.
  - rewrite (inOuts_lookup _ _ _ Hk).
    destruct (decide (k = _)) as [Heq | Hne].
    + rewrite bool_decide_eq_true_2 by assumption. reflexivity.
    + rewrite bool_decide_eq_false_2 by assumption.
      unfold nonzero. destruct (Z.eqb_spec (int64 (reserveIn io
                                 - int64 (reserveOut io - reserveOutConverted io))) 0) as [-> | _];
        reflexivity.
  - rewrite (inOuts_missing _ _ Hk). destruct (decide _); reflexivity.
Qed.

(** X8: the fee in a reserve currency is what came in minus what went out
    unconverted; the native currency has no entry and a zero fee is not
    stored *)
Theorem ReserveFees_spec l nativeID :
  (forall k,
      ValueMap.get (ReserveFees ASSETCHAINS_CHAINID l nativeID) k
      = if decide (k = nativeOrChain ASSETCHAINS_CHAINID nativeID) then 0
        else int64 (reserveIn (inOuts l k)
                    - int64 (reserveOut (inOuts l k) - reserveOutConverted (inOuts l k))))
  /\ (forall k v,
         ReserveFees ASSETCHAINS_CHAINID l nativeID !! k = Some v ->
         v <> 0 /\ k <> nativeOrChain ASSETCHAINS_CHAINID nativeID
         /\ is_Some (ledger_currencies l !! k)).
Proof.
  split; [intros k; apply ReserveFees_get|].
  intros k v. rewrite ReserveFees_lookup.
  destruct (ledger_currencies l !! k) as [io|] eqn:Hk; cbn; [|discriminate].
  destruct (bool_decide_reflect (k = nativeOrChain ASSETCHAINS_CHAINID nativeID));
    [discriminate|].
  unfold nonzero.
  destruct (Z.eqb_spec (int64 (reserveIn io
                               - int64 (reserveOut io - reserveOutConverted io))) 0);
    cbn; [discriminate|].
  intros [= <-]. repeat split; [assumption|assumption|eauto].
Qed.

(** *** The five maps *)

Lemma ReserveInputMap_lookup l nativeID k :
  ReserveInputMap ASSETCHAINS_CHAINID l nativeID !! k
  = ledger_currencies l !! k ≫= fun io =>
      if nonzero (nativeOutConverted io) then Some (nativeOutConverted io)
      else if negb (bool_decide (k = nativeOrChain ASSETCHAINS_CHAINID nativeID))
              && nonzero (reserveIn io)
           then Some (reserveIn io) else None.
Proof.
  unfold ReserveInputMap.
  etrans.
  { apply (own_key_fold_ext _
           (fun cur io =>
              if nonzero (nativeOutConverted io) then Some (nativeOutConverted io)
              else if negb (bool_decide (cur = nativeOrChain ASSETCHAINS_CHAINID nativeID))
                      && nonzero (reserveIn io)
                   then Some (reserveIn io) else None)).
    intros cur io acc. unfold ValueMap.set.
  destruct (nonzero (nativeOutConverted io)), (_ && _); try reflexivity.
  apply insert_insert_eq. }
  reflexivity.
Qed.

Lemma ReserveOutputMap_lookup l nativeID k :
  ReserveOutputMap ASSETCHAINS_CHAINID l nativeID !! k
  = ledger_currencies l !! k ≫= fun io =>
      if negb (bool_decide (k = nativeOrChain ASSETCHAINS_CHAINID nativeID))
         && nonzero (reserveOut io)
      then Some (reserveOut io) else None.
Proof.
  unfold ReserveOutputMap.
  etrans.
  { apply (own_key_fold_ext _
           (fun cur io =>
              if negb (bool_decide (cur = nativeOrChain ASSETCHAINS_CHAINID nativeID))
                 && nonzero (reserveOut io)
              then Some (reserveOut io) else None)).
    intros cur io acc. destruct (_ && _); reflexivity. }
  reflexivity.
Qed.

Lemma ReserveOutConvertedMap_lookup l nativeID k :
  ReserveOutConvertedMap ASSETCHAINS_CHAINID l nativeID !! k
  = ledger_currencies l !! k ≫= fun io =>
      if negb (bool_decide (k = nativeOrChain ASSETCHAINS_CHAINID nativeID))
         && nonzero (reserveOutConverted io)
      then Some (reserveOutConverted io) else None.
Proof.
  unfold ReserveOutConvertedMap.
  etrans.
  { apply (own_key_fold_ext _
           (fun cur io =>
              if negb (bool_decide (cur = nativeOrChain ASSETCHAINS_CHAINID nativeID))
                 && nonzero (reserveOutConverted io)
              then Some (reserveOutConverted io) else None)).
    intros cur io acc. destruct (_ && _); reflexivity. }
  reflexivity.
Qed.

Lemma NativeOutConvertedMap_lookup l k :
  NativeOutConvertedMap l !! k
  = ledger_currencies l !! k ≫= fun io =>
      if nonzero (nativeOutConverted io) then Some (nativeOutConverted io) else None.
Proof.
  unfold NativeOutConvertedMap.
  etrans.
  { apply (own_key_fold_ext _
           (fun cur io =>
              if nonzero (nativeOutConverted io) then Some (nativeOutConverted io) else None)).
    intros cur io acc. destruct (nonzero _); reflexivity. }
  reflexivity.
Qed.

Lemma ReserveConversionFeesMap_lookup l k :
  ReserveConversionFeesMap l !! k
  = ledger_currencies l !! k ≫= fun io =>
      if nonzero (reserveConversionFees io) then Some (reserveConversionFees io) else None.
Proof.
  unfold ReserveConversionFeesMap.
  etrans.
  { apply (own_key_fold_ext _
           (fun cur io =>
              if nonzero (reserveConversionFees io)
              then Some (reserveConversionFees io) else None)).
    intros cur io acc. destruct (nonzero _); reflexivity. }
  reflexivity.
Qed.

(** the cases of a field being zero and of the currency being the native one *)
Ltac ledger_field_cases :=
  unfold nonzero;
  repeat match goal with
         | |- context [?x =? 0] => destruct (Z.eqb_spec x 0); cbn
         end;
  repeat match goal with
         | |- context [decide (?x = 0)] => destruct (decide (x = 0)); cbn
         end; congruence.

Lemma ledger_maps_get l nativeID k :
  let native := nativeOrChain ASSETCHAINS_CHAINID nativeID in
  ValueMap.get (ReserveOutputMap ASSETCHAINS_CHAINID l nativeID) k
  = (if decide (k = native) then 0 else reserveOut (inOuts l k))
  /\ ValueMap.get (ReserveOutConvertedMap ASSETCHAINS_CHAINID l nativeID) k
     = (if decide (k = native) then 0 else reserveOutConverted (inOuts l k))
  /\ ValueMap.get (ReserveInputMap ASSETCHAINS_CHAINID l nativeID) k
     = (if decide (nativeOutConverted (inOuts l k) = 0)
        then if decide (k = native) then 0 else reserveIn (inOuts l k)
        else nativeOutConverted (inOuts l k)).
Proof.
  intros native. unfold ValueMap.get.
  rewrite ReserveOutputMap_lookup, ReserveOutConvertedMap_lookup, ReserveInputMap_lookup.
  fold native.
  destruct (ledger_currencies l !! k) as [io|] eqn:Hk; cbn.
  - rewrite (inOuts_lookup _ _ _ Hk).
    destruct (decide (k = native)) as [Heq | Hne].
    + rewrite bool_decide_eq_true_2 by assumption. cbn.
      repeat split; ledger_field_cases.
    + rewrite bool_decide_eq_false_2 by assumption. cbn.
      repeat split; ledger_field_cases.
  - rewrite (inOuts_missing _ _ Hk). cbn. destruct (decide (k = native)); repeat split.
Qed.

(** X9: read as amounts (a missing entry counting as zero) the maps of
    outputs, converted outputs, converted native outputs and conversion
    fees return the ledger's fields, the first two with the native
    currency left out; in the map of inputs an amount converted to native
    takes the place of the reserve input *)
Theorem ledger_maps_read_fields l nativeID k :
  let native := nativeOrChain ASSETCHAINS_CHAINID nativeID in
  ValueMap.get (ReserveOutputMap ASSETCHAINS_CHAINID l nativeID) k
  = (if decide (k = native) then 0 else reserveOut (inOuts l k))
  /\ ValueMap.get (ReserveOutConvertedMap ASSETCHAINS_CHAINID l nativeID) k
     = (if decide (k = native) then 0 else reserveOutConverted (inOuts l k))
  /\ ValueMap.get (NativeOutConvertedMap l) k = nativeOutConverted (inOuts l k)
  /\ ValueMap.get (ReserveConversionFeesMap l) k = reserveConversionFees (inOuts l k)
  /\ ValueMap.get (ReserveInputMap ASSETCHAINS_CHAINID l nativeID) k
     = (if decide (nativeOutConverted (inOuts l k) = 0)
        then if decide (k = native) then 0 else reserveIn (inOuts l k)
        else nativeOutConverted (inOuts l k)).
Proof.
  intros native.
  destruct (ledger_maps_get l nativeID k) as (Ho & Hoc & Hi). fold native in Ho, Hoc, Hi.
  split; [exact Ho|]. split; [exact Hoc|]. split; [|split; [|exact Hi]].
  - unfold ValueMap.get. rewrite NativeOutConvertedMap_lookup.
    destruct (ledger_currencies l !! k) as [io|] eqn:Hk; cbn.
    + rewrite (inOuts_lookup _ _ _ Hk). ledger_field_cases.
    + now rewrite (inOuts_missing _ _ Hk).
  - unfold ValueMap.get. rewrite ReserveConversionFeesMap_lookup.
    destruct (ledger_currencies l !! k) as [io|] eqn:Hk; cbn.
    + rewrite (inOuts_lookup _ _ _ Hk). ledger_field_cases.
    + now rewrite (inOuts_missing _ _ Hk).
Qed.

(** X10: when nothing of a currency was converted to native, its reserve fee
    is its entry of the input map less the unconverted part of its entry
    of the output map *)
Theorem ReserveFees_from_maps l nativeID k :
  k <> nativeOrChain ASSETCHAINS_CHAINID nativeID ->
  nativeOutConverted (inOuts l k) = 0 ->
  ValueMap.get (ReserveFees ASSETCHAINS_CHAINID l nativeID) k
  = int64 (ValueMap.get (ReserveInputMap ASSETCHAINS_CHAINID l nativeID) k
           - int64 (ValueMap.get (ReserveOutputMap ASSETCHAINS_CHAINID l nativeID) k
                    - ValueMap.get (ReserveOutConvertedMap ASSETCHAINS_CHAINID l nativeID) k)).
Proof.
  intros Hne Hnat.
  rewrite ReserveFees_get.
  destruct (ledger_maps_get l nativeID k) as (Ho & Hoc & Hi).
  rewrite Ho, Hoc, Hi, Hnat.
  destruct (decide (k = _)); [contradiction|].
  destruct (decide (0 = 0)); [reflexivity|contradiction].
Qed.

(** *** Outputs added from a value map *)

Lemma inOuts_withInOuts l c io k :
  inOuts (withInOuts l c io) k = if decide (k = c) then io else inOuts l k.
Proof.
  unfold inOuts, withInOuts. cbn.
  destruct (decide (k = c)) as [-> | Hne].
  - now rewrite lookup_insert_eq.
  - now rewrite lookup_insert_ne by congruence.
Qed.

Lemma addOutputs_inOuts values l :
  nativeIn (addOutputs ASSETCHAINS_CHAINID values l) = nativeIn l
  /\ nativeOut (addOutputs ASSETCHAINS_CHAINID values l) = nativeOut l
  /\ forall k,
      inOuts (addOutputs ASSETCHAINS_CHAINID values l) k
      = let io := inOuts l k in
        match values !! k with
        | Some v =>
            if negb (bool_decide (k = ASSETCHAINS_CHAINID)) && nonzero v
            then mkInOuts (reserveIn io) (int64 (reserveOut io + v)) (reserveOutConverted io)
                          (nativeOutConverted io) (reserveConversionFees io)
            else io
        | None => io
        end.
Proof.
  unfold addOutputs.
  apply (map_fold_weak_ind
           (fun r (m : gmap N Z) =>
              nativeIn r = nativeIn l /\ nativeOut r = nativeOut l
              /\ forall k,
                  inOuts r k
                  = let io := inOuts l k in
                    match m !! k with
                    | Some v =>
                        if negb (bool_decide (k = ASSETCHAINS_CHAINID)) && nonzero v
                        then mkInOuts (reserveIn io) (int64 (reserveOut io + v))
                                      (reserveOutConverted io)
                                      (nativeOutConverted io) (reserveConversionFees io)
                        else io
                    | None => io
                    end)).
  - split; [reflexivity|]. split; [reflexivity|]. intros k. now rewrite lookup_empty.
  - intros i x m r Hi (Hin & Hout & IH).
    destruct (negb (bool_decide (i = ASSETCHAINS_CHAINID)) && nonzero x) eqn:Hcond.
    + split; [assumption|]. split; [assumption|]. intros k. unfold AddReserveOutput.
      rewrite inOuts_withInOuts. destruct (decide (k = i)) as [-> | Hne].
      * rewrite lookup_insert_eq, Hcond. rewrite IH, Hi. reflexivity.
      * rewrite lookup_insert_ne by congruence. apply IH.
    + split; [assumption|]. split; [assumption|]. intros k.
      destruct (decide (k = i)) as [-> | Hne].
      * rewrite lookup_insert_eq, Hcond. rewrite IH, Hi. reflexivity.
      * rewrite lookup_insert_ne by congruence. apply IH.
Qed.

(** X11: the outputs that [AddReserveOutput(const CTokenOutput &)] and
    [AddReserveTransfer] add are read back by [ReserveOutputMap()]: every
    currency but the chain's own shows its former output plus the amount
    carried, and the descriptor is flagged as a reserve transaction *)
Theorem AddReserveOutput_read_back values (rt : CReserveTransfer) d k :
  in_int64 (reserveOut (inOuts (desc_ledger d) k)) ->
  let d' := AddReserveOutput_CTokenOutput ASSETCHAINS_CHAINID IS_RESERVE values d in
  ValueMap.get (ReserveOutputMap ASSETCHAINS_CHAINID (desc_ledger d') 0) k
  = (if decide (k = ASSETCHAINS_CHAINID) then 0
     else int64 (ValueMap.get (ReserveOutputMap ASSETCHAINS_CHAINID (desc_ledger d) 0) k
                 + ValueMap.get values k))
  /\ Z.land (desc_flags d') IS_RESERVE = IS_RESERVE
  /\ AddReserveTransfer ASSETCHAINS_CHAINID IS_RESERVE rt d
     = AddReserveOutput_CTokenOutput ASSETCHAINS_CHAINID IS_RESERVE (reserveValues rt) d.
Proof.
  intros Hin d'. split; [|split].
  - destruct (ledger_maps_get (desc_ledger d') 0 k) as (-> & _).
    destruct (ledger_maps_get (desc_ledger d) 0 k) as (-> & _).
    change (nativeOrChain ASSETCHAINS_CHAINID 0) with ASSETCHAINS_CHAINID.
    destruct (decide (k = ASSETCHAINS_CHAINID)) as [Heq | Hne]; [reflexivity|].
    subst d'. cbn [desc_ledger AddReserveOutput_CTokenOutput].
    destruct (addOutputs_inOuts values (desc_ledger d)) as (_ & _ & ->). cbn zeta.
    unfold ValueMap.get. rewrite bool_decide_eq_false_2 by assumption. cbn [negb andb].
    destruct (values !! k) as [v|]; cbn [default].
    + unfold nonzero. destruct (Z.eqb_spec v 0) as [-> | _]; cbn [negb reserveOut].
      * rewrite Z.add_0_r, int64_id by assumption. reflexivity.
      * reflexivity.
    + rewrite Z.add_0_r, int64_id by assumption. reflexivity.
  - subst d'. cbn. apply Z.bits_inj'. intros n Hn.
    rewrite Z.land_spec, Z.lor_spec. destruct (Z.testbit IS_RESERVE n); [|apply andb_false_r].
    now rewrite orb_true_r.
  - reflexivity.
Qed.

(** *** All fees in one currency *)

Lemma fold_left_ext_in {A B} (f g : A -> B -> A) (l : list B) a :
  (forall a x, x ∈ l -> f a x = g a x) -> fold_left f l a = fold_left g l a.
Proof.
  revert a. induction l as [|x l IH]; intros a Hfg; [reflexivity|].
  cbn. rewrite Hfg by apply list_elem_of_here.
  apply IH. intros a' y Hy. apply Hfg. now apply list_elem_of_further.
Qed.

(** X12: a ledger entry for a currency that is not a reserve of the state,
    or for the chain's own currency, does not count in [AllFeesAsNative] *)
Theorem AllFeesAsNative_foreign l st c io :
  c ∉ currencies st \/ c = ASSETCHAINS_CHAINID ->
  AllFeesAsNative ASSETCHAINS_CHAINID H (withInOuts l c io) st
  = AllFeesAsNative ASSETCHAINS_CHAINID H l st.
Proof.
  intros Hc. unfold AllFeesAsNative.
  change (NativeFees (withInOuts l c io)) with (NativeFees l).
  apply fold_left_ext_in. intros a i Hi.
  apply list_elem_of_In, in_seq in Hi.
  rewrite !ReserveFees_lookup. cbn [withInOuts ledger_currencies].
  change (nativeOrChain ASSETCHAINS_CHAINID 0) with ASSETCHAINS_CHAINID.
  destruct (decide (currencyAt st i = c)) as [Heq | Hne].
  - destruct Hc as [Hnot | ->].
    + exfalso. apply Hnot. rewrite <- Heq. unfold currencyAt.
      destruct (lookup_lt_is_Some_2 (currencies st) i ltac:(lia)) as [x Hx].
      rewrite Hx. cbn. eapply list_elem_of_lookup_2. exact Hx.
    + rewrite Heq, lookup_insert_eq. cbn.
      rewrite bool_decide_eq_true_2 by reflexivity.
      destruct (ledger_currencies l !! ASSETCHAINS_CHAINID); reflexivity.
  - rewrite lookup_insert_ne by congruence. reflexivity.
Qed.

(** X13: [AllFeesAsReserve] returns the reserve fees with one entry
    replaced, that of the default reserve: when the ledger shows a fee in
    that reserve the native fees are converted to the reserve and added to
    it, and when it shows none the entry holds the native fees as they
    are, unconverted *)
Theorem AllFeesAsReserve_entries l st defaultReserve cur :
  currencies st !! defaultReserve = Some cur ->
  let fee := if decide (cur = ASSETCHAINS_CHAINID) then 0
             else int64 (reserveIn (inOuts l cur)
                         - int64 (reserveOut (inOuts l cur)
                                  - reserveOutConverted (inOuts l cur))) in
  exists fees,
    AllFeesAsReserve ASSETCHAINS_CHAINID H l st defaultReserve = Returns fees
    /\ (forall k, k <> cur -> fees !! k = ReserveFees ASSETCHAINS_CHAINID l 0 !! k)
    /\ fees !! cur
       = Some (if decide (fee = 0) then NativeFees l
               else int64 (fee + NativeToReserve H st (NativeFees l) defaultReserve)).
Proof.
  intros Hcur fee. unfold AllFeesAsReserve. rewrite Hcur.
  pose proof (ReserveFees_get l 0 cur) as Hget.
  change (nativeOrChain ASSETCHAINS_CHAINID 0) with ASSETCHAINS_CHAINID in Hget.
  fold fee in Hget. unfold ValueMap.get in Hget.
  destruct (ReserveFees ASSETCHAINS_CHAINID l 0 !! cur) as [v|] eqn:Hv.
  - change (v = fee) in Hget. subst v.
    assert (Hnz : fee <> 0).
    { rewrite ReserveFees_lookup in Hv.
      destruct (ledger_currencies l !! cur) as [io|] eqn:Hio; cbn in Hv; [|discriminate].
      destruct (bool_decide _); [discriminate|].
      unfold nonzero in Hv.
      destruct (Z.eqb_spec (int64 (reserveIn io
                                   - int64 (reserveOut io - reserveOutConverted io))) 0);
        cbn in Hv; [discriminate|]. congruence. }
    eexists. split; [reflexivity|]. split.
    + intros k Hk. now rewrite lookup_insert_ne by congruence.
    + rewrite lookup_insert_eq. now rewrite decide_False by assumption.
  - change (0 = fee) in Hget.
    eexists. split; [reflexivity|]. split.
    + intros k Hk. now rewrite lookup_insert_ne by congruence.
    + rewrite lookup_insert_eq. now rewrite decide_True by congruence.
Qed.

(** *** Currency generated by an import *)

Lemma GeneratedImportCurrency_lookup l fromSystemID importSystemID importCurrencyID k :
  GeneratedImportCurrency ASSETCHAINS_CHAINID systemOf l fromSystemID importSystemID
                          importCurrencyID !! k
  = ledger_currencies l !! k ≫= fun io =>
      if (nonzero (nativeOutConverted io) && bool_decide (k = importCurrencyID))
         || (nonzero (reserveIn io)
             && negb (bool_decide (fromSystemID = ASSETCHAINS_CHAINID))
             && bool_decide (systemOf k = fromSystemID))
      then Some (if bool_decide (k = importCurrencyID) then nativeOutConverted io
                 else reserveIn io)
      else None.
Proof.
  unfold GeneratedImportCurrency.
  etrans.
  { apply (own_key_fold_ext _
             (fun cur io =>
                if (nonzero (nativeOutConverted io) && bool_decide (cur = importCurrencyID))
                   || (nonzero (reserveIn io)
                       && negb (bool_decide (fromSystemID = ASSETCHAINS_CHAINID))
                       && bool_decide (systemOf cur = fromSystemID))
                then Some (if bool_decide (cur = importCurrencyID) then nativeOutConverted io
                           else reserveIn io)
                else None)).
    intros cur io acc. cbn zeta. destruct (_ || _); reflexivity. }
  reflexivity.
Qed.

(** X14: an import from the chain itself generates no currency but the
    import currency, in the amount converted to it *)
Theorem GeneratedImportCurrency_local l importSystemID importCurrencyID k :
  ValueMap.get (GeneratedImportCurrency ASSETCHAINS_CHAINID systemOf l ASSETCHAINS_CHAINID
                                        importSystemID importCurrencyID) k
  = if decide (k = importCurrencyID) then nativeOutConverted (inOuts l k) else 0.
Proof.
  unfold ValueMap.get. rewrite GeneratedImportCurrency_lookup.
  rewrite (bool_decide_eq_true_2 (ASSETCHAINS_CHAINID = ASSETCHAINS_CHAINID)) by reflexivity.
  destruct (ledger_currencies l !! k) as [io|] eqn:Hk; cbn.
  - rewrite (inOuts_lookup _ _ _ Hk). rewrite andb_false_r, orb_false_r.
    destruct (decide (k = importCurrencyID)) as [Heq | Hne].
    + rewrite bool_decide_eq_true_2 by assumption. rewrite andb_true_r.
      unfold nonzero. destruct (Z.eqb_spec (nativeOutConverted io) 0) as [-> | _]; reflexivity.
    + rewrite bool_decide_eq_false_2 by assumption. now rewrite andb_false_r.
  - rewrite (inOuts_missing _ _ Hk). destruct (decide _); reflexivity.
Qed.

End LedgerViewFacts.

Lemma ReserveFees_from_maps_witness :
  let l := AddReserveOutput 7 40 (AddReserveInput 7 100 (mkLedger ∅ 0 0)) in
  ValueMap.get (ReserveFees 1 l 0) 7
  = int64 (ValueMap.get (ReserveInputMap 1 l 0) 7
           - int64 (ValueMap.get (ReserveOutputMap 1 l 0) 7
                    - ValueMap.get (ReserveOutConvertedMap 1 l 0) 7)).
Proof.
  apply (ReserveFees_from_maps 1 (AddReserveOutput 7 40 (AddReserveInput 7 100 (mkLedger ∅ 0 0)))
           0 7).
  - vm_compute. discriminate.
  - reflexivity.
Defined.

Lemma AddReserveOutput_read_back_witness :
  let d := mkDescriptor 0 (AddReserveOutput 7 40 (mkLedger ∅ 0 0)) in
  let d' := AddReserveOutput_CTokenOutput 1 8 {[ 7%N := 60 ]} d in
  ValueMap.get (ReserveOutputMap 1 (desc_ledger d') 0) 7
  = (if decide (7%N = 1%N) then 0
     else int64 (ValueMap.get (ReserveOutputMap 1 (desc_ledger d) 0) 7
                 + ValueMap.get ({[ 7%N := 60 ]} : gmap N Z) 7))
  /\ Z.land (desc_flags d') 8 = 8
  /\ AddReserveTransfer 1 8 (mkReserveTransfer 1 {[ 7%N := 60 ]} 20) d
     = AddReserveOutput_CTokenOutput 1 8
         (reserveValues (mkReserveTransfer 1 {[ 7%N := 60 ]} 20)) d.
Proof.
  apply (AddReserveOutput_read_back 1 8 {[ 7%N := 60 ]}
           (mkReserveTransfer 1 {[ 7%N := 60 ]} 20)
           (mkDescriptor 0 (AddReserveOutput 7 40 (mkLedger ∅ 0 0))) 7).
  vm_compute. split; discriminate.
Defined.

Lemma AllFeesAsNative_foreign_witness :
  let st := mkCurrencyState 1 1 5%N [7%N] [SATOSHIDEN] [400000000] 0 0 400000000 in
  let l := AddReserveInput 7 100 (mkLedger ∅ 50 20) in
  AllFeesAsNative 1 sampleHelpers (withInOuts l 9 (mkInOuts 500 0 0 0 0)) st
  = AllFeesAsNative 1 sampleHelpers l st.
Proof.
  apply (AllFeesAsNative_foreign 1 sampleHelpers (AddReserveInput 7 100 (mkLedger ∅ 50 20))
           (mkCurrencyState 1 1 5%N [7%N] [SATOSHIDEN] [400000000] 0 0 400000000)
           9 (mkInOuts 500 0 0 0 0)).
  left. cbn. intros Hin. apply list_elem_of_In in Hin. cbn in Hin.
  destruct Hin as [Heq | []]. discriminate.
Defined.

Lemma AllFeesAsReserve_entries_witness :
  let st := mkCurrencyState 1 1 5%N [7%N] [SATOSHIDEN] [400000000] 0 0 400000000 in
  let l := mkLedger ∅ 50 20 in
  let fee := if decide (7%N = 1%N) then 0
             else int64 (reserveIn (inOuts l 7)
                         - int64 (reserveOut (inOuts l 7) - reserveOutConverted (inOuts l 7))) in
  exists fees,
    AllFeesAsReserve 1 sampleHelpers l st 0 = Returns fees
    /\ (forall k, k <> 7%N -> fees !! k = ReserveFees 1 l 0 !! k)
    /\ fees !! 7%N
       = Some (if decide (fee = 0) then NativeFees l
               else int64 (fee + NativeToReserve sampleHelpers st (NativeFees l) 0)).
Proof.
  apply (AllFeesAsReserve_entries 1 sampleHelpers (mkLedger ∅ 50 20)
           (mkCurrencyState 1 1 5%N [7%N] [SATOSHIDEN] [400000000] 0 0 400000000) 0%nat 7%N).
  reflexivity.
Defined.

Section FrameFacts.

Variable K : DecimalKernel.
Variable P : PriceHelpers.

Lemma sameBasket_refl a : sameBasket a a.
Proof. repeat split. Qed.

Lemma sameBasket_trans a b c : sameBasket a b -> sameBasket b c -> sameBasket a c.
Proof.
  unfold sameBasket. intros (?&?&?&?&?&?&?&?) (?&?&?&?&?&?&?&?).
  repeat split; congruence.
Qed.

Lemma sameBasket_withSupply ns s : sameBasket (withSupply ns s) ns.
Proof. repeat split. Qed.

Lemma sameBasket_withReserve ns i r : sameBasket (withReserve ns i r) ns.
Proof. unfold sameBasket, withReserve. cbn. rewrite length_insert. repeat split. Qed.

Lemma priceLoop_frame st inR inF fi fo idx :
  forall rates ns rates' ns',
    priceLoop P st inR inF fi fo idx rates ns = Next (rates', ns') ->
    sameBasket ns' ns /\ length rates' = length rates.
Proof.
  induction idx as [|i idx IH]; intros rates ns rates' ns' Hloop.
  - cbn in Hloop. injection Hloop as <- <-. split; [apply sameBasket_refl|reflexivity].
  - cbn [priceLoop] in Hloop.
    destruct (fo !! currencyAt st i) as [[first second]|].
    + destruct (assert _); cbn [mbind flow_bind] in Hloop; try discriminate.
      destruct (fdiv _ _); cbn [mbind flow_bind] in Hloop; try discriminate.
      apply IH in Hloop. destruct Hloop as [Hb Hl]. split.
      * eapply sameBasket_trans; [exact Hb|].
        eapply sameBasket_trans; [apply sameBasket_withReserve|apply sameBasket_withSupply].
      * rewrite Hl. apply length_insert.
    + destruct (fi !! currencyAt st i) as [[first second]|].
      * destruct (assert _); cbn [mbind flow_bind] in Hloop; try discriminate.
        destruct (fdiv _ _); cbn [mbind flow_bind] in Hloop; try discriminate.
        apply IH in Hloop. destruct Hloop as [Hb Hl]. split.
        -- eapply sameBasket_trans; [exact Hb|].
           eapply sameBasket_trans; [apply sameBasket_withReserve|apply sameBasket_withSupply].
        -- rewrite Hl. apply length_insert.
      * now apply IH in Hloop.
Qed.

Lemma body_frame self st inR inF ns cross via rates ns' via' :
  (forall st1 inR1 inF1 ns1 r1,
      self st1 inR1 inF1 ns1 = Returns r1 -> ns1 = st1 -> sameBasket r1.1.2 st1) ->
  ConvertAmounts_body K P self st inR inF ns cross via = Returns (rates, ns', via') ->
  (ns' = ns /\ rates = PricesInReserve P st)
  \/ (sameBasket ns' st
      /\ (rates = PricesInReserve P st \/ length rates = length (currencies st))).
Proof.
  intros Hself. unfold ConvertAmounts_body.
  destruct (checkParameters _ _ _ _) as [|[|]].
  - intros [= <- <- <-]. left. split; reflexivity.
  - unfold convertFlow.
    destruct (netting P st inR inF) as [[[bm fIn] fOut]| |f]; cbn [mbind flow_bind];
      [|intros [= <- <- <-]; left; split; reflexivity|discriminate].
    destruct (layering st bm fIn fOut) as [[lIn lOut]| |f]; cbn [mbind flow_bind];
      [|intros [= <- <- <-]; left; split; reflexivity|discriminate].
    destruct (runPasses K st (GetReserveMap st) lIn lOut) as [[mIn mOut]| |f];
      cbn [mbind flow_bind];
      [|intros [= <- <- <-]; left; split; reflexivity|discriminate].
    destruct (priceLoop P st inR inF mIn mOut _ _ st) as [[rates1 ns1]| |f] eqn:Hloop;
      cbn [mbind flow_bind];
      [|intros [= <- <- <-]; left; split; reflexivity|discriminate].
    apply priceLoop_frame in Hloop. destruct Hloop as [Hb Hl].
    rewrite length_replicate in Hl.
    assert (Hrates : length (fillRates P st rates1) = length (currencies st)).
    { unfold fillRates. now rewrite length_imap. }
    unfold crossStep.
    destruct cross as [rows|].
    + destruct (convertRToR rows _).
      * destruct (self ns1 _ _ ns1) as [[[viaPrices ns2] x]|f] eqn:Hnested;
          cbn [liftO mbind flow_bind]; [|discriminate].
        intros [= <- <- <-]. right. split; [|now right].
        eapply sameBasket_trans; [|exact Hb].
        exact (Hself _ _ _ _ _ Hnested eq_refl).
      * cbn [mbind flow_bind]. intros [= <- <- <-]. right. split; [assumption|now right].
    + cbn [mbind flow_bind]. intros [= <- <- <-]. right. split; [assumption|now right].
  - intros [= <- <- <-]. right. split; [apply sameBasket_refl|now left].
Qed.

Lemma direct_frame st inR inF ns r :
  ConvertAmounts_direct K P st inR inF ns = Returns r -> ns = st -> sameBasket r.1.2 st.
Proof.
  unfold ConvertAmounts_direct. intros Hr ->.
  destruct r as [[rates ns'] via'].
  apply body_frame in Hr; [|discriminate].
  destruct Hr as [[-> _] | [Hb _]]; [apply sameBasket_refl|exact Hb].
Qed.

(** X15: whatever [ConvertAmounts] returns, the caller's state object is
    either untouched (with the prior prices returned) or a state with the
    currencies, weights, flags and emission record of the state converted
    on, and as many reserve amounts; the returned vector then is the prior
    prices or has one rate per reserve *)
Theorem ConvertAmounts_frame st inR inF ns cross via rates ns' via' :
  ConvertAmounts K P st inR inF ns cross via = Returns (rates, ns', via') ->
  (ns' = ns /\ rates = PricesInReserve P st)
  \/ (sameBasket ns' st
      /\ (rates = PricesInReserve P st \/ length rates = length (currencies st))).
Proof.
  intros Hr. unfold ConvertAmounts in Hr.
  apply body_frame in Hr; [exact Hr|].
  intros st1 inR1 inF1 ns1 r1. apply direct_frame.
Qed.

(** *** The conversion of one reserve *)

Lemma Forall_insert_zero (i : nat) n : Forall (fun x => x = 0) (<[i := 0]> (replicate n 0)).
Proof. apply Forall_insert; [|reflexivity]. now apply Forall_replicate. Qed.

Lemma Exists_insert (i : nat) n x (Q : Z -> Prop) :
  (i < n)%nat -> Q x -> Exists Q (<[i := x]> (replicate n 0)).
Proof.
  intros Hi Hq. apply Exists_exists. exists x. split; [|assumption].
  apply list_elem_of_lookup. exists i.
  apply list_lookup_insert_eq. now rewrite length_replicate.
Qed.

Lemma ConvertAmounts_no_amounts st inR inF ns :
  length inR = length (currencies st) -> length inF = length (currencies st) ->
  Forall (fun x => x = 0) inR -> Forall (fun x => x = 0) inF ->
  ConvertAmounts K P st inR inF ns None None = Returns (PricesInReserve P st, st, None).
Proof.
  intros HlR HlF HR HF. unfold ConvertAmounts, ConvertAmounts_body.
  destruct (checkParameters_sized st inR inF None) as (b & -> & Hb).
  { repeat split; congruence. }
  destruct b; [|reflexivity].
  specialize (Hb eq_refl).
  rewrite (existsb_nonzero_false _ HR), (existsb_nonzero_false _ HF) in Hb.
  discriminate.
Qed.

(** X16: the conversion of a single reserve returns 0 and leaves the
    caller's state alone when the index is past the last reserve; with no
    amount to convert it returns the prior price of the reserve and hands
    back a copy of the state; with a negative amount it returns the prior
    price and leaves the caller's state alone *)
Theorem ConvertAmounts_index_edges st inputReserve inputFraction ns reserveIndex :
  Z.of_nat (length (currencies st)) <= INT32_MAX ->
  (Z.of_nat (length (currencies st)) <= reserveIndex ->
   ConvertAmounts_index K P st inputReserve inputFraction ns reserveIndex = Returns (0, ns))
  /\ (forall price,
         0 <= reserveIndex < Z.of_nat (length (currencies st)) ->
         PricesInReserve P st !! Z.to_nat reserveIndex = Some price ->
         (inputReserve = 0 /\ inputFraction = 0 ->
          ConvertAmounts_index K P st inputReserve inputFraction ns reserveIndex
          = Returns (price, st))
         /\ (inputReserve < 0 \/ inputFraction < 0 ->
             ConvertAmounts_index K P st inputReserve inputFraction ns reserveIndex
             = Returns (price, ns))).
Proof.
  intros Hn. unfold ConvertAmounts_index.
  assert (H32 : INT32_MAX = 2 ^ 31 - 1) by reflexivity.
  rewrite int32_id by lia. rewrite Nat2Z.id.
  split.
  - intros Hge. destruct (Z.leb_spec (Z.of_nat (length (currencies st))) reserveIndex); [|lia].
    reflexivity.
  - intros price Hidx Hprice.
    destruct (Z.leb_spec (Z.of_nat (length (currencies st))) reserveIndex); [lia|].
    destruct (Z.ltb_spec reserveIndex 0); [lia|].
    set (i := Z.to_nat reserveIndex) in *.
    assert (Hi : (i < length (currencies st))%nat) by (unfold i; lia).
    split.
    + intros [-> ->].
      rewrite ConvertAmounts_no_amounts;
        [|now rewrite length_insert, length_replicate
         |now rewrite length_insert, length_replicate
         |apply Forall_insert_zero|apply Forall_insert_zero].
      unfold outcome_bind. now rewrite Hprice.
    + intros Hneg. unfold ConvertAmounts.
      rewrite netting_bail_rejects.
      * unfold outcome_bind. now rewrite Hprice.
      * split; [|split].
        -- repeat split; rewrite !length_insert, !length_replicate; reflexivity.
        -- exact I.
        -- destruct Hneg as [Hneg | Hneg]; [left | right];
             apply Exists_insert; (assumption || lia).
      * apply netting_negative.
        destruct Hneg as [Hneg | Hneg]; [left | right];
          apply Exists_insert; assumption.
Qed.

End FrameFacts.

Lemma ConvertAmounts_frame_witness :
  let st := mkCurrencyState 1 1 5%N [7%N] [SATOSHIDEN] [400000000] 0 0 400000000 in
  let ns' := mkCurrencyState 1 1 5%N [7%N] [SATOSHIDEN] [500000000] 0 0 500000000 in
  (ns' = st /\ [100000000] = PricesInReserve sampleHelpers st)
  \/ (sameBasket ns' st
      /\ ([100000000] = PricesInReserve sampleHelpers st
          \/ length [100000000] = length (currencies st))).
Proof.
  apply (ConvertAmounts_frame exactKernel sampleHelpers
           (mkCurrencyState 1 1 5%N [7%N] [SATOSHIDEN] [400000000] 0 0 400000000)
           [100000000] [0]
           (mkCurrencyState 1 1 5%N [7%N] [SATOSHIDEN] [400000000] 0 0 400000000)
           None None [100000000]
           (mkCurrencyState 1 1 5%N [7%N] [SATOSHIDEN] [500000000] 0 0 500000000) None).
  vm_compute. reflexivity.
Defined.

Lemma ConvertAmounts_index_edges_witness :
  let st := mkCurrencyState 1 1 5%N [7%N] [SATOSHIDEN] [400000000] 0 0 400000000 in
  (Z.of_nat (length (currencies st)) <= 0 ->
   ConvertAmounts_index exactKernel sampleHelpers st 0 0 st 0 = Returns (0, st))
  /\ (forall price,
         0 <= 0 < Z.of_nat (length (currencies st)) ->
         PricesInReserve sampleHelpers st !! Z.to_nat 0 = Some price ->
         (0 = 0 /\ 0 = 0 ->
          ConvertAmounts_index exactKernel sampleHelpers st 0 0 st 0 = Returns (price, st))
         /\ (0 < 0 \/ 0 < 0 ->
             ConvertAmounts_index exactKernel sampleHelpers st 0 0 st 0 = Returns (price, st))).
Proof.
  apply (ConvertAmounts_index_edges exactKernel sampleHelpers
           (mkCurrencyState 1 1 5%N [7%N] [SATOSHIDEN] [400000000] 0 0 400000000) 0 0
           (mkCurrencyState 1 1 5%N [7%N] [SATOSHIDEN] [400000000] 0 0 400000000) 0).
  vm_compute. discriminate.
Defined.

Section ReserveMapFacts.

Lemma reserveMap_fold cs :
  forall k (m0 : gmap N nat) c,
    let m := fold_left (fun m '(i, c) => <[c := i]> m)
                       (imap (fun i c => ((k + i)%nat, c)) cs) m0 in
    (c ∉ cs -> m !! c = m0 !! c)
    /\ (NoDup cs -> forall i, cs !! i = Some c -> m !! c = Some (k + i)%nat).
Proof.
  induction cs as [|x cs IH]; intros k m0 c m.
  - split; [reflexivity|]. intros _ i Hi. discriminate.
  - subst m. cbn [imap fold_left].
    rewrite (imap_ext _ (fun i c => ((S k + i)%nat, c)))
      by (intros i y _; cbn; f_equal; lia).
    destruct (IH (S k) (<[x := (k + 0)%nat]> m0) c) as [IH1 IH2].
    split.
    + intros Hnot. apply not_elem_of_cons in Hnot. destruct Hnot as [Hne Hnot].
      rewrite IH1 by assumption. now rewrite lookup_insert_ne by congruence.
    + intros Hnd i Hi. apply NoDup_cons in Hnd. destruct Hnd as [Hx Hnd].
      destruct i as [|i]; cbn in Hi.
      * injection Hi as ->. rewrite IH1 by assumption.
        now rewrite lookup_insert_eq.
      * rewrite (IH2 Hnd i Hi). f_equal. lia.
Qed.

(** in a state without repeated reserves the reserve map holds, for every
    reserve, its position *)
Lemma GetReserveMap_lookup st c i :
  NoDup (currencies st) -> currencies st !! i = Some c -> GetReserveMap st !! c = Some i.
Proof.
  intros Hnd Hi. unfold GetReserveMap.
  destruct (reserveMap_fold (currencies st) 0 ∅ c) as [_ Hin].
  exact (Hin Hnd i Hi).
Qed.

Lemma GetReserveMap_missing st c :
  c ∉ currencies st -> GetReserveMap st !! c = None.
Proof.
  intros Hnot. unfold GetReserveMap.
  destruct (reserveMap_fold (currencies st) 0 ∅ c) as [Hout _].
  specialize (Hout Hnot). rewrite lookup_empty in Hout. exact Hout.
Qed.

Lemma GetReserveMap_Some st c i :
  NoDup (currencies st) -> GetReserveMap st !! c = Some i -> currencies st !! i = Some c.
Proof.
  intros Hnd Hm.
  destruct (decide (c ∈ currencies st)) as [Hin | Hnot].
  - apply list_elem_of_lookup in Hin. destruct Hin as [j Hj].
    rewrite (GetReserveMap_lookup st c j Hnd Hj) in Hm. congruence.
  - rewrite (GetReserveMap_missing st c Hnot) in Hm. discriminate.
Qed.

End ReserveMapFacts.

Section LedgerVecFacts.

Lemma entriesInOrder_perm {A} (m : gmap N A) : entriesInOrder m ≡ₚ map_to_list m.
Proof. apply merge_sort_Permutation. Qed.

Lemma entriesInOrder_elem {A} (m : gmap N A) k a :
  (k, a) ∈ entriesInOrder m <-> m !! k = Some a.
Proof. rewrite entriesInOrder_perm. apply elem_of_map_to_list. Qed.

Lemma entriesInOrder_NoDup {A} (m : gmap N A) : NoDup (entriesInOrder m).*1.
Proof. rewrite entriesInOrder_perm. apply NoDup_fst_map_to_list. Qed.

Lemma storeFields_spec field st (entries : list (N * CReserveInOuts)) :
  NoDup (currencies st) ->
  NoDup entries.*1 ->
  (forall c io, (c, io) ∈ entries -> c ∈ currencies st) ->
  forall retVal,
    length retVal = length (currencies st) ->
    exists out,
      storeFields field (GetReserveMap st) entries retVal = Returns out
      /\ length out = length retVal
      /\ forall i c, currencies st !! i = Some c ->
                     (forall io, (c, io) ∈ entries -> out !! i = Some (field io))
                     /\ (c ∉ entries.*1 -> out !! i = retVal !! i).
Proof.
  intros Hnd. induction entries as [|[c' io'] entries IH]; intros Hne Hsub retVal Hlen.
  - exists retVal. split; [reflexivity|]. split; [reflexivity|].
    intros i c Hi. split; [|reflexivity]. intros io Hin. now apply elem_of_nil in Hin.
  - cbn [fmap list_fmap fst] in Hne. apply NoDup_cons in Hne. destruct Hne as [Hc' Hne].
    assert (Hin' : c' ∈ currencies st) by (eapply Hsub; apply list_elem_of_here).
    apply list_elem_of_lookup in Hin'. destruct Hin' as [j Hj].
    cbn [storeFields]. unfold reserveIndex.
    rewrite (GetReserveMap_lookup st c' j Hnd Hj). cbn [default].
    assert (Hjlt : (j < length retVal)%nat).
    { rewrite Hlen. eapply lookup_lt_Some. exact Hj. }
    rewrite bool_decide_eq_true_2 by assumption.
    destruct (IH Hne (fun c io Hin => Hsub c io (list_elem_of_further _ _ _ Hin))
                 (<[j := field io']> retVal) ltac:(now rewrite length_insert))
      as (out & Hout & Hlo & Hspec).
    exists out. split; [exact Hout|]. split; [now rewrite Hlo, length_insert|].
    intros i c Hi. destruct (Hspec i c Hi) as [Hs1 Hs2]. split.
    + intros io Hin. apply elem_of_cons in Hin. destruct Hin as [Heq | Hin].
      * injection Heq as -> ->.
        assert (i = j) by (exact (NoDup_lookup _ _ _ _ Hnd Hi Hj)). subst i.
        rewrite Hs2 by assumption. now apply list_lookup_insert_eq.
      * now apply Hs1.
    + intros Hnot. cbn [fmap list_fmap fst] in Hnot.
      apply not_elem_of_cons in Hnot. destruct Hnot as [Hcc Hnot].
      rewrite Hs2 by assumption. apply list_lookup_insert_ne.
      intros ->. apply Hcc. congruence.
Qed.

Lemma ledgerVec_spec field l st :
  field noInOuts = 0 ->
  NoDup (currencies st) ->
  (forall c, is_Some (ledger_currencies l !! c) -> c ∈ currencies st) ->
  ledgerVec field l st = Returns (map (fun c => field (inOuts l c)) (currencies st)).
Proof.
  intros Hzero Hnd Hsub. unfold ledgerVec.
  destruct (storeFields_spec field st (entriesInOrder (ledger_currencies l)) Hnd
              (entriesInOrder_NoDup _)
              ltac:(intros c io Hin; apply Hsub; apply entriesInOrder_elem in Hin; eauto)
              (replicate (length (currencies st)) 0) ltac:(apply length_replicate))
    as (out & -> & Hlen & Hspec).
  f_equal. rewrite length_replicate in Hlen.
  apply list_eq. intros i. rewrite list_lookup_fmap.
  destruct (currencies st !! i) as [c|] eqn:Hi; cbn.
  - destruct (Hspec i c Hi) as [Hs1 Hs2]. unfold inOuts.
    destruct (ledger_currencies l !! c) as [io|] eqn:Hc; cbn [default].
    + apply Hs1. now apply entriesInOrder_elem.
    + rewrite Hs2.
      * rewrite Hzero. apply lookup_replicate_2. eapply lookup_lt_Some. exact Hi.
      * intros Hin. apply list_elem_of_fmap in Hin. destruct Hin as [[c2 io] [Heq Hin]].
        cbn in Heq. subst c2. apply entriesInOrder_elem in Hin. congruence.
  - apply lookup_ge_None_2. rewrite Hlen. now apply lookup_ge_None_1.
Qed.

(** X17: when the reserves of the state are distinct and the ledger holds
    no other currency, the five vectors list the ledger's fields by
    reserve position, a reserve without a ledger entry counting as zero *)
Theorem ledger_vectors_by_position l st :
  NoDup (currencies st) ->
  (forall c, is_Some (ledger_currencies l !! c) -> c ∈ currencies st) ->
  ReserveInputVec l st = Returns (map (fun c => reserveIn (inOuts l c)) (currencies st))
  /\ ReserveOutputVec l st = Returns (map (fun c => reserveOut (inOuts l c)) (currencies st))
  /\ ReserveOutConvertedVec l st
     = Returns (map (fun c => reserveOutConverted (inOuts l c)) (currencies st))
  /\ NativeOutConvertedVec l st
     = Returns (map (fun c => nativeOutConverted (inOuts l c)) (currencies st))
  /\ ReserveConversionFeesVec l st
     = Returns (map (fun c => reserveConversionFees (inOuts l c)) (currencies st)).
Proof.
  intros Hnd Hsub. repeat split; apply ledgerVec_spec; (reflexivity || assumption).
Qed.

(** X18: the amounts of a ledger currency that is not a reserve of the state
    are stored at position 0, the place of the first reserve; with no
    reserve at all the store is out of range *)
Theorem ledger_vector_foreign_currency c io nIn nOut st :
  c ∉ currencies st ->
  ReserveInputVec (mkLedger {[ c := io ]} nIn nOut) st
  = match currencies st with
    | [] => Fails Undefined
    | _ :: rest => Returns (reserveIn io :: replicate (length rest) 0)
    end.
Proof.
  intros Hnot. unfold ReserveInputVec, ledgerVec. cbn [ledger_currencies].
  assert (Hent : entriesInOrder ({[ c := io ]} : gmap N CReserveInOuts) = [(c, io)]).
  { apply Permutation_singleton_r. rewrite entriesInOrder_perm.
    now rewrite map_to_list_singleton. }
  rewrite Hent. cbn [storeFields]. unfold reserveIndex.
  rewrite (GetReserveMap_missing st c Hnot). cbn [default].
  destruct (currencies st) as [|c0 rest]; reflexivity.
Qed.

End LedgerVecFacts.

Lemma ledger_vectors_by_position_witness :
  let st := mkCurrencyState 1 1 5%N [7%N; 8%N] [50000000; 50000000] [100; 100] 0 0 100 in
  let l := AddReserveOutput 8 40 (AddReserveInput 7 100 (mkLedger ∅ 0 0)) in
  ReserveInputVec l st = Returns (map (fun c => reserveIn (inOuts l c)) (currencies st))
  /\ ReserveOutputVec l st = Returns (map (fun c => reserveOut (inOuts l c)) (currencies st))
  /\ ReserveOutConvertedVec l st
     = Returns (map (fun c => reserveOutConverted (inOuts l c)) (currencies st))
  /\ NativeOutConvertedVec l st
     = Returns (map (fun c => nativeOutConverted (inOuts l c)) (currencies st))
  /\ ReserveConversionFeesVec l st
     = Returns (map (fun c => reserveConversionFees (inOuts l c)) (currencies st)).
Proof.
  apply (ledger_vectors_by_position
           (AddReserveOutput 8 40 (AddReserveInput 7 100 (mkLedger ∅ 0 0)))
           (mkCurrencyState 1 1 5%N [7%N; 8%N] [50000000; 50000000] [100; 100] 0 0 100)).
  - cbn. compute_done.
  - intros c Hc. cbn.
    destruct (decide (c = 7%N)) as [-> | H7]; [compute_done|].
    destruct (decide (c = 8%N)) as [-> | H8]; [compute_done|].
    exfalso. unfold AddReserveOutput, AddReserveInput, withInOuts in Hc. cbn in Hc.
    rewrite !lookup_insert_ne in Hc by congruence.
    rewrite lookup_empty in Hc. destruct Hc as [x Hx]. discriminate.
Defined.

Lemma ledger_vector_foreign_currency_witness :
  let st := mkCurrencyState 1 1 5%N [7%N; 8%N] [50000000; 50000000] [100; 100] 0 0 100 in
  ReserveInputVec (mkLedger {[ 9%N := mkInOuts 500 0 0 0 0 ]} 0 0) st
  = match currencies st with
    | [] => Fails Undefined
    | _ :: rest => Returns (reserveIn (mkInOuts 500 0 0 0 0) :: replicate (length rest) 0)
    end.
Proof.
  apply (ledger_vector_foreign_currency 9%N (mkInOuts 500 0 0 0 0) 0 0
           (mkCurrencyState 1 1 5%N [7%N; 8%N] [50000000; 50000000] [100; 100] 0 0 100)).
  cbn. compute_done.
Defined.

Section WrapFacts.

Lemma int64_add_r x y : int64 (x + int64 y) = int64 (x + y).
Proof. rewrite (Z.add_comm x), int64_add_l. f_equal. lia. Qed.

Lemma int64_sub_l x y : int64 (int64 x - y) = int64 (x - y).
Proof. unfold Z.sub. apply int64_add_l. Qed.

Lemma int64_sub_r x y : int64 (x - int64 y) = int64 (x - y).
Proof.
  apply int64_eq_mod.
  rewrite Zminus_mod, int64_mod, <- Zminus_mod. reflexivity.
Qed.

End WrapFacts.

Lemma int64_wrap x : exists k, int64 x = x + k * 18446744073709551616.
Proof.
  unfold int64, signed. change (2 ^ 64) with 18446744073709551616.
  change (2 ^ (64 - 1)) with 9223372036854775808.
  destruct (_ <? _).
  - exists (- (x / 18446744073709551616)).
    pose proof (Z.div_mod x 18446744073709551616 ltac:(lia)). lia.
  - exists (- (x / 18446744073709551616) - 1).
    pose proof (Z.div_mod x 18446744073709551616 ltac:(lia)). lia.
Qed.

(** two wrapped sums are equal when they agree once the inner wraps are
    dropped *)
Ltac int64_eq :=
  apply int64_eq_mod;
  repeat match goal with
         | |- context [int64 ?t] =>
             let k := fresh "k" in
             let Hk := fresh "Hk" in
             destruct (int64_wrap t) as [k Hk]; rewrite Hk; clear Hk
         end;
  change (2 ^ 64) with 18446744073709551616;
  Z.to_euclidean_division_equations; lia.

Section SpreadWeightFacts.

Lemma sumZ_delete l i x : l !! i = Some x -> sumZ (delete i l) = sumZ l - x.
Proof.
  revert i. induction l as [|y l IH]; intros i Hi; [discriminate|].
  destruct i as [|i]; cbn in Hi.
  - injection Hi as ->. change (sumZ l = sumZ (x :: l) - x). rewrite sumZ_cons. lia.
  - change (sumZ (y :: delete i l) = sumZ (y :: l) - x).
    rewrite !sumZ_cons, (IH i Hi). lia.
Qed.

Lemma addExtraWeight_spec ws one rem :
  Forall (fun w => 0 <= w) ws -> 0 <= one -> 0 <= rem <= Z.of_nat (length ws) ->
  sumZ ws + Z.of_nat (length ws) * one + rem <= INT32_MAX ->
  sumZ (addExtraWeight ws one rem) = sumZ ws + Z.of_nat (length ws) * one + rem
  /\ length (addExtraWeight ws one rem) = length ws.
Proof.
  intros Hws Hone. revert rem.
  assert (H32 : INT32_MAX = 2 ^ 31 - 1) by reflexivity.
  induction Hws as [|w ws Hw Hws IH]; intros rem Hrem Hfit.
  - cbn in *. unfold sumZ. cbn. split; [lia|reflexivity].
  - pose proof (sumZ_nonneg ws Hws) as Hnn.
    rewrite sumZ_cons in *. cbn [length] in *.
    cbn [addExtraWeight]. destruct (Z.eqb_spec rem 0) as [-> | Hne].
    + destruct (IH 0 ltac:(lia) ltac:(nia)) as [IH1 IH2].
      rewrite sumZ_cons, IH1. cbn [length]. rewrite IH2.
      rewrite int32_id by nia. split; [nia|reflexivity].
    + rewrite (int32_id (w + one)) by nia.
      rewrite (int32_id (w + one + 1)) by nia.
      rewrite (int32_id (rem - 1)) by nia.
      destruct (IH (rem - 1) ltac:(lia) ltac:(nia)) as [IH1 IH2].
      rewrite sumZ_cons, IH1. cbn [length]. rewrite IH2.
      split; [nia|reflexivity].
Qed.

(** X19: taking the weight of the system currency out of the basket and
    spreading it over the other reserves keeps the total weight; when the
    system currency is the only reserve the spreading divides by zero *)
Theorem spreadSystemWeight_total weights systemDestIdx sysWeight :
  weights !! systemDestIdx = Some sysWeight ->
  Forall (fun w => 0 <= w) weights -> sumZ weights <= INT32_MAX ->
  (length weights = 1%nat -> spreadSystemWeight weights systemDestIdx = Fails Undefined)
  /\ ((1 < length weights)%nat ->
      exists ws,
        spreadSystemWeight weights systemDestIdx = Returns ws
        /\ length ws = (length weights - 1)%nat
        /\ sumZ ws = sumZ weights).
Proof.
  intros Hidx Hws Hsum.
  assert (H32 : INT32_MAX = 2 ^ 31 - 1) by reflexivity.
  unfold spreadSystemWeight. rewrite Hidx.
  pose proof (length_delete weights systemDestIdx ltac:(eauto)) as Hlen.
  pose proof (sumZ_delete _ _ _ Hidx) as Hdel.
  pose proof (Forall_delete _ weights systemDestIdx Hws) as Hrest.
  pose proof (sumZ_nonneg _ Hrest) as Hnn.
  assert (Hsys : 0 <= sysWeight).
  { rewrite Forall_forall in Hws. apply Hws. eapply list_elem_of_lookup_2. exact Hidx. }
  split.
  - intros H1. rewrite Hlen, H1. reflexivity.
  - intros Hgt. set (ws := delete systemDestIdx weights) in *.
    set (n := Z.of_nat (length ws)).
    assert (Hn : 0 < n) by (unfold n; lia).
    destruct (Z.eqb_spec n 0) as [|_]; [lia|].
    rewrite (uint64_id sysWeight) by lia.
    assert (Hq : 0 <= sysWeight / n <= sysWeight).
    { split; [apply Z.div_pos; lia|]. apply Z.div_le_upper_bound; [lia|]. nia. }
    pose proof (Z.mod_pos_bound sysWeight n Hn) as Hr.
    pose proof (Z.mod_le sysWeight n ltac:(lia) Hn) as Hr'.
    pose proof (Z.div_mod sysWeight n ltac:(lia)) as Hdm.
    rewrite (int32_id (sysWeight / n)) by lia.
    rewrite (int32_id (sysWeight mod n)) by lia.
    destruct (addExtraWeight_spec ws (sysWeight / n) (sysWeight mod n) Hrest
                ltac:(lia) ltac:(fold n; lia) ltac:(fold n; lia)) as [Hs Hl].
    eexists. split; [reflexivity|]. split; [rewrite Hl; lia|].
    rewrite Hs. fold n. lia.
Qed.

End SpreadWeightFacts.

Lemma spreadSystemWeight_total_witness :
  let weights : list Z := [50000000; 30000000; 20000000] in
  (length weights = 1%nat -> spreadSystemWeight weights 0 = Fails Undefined)
  /\ ((1 < length weights)%nat ->
      exists ws,
        spreadSystemWeight weights 0 = Returns ws
        /\ length ws = (length weights - 1)%nat
        /\ sumZ ws = sumZ weights).
Proof.
  apply (spreadSystemWeight_total [50000000; 30000000; 20000000] 0 50000000).
  - reflexivity.
  - repeat constructor; lia.
  - vm_compute. discriminate.
Defined.

Section RevertFacts.

Import Coinbase.

(** a loop that rewrites one position of a vector per round *)
Lemma pointwise_fold (g : nat -> Z -> Z) (idx : list nat) :
  NoDup idx ->
  forall (l : list Z) j,
    fold_left (fun l i => <[i := g i (at_ l i)]> l) idx l !! j
    = if decide (j ∈ idx) then g j <$> l !! j else l !! j.
Proof.
  induction 1 as [|i idx Hi Hnd IH]; intros l j.
  - cbn. destruct (decide (j ∈ [])) as [Hin | _]; [|reflexivity].
    now apply elem_of_nil in Hin.
  - cbn [fold_left]. rewrite IH.
    assert (Hstep : forall j', <[i := g i (at_ l i)]> l !! j'
                               = if decide (i = j') then g i <$> l !! j' else l !! j').
    { intros j'. destruct (decide (i = j')) as [<- | Hne].
      - unfold at_. destruct (l !! i) as [x|] eqn:Hl; cbn.
        + apply list_lookup_insert_eq. eapply lookup_lt_Some. exact Hl.
        + apply lookup_ge_None_2. rewrite length_insert. now apply lookup_ge_None_1.
      - now apply list_lookup_insert_ne. }
    rewrite Hstep.
    destruct (decide (j ∈ idx)) as [Hin | Hnin].
    + destruct (decide (i = j)) as [-> | Hne]; [contradiction|].
      rewrite decide_True by (now apply list_elem_of_further). reflexivity.
    + destruct (decide (i = j)) as [-> | Hne].
      * rewrite decide_True by apply list_elem_of_here. reflexivity.
      * rewrite decide_False; [reflexivity|].
        intros Hin. apply elem_of_cons in Hin. destruct Hin; congruence.
Qed.

(** a loop that adds one amount per round to a wrapped sum *)
Lemma wrapped_sum_fold (d : nat -> Z) (idx : list nat) x :
  int64 (fold_left (fun x i => int64 (x + d i)) idx x) = int64 (x + sumZ (map d idx)).
Proof.
  revert x. induction idx as [|i idx IH]; intros x.
  - cbn. unfold sumZ. cbn. now rewrite Z.add_0_r.
  - cbn [fold_left map]. rewrite IH, sumZ_cons, int64_add_l. f_equal. lia.
Qed.

Lemma wrapped_sum_inner (f : nat -> Z) (idx : list nat) x :
  int64 (x + sumZ (map (fun i => int64 (f i)) idx)) = int64 (x + sumZ (map f idx)).
Proof.
  revert x. induction idx as [|i idx IH]; intros x; [reflexivity|].
  cbn [map]. rewrite !sumZ_cons.
  replace (x + (int64 (f i) + sumZ (map (fun i => int64 (f i)) idx)))
    with (x + int64 (f i) + sumZ (map (fun i => int64 (f i)) idx)) by lia.
  rewrite IH.
  replace (x + int64 (f i) + sumZ (map f idx)) with (x + sumZ (map f idx) + int64 (f i)) by lia.
  rewrite int64_add_r. f_equal. lia.
Qed.

Section Record.

Variables vRes vResOut vFrac vFracOut vLiq : list Z.
Variable isFractional : bool.

Local Abbreviation rec := (recordAt isFractional vRes vResOut vFrac vFracOut vLiq).

Lemma recordRounds_fields idx s :
  let s' := fold_left (fun acc i => rec i acc) idx s in
  reserves (state s')
  = fold_left (fun l i =>
                 <[i := (fun i r =>
                           int64 (r + (if isFractional
                                       then int64 (int64 (at_ vRes i - at_ vResOut i)
                                                   + at_ vLiq i)
                                       else 0))) i (at_ l i)]> l)
              idx (reserves (state s))
  /\ reserveIn s'
     = fold_left (fun l i => <[i := (fun i _ => int64 (at_ vRes i + at_ vLiq i)) i (at_ l i)]> l)
                 idx (reserveIn s)
  /\ nativeIn s'
     = fold_left (fun l i => <[i := (fun i _ => at_ vFrac i) i (at_ l i)]> l) idx (nativeIn s)
  /\ reserveOut s'
     = fold_left (fun l i => <[i := (fun i _ => at_ vResOut i) i (at_ l i)]> l)
                 idx (reserveOut s)
  /\ supply (state s')
     = fold_left (fun x i => int64 (x + int64 (at_ vFracOut i - at_ vFrac i))) idx
                 (supply (state s))
  /\ currencies (state s') = currencies (state s)
  /\ emitted (state s') = emitted (state s)
  /\ nativeOut s' = nativeOut s
  /\ preConvertedOut s' = preConvertedOut s.
Proof.
  revert s. induction idx as [|i idx IH]; intros s; [cbn; repeat split|].
  cbn [fold_left]. cbn zeta in IH.
  destruct (IH (rec i s)) as (-> & -> & -> & -> & -> & -> & -> & -> & ->).
  repeat split.
Qed.

End Record.

Lemma revertRounds_fields idx s :
  let s' := fold_left (fun acc i => revertAt i acc) idx s in
  reserves (state s')
  = fold_left (fun l i =>
                 <[i := (fun i r =>
                           int64 (r + int64 (at_ (reserveOut s) i - at_ (reserveIn s) i)))
                          i (at_ l i)]> l)
              idx (reserves (state s))
  /\ supply (state s')
     = fold_left (fun x i => int64 (x + at_ (nativeIn s) i)) idx (supply (state s))
  /\ reserveIn s' = reserveIn s /\ reserveOut s' = reserveOut s /\ nativeIn s' = nativeIn s
  /\ emitted (state s') = emitted (state s)
  /\ nativeOut s' = nativeOut s
  /\ preConvertedOut s' = preConvertedOut s.
Proof.
  revert s. induction idx as [|i idx IH]; intros s; [cbn; repeat split|].
  cbn [fold_left]. cbn zeta in IH.
  destruct (IH (revertAt i s)) as (-> & -> & -> & -> & -> & -> & -> & ->).
  repeat split.
Qed.

(** a loop of checked rounds returns what the rounds compute when every
    check passes *)
Lemma checked_rounds {S} (Inv : S -> Prop) (inside : nat -> Prop)
      (round : nat -> S -> outcome S) (f : nat -> S -> S) :
  (forall i s, inside i -> Inv s -> round i s = Returns (f i s) /\ Inv (f i s)) ->
  forall idx s,
    Forall inside idx -> Inv s ->
    fold_left (fun acc i => outcome_bind acc (round i)) idx (Returns s)
    = Returns (fold_left (fun acc i => f i acc) idx s)
    /\ Inv (fold_left (fun acc i => f i acc) idx s).
Proof.
  intros Hround. induction idx as [|i idx IH]; intros s Hidx Hinv; [now split|].
  apply Forall_cons_1 in Hidx. destruct Hidx as [Hi Hidx].
  destruct (Hround i s Hi Hinv) as [Hr Hinv'].
  cbn [fold_left outcome_bind]. rewrite Hr. now apply IH.
Qed.

(** the four vectors of a state that the two loops index have [n] entries *)
Local Abbreviation sized n s :=
  (length (reserves (state s)) = n /\ length (reserveIn s) = n
   /\ length (reserveOut s) = n /\ length (nativeIn s) = n).

Lemma inRange_lt {A} (i : nat) (v : list A) : (i < length v)%nat -> inRange i v = true.
Proof. intros Hi. unfold inRange. now apply bool_decide_eq_true_2. Qed.

Lemma recordRound_sized b vRes vResOut vFrac vFracOut vLiq n i s :
  length vRes = n -> length vResOut = n -> length vFrac = n -> length vFracOut = n ->
  length vLiq = n ->
  (i < n)%nat -> sized n s ->
  recordRound b vRes vResOut vFrac vFracOut vLiq i s
  = Returns (recordAt b vRes vResOut vFrac vFracOut vLiq i s)
  /\ sized n (recordAt b vRes vResOut vFrac vFracOut vLiq i s).
Proof.
  intros H1 H2 H3 H4 H5 Hi (Hr & Hin & Hout & Hnat). split.
  - unfold recordRound. rewrite !inRange_lt by lia. reflexivity.
  - cbn. rewrite !length_insert. now repeat split.
Qed.

Lemma revertRound_sized n i s :
  (i < n)%nat -> sized n s ->
  revertRound i s = Returns (revertAt i s) /\ sized n (revertAt i s).
Proof.
  intros Hi (Hr & Hin & Hout & Hnat). split.
  - unfold revertRound. rewrite !inRange_lt by lia. reflexivity.
  - cbn. rewrite !length_insert. now repeat split.
Qed.

Lemma map_at_seq (l : list Z) : map (at_ l) (seq 0 (length l)) = l.
Proof.
  apply list_eq. intros i. rewrite list_lookup_fmap.
  destruct (l !! i) as [x|] eqn:Hi.
  - rewrite lookup_seq_lt by (eapply lookup_lt_Some; exact Hi). cbn.
    unfold at_. now rewrite Hi.
  - rewrite lookup_seq_ge by (now apply lookup_ge_None_1). reflexivity.
Qed.

Lemma fst_imap_positions (cs : list N) : (imap (fun i c => (c, i)) cs).*1 = cs.
Proof.
  apply list_eq. intros i. rewrite list_lookup_fmap, list_lookup_imap.
  destruct (cs !! i); reflexivity.
Qed.

Lemma snd_imap_positions (cs : list N) : (imap (fun i c => (c, i)) cs).*2 = seq 0 (length cs).
Proof.
  apply list_eq. intros i. rewrite list_lookup_fmap, list_lookup_imap.
  destruct (cs !! i) eqn:Hi; cbn.
  - symmetry. apply lookup_seq_lt. eapply lookup_lt_Some. exact Hi.
  - symmetry. apply lookup_seq_ge. now apply lookup_ge_None_1.
Qed.

(** the positions the reverting loop visits *)
Lemma reserveMap_positions b :
  NoDup (currencies b) ->
  (entriesInOrder (GetReserveMap b)).*2 ≡ₚ seq 0 (length (currencies b)).
Proof.
  intros Hnd. rewrite entriesInOrder_perm.
  assert (Hnd' : NoDup (imap (fun i c => (c, i)) (currencies b)).*1).
  { now rewrite fst_imap_positions. }
  assert (Hmap : GetReserveMap b
                 = list_to_map (imap (fun i c => (c, i)) (currencies b))).
  { apply map_eq. intros c.
    destruct (GetReserveMap b !! c) as [i|] eqn:Hc.
    - symmetry. apply elem_of_list_to_map_1; [exact Hnd'|].
      apply GetReserveMap_Some in Hc; [|exact Hnd].
      apply (elem_of_lookup_imap_2 (fun i c => (c, i)) _ _ _ Hc).
    - symmetry. apply not_elem_of_list_to_map_1.
      rewrite fst_imap_positions.
      intros Hin. apply list_elem_of_lookup in Hin. destruct Hin as [i Hi].
      rewrite (GetReserveMap_lookup b c i Hnd Hi) in Hc. discriminate. }
  rewrite Hmap. rewrite map_to_list_to_map by exact Hnd'.
  now rewrite snd_imap_positions.
Qed.

Lemma fold_rounds_snd {A B} (f : nat -> B -> B) (l : list (A * nat)) (b : B) :
  fold_left (fun acc '(_, idx) => f idx acc) l b = fold_left (fun acc i => f i acc) l.*2 b.
Proof.
  revert b. induction l as [|[a i] l IH]; intros b; [reflexivity|]. cbn. apply IH.
Qed.

Lemma sumZ_map_sub (f g : nat -> Z) l :
  sumZ (map (fun i => f i - g i) l) = sumZ (map f l) - sumZ (map g l).
Proof. induction l as [|i l IH]; [reflexivity|]. cbn [map]. rewrite !sumZ_cons. lia. Qed.

Lemma at_lookup (l : list Z) i x : l !! i = Some x -> at_ l i = x.
Proof. unfold at_. now intros ->. Qed.

(** X20: reverting a state undoes what the import recorded in it: with
    vectors of the size of the basket both loops run through, the reserves
    are again those the recording loop started from, and the supply is the
    one it started from plus the currency paid out, less the larger of
    [nativeOut] and [emitted] net of the pre-converted output *)
Theorem revertFlows_undoes_recordFlows vRes vResOut vFrac vFracOut vLiq s n :
  length (currencies (state s)) = n ->
  NoDup (currencies (state s)) ->
  length (reserves (state s)) = n -> length (reserveIn s) = n ->
  length (reserveOut s) = n -> length (nativeIn s) = n ->
  length vRes = n -> length vResOut = n -> length vFrac = n -> length vFracOut = n ->
  length vLiq = n ->
  Forall in_int64 (reserves (state s)) ->
  exists s1 s2,
    recordFlows true vRes vResOut vFrac vFracOut vLiq s = Returns s1
    /\ revertFlows s1 = Returns s2
    /\ reserves (state s2) = reserves (state s)
    /\ supply (state s2)
       = int64 (supply (state s) + sumZ vFracOut
                - (Z.max (nativeOut s) (emitted (state s)) - preConvertedOut s)).
Proof.
  intros Hn Hnd Hlr Hli Hlo Hln Hv1 Hv2 Hv3 Hv4 Hv5 Hin.
  assert (Hsized : sized n s) by now repeat split.
  destruct (checked_rounds (fun s => sized n s) (fun i => (i < n)%nat)
              (recordRound true vRes vResOut vFrac vFracOut vLiq)
              (recordAt true vRes vResOut vFrac vFracOut vLiq)
              (fun i s Hi Hs => recordRound_sized true _ _ _ _ _ n i s Hv1 Hv2 Hv3 Hv4 Hv5 Hi Hs)
              (seq 0 n) s) as [Hrec Hsized1]; [|exact Hsized|].
  { apply Forall_forall. intros i Hi. apply elem_of_seq in Hi. lia. }
  pose proof (recordRounds_fields vRes vResOut vFrac vFracOut vLiq true (seq 0 n) s)
    as Hfields1.
  cbn zeta in Hfields1.
  remember (fold_left (fun acc i => recordAt true vRes vResOut vFrac vFracOut vLiq i acc)
                      (seq 0 n) s) as s1 eqn:Hs1.
  destruct Hfields1 as (Hres1 & Hin1 & Hnat1 & Hout1 & Hsup1 & Hcur1 & Hem1 & Hno1 & Hpre1).
  assert (Hmap : GetReserveMap (state s1) = GetReserveMap (state s)).
  { unfold GetReserveMap. now rewrite Hcur1. }
  set (idx := (entriesInOrder (GetReserveMap (state s))).*2).
  assert (Hperm : idx ≡ₚ seq 0 n).
  { subst idx. rewrite <- Hn. apply reserveMap_positions. exact Hnd. }
  assert (Hndi : NoDup idx) by (rewrite Hperm; apply NoDup_seq).
  assert (Hmem : forall j, j ∈ idx <-> (j < n)%nat).
  { intros j. rewrite Hperm, elem_of_seq. lia. }
  destruct (checked_rounds (fun s => sized n s) (fun i => (i < n)%nat)
              revertRound revertAt (fun i s Hi Hs => revertRound_sized n i s Hi Hs)
              idx s1) as [Hrev _]; [|exact Hsized1|].
  { apply Forall_forall. intros i Hi. now apply Hmem. }
  pose proof (revertRounds_fields idx s1) as Hfields2. cbn zeta in Hfields2.
  remember (fold_left (fun acc i => revertAt i acc) idx s1) as s1' eqn:Hs1'.
  destruct Hfields2 as (Hres2 & Hsup2 & Hin2 & Hout2 & Hnat2 & Hem2 & Hno2 & Hpre2).
  exists s1. eexists. split.
  { unfold recordFlows. rewrite Hn. exact Hrec. }
  split.
  { unfold revertFlows. rewrite Hmap, fold_rounds_snd. fold idx. rewrite Hrev.
    cbn [outcome_bind]. reflexivity. }
  cbn [withState withSupply state reserves supply].
  assert (Hpw : forall g (l : list Z) j,
             (j < n)%nat ->
             fold_left (fun l i => <[i := g i (at_ l i)]> l) (seq 0 n) l !! j = g j <$> l !! j).
  { intros g l j Hj. rewrite (pointwise_fold g (seq 0 n) (NoDup_seq 0 n)).
    rewrite decide_True by (apply elem_of_seq; lia). reflexivity. }
  assert (Ho : forall j, (j < n)%nat -> at_ (reserveOut s1) j = at_ vResOut j).
  { intros j Hj. apply at_lookup. rewrite Hout1.
    pose proof (Hpw (fun i _ => at_ vResOut i) (reserveOut s) j Hj) as Hp.
    cbv beta in Hp. rewrite Hp.
    destruct (lookup_lt_is_Some_2 (reserveOut s) j ltac:(lia)) as [x ->]. reflexivity. }
  assert (Hi : forall j, (j < n)%nat ->
                         at_ (reserveIn s1) j = int64 (at_ vRes j + at_ vLiq j)).
  { intros j Hj. apply at_lookup. rewrite Hin1.
    pose proof (Hpw (fun i _ => int64 (at_ vRes i + at_ vLiq i)) (reserveIn s) j Hj) as Hp.
    cbv beta in Hp. rewrite Hp.
    destruct (lookup_lt_is_Some_2 (reserveIn s) j ltac:(lia)) as [x ->]. reflexivity. }
  assert (Hna : forall j, (j < n)%nat -> at_ (nativeIn s1) j = at_ vFrac j).
  { intros j Hj. apply at_lookup. rewrite Hnat1.
    pose proof (Hpw (fun i _ => at_ vFrac i) (nativeIn s) j Hj) as Hp.
    cbv beta in Hp. rewrite Hp.
    destruct (lookup_lt_is_Some_2 (nativeIn s) j ltac:(lia)) as [x ->]. reflexivity. }
  split.
  - rewrite Hres2. apply list_eq. intros j.
    pose proof (pointwise_fold
                  (fun i r => int64 (r + int64 (at_ (reserveOut s1) i - at_ (reserveIn s1) i)))
                  idx Hndi (reserves (state s1)) j) as Hp2.
    cbv beta in Hp2. rewrite Hp2. clear Hp2.
    pose proof (pointwise_fold
                  (fun i r => int64 (r + int64 (int64 (at_ vRes i - at_ vResOut i)
                                               + at_ vLiq i)))
                  (seq 0 n) (NoDup_seq 0 n) (reserves (state s)) j) as Hp1.
    cbv beta in Hp1. rewrite Hres1, Hp1. clear Hp1.
    destruct (decide (j ∈ idx)) as [Hj | Hj].
    + apply Hmem in Hj.
      rewrite decide_True by (apply elem_of_seq; lia).
      destruct (lookup_lt_is_Some_2 (reserves (state s)) j ltac:(lia)) as [r Hr].
      rewrite Hr. cbn [fmap option_fmap option_map]. f_equal.
      rewrite (Ho j Hj), (Hi j Hj).
      transitivity (int64 r); [int64_eq|].
      apply int64_id. rewrite Forall_lookup in Hin. exact (Hin j r Hr).
    + rewrite decide_False by (rewrite elem_of_seq; rewrite Hmem in Hj; lia).
      reflexivity.
  - rewrite Hem2, Hno2, Hpre2, Hem1, Hno1, Hpre1.
    rewrite int64_sub_r, <- int64_sub_l.
    rewrite Hsup2, wrapped_sum_fold.
    rewrite int64_sub_l.
    rewrite (sumZ_Permutation _ _ (Permutation_map _ Hperm)).
    assert (Hnative : map (at_ (nativeIn s1)) (seq 0 n) = map (at_ vFrac) (seq 0 n)).
    { apply map_ext_in. intros j Hj. apply in_seq in Hj. apply Hna. lia. }
    rewrite Hnative.
    set (X := Z.max (nativeOut s) (emitted (state s)) - preConvertedOut s).
    set (F := sumZ (map (at_ vFrac) (seq 0 n))).
    replace (supply (state s1) + F - X) with (supply (state s1) + (F - X)) by lia.
    rewrite <- int64_add_l, Hsup1, wrapped_sum_fold, wrapped_sum_inner.
    rewrite int64_add_l, sumZ_map_sub. fold F.
    rewrite <- Hv4 at 1. rewrite map_at_seq. f_equal. lia.
Qed.

End RevertFacts.

Lemma revertFlows_undoes_recordFlows_witness :
  let s := Coinbase.mkState
             (mkCurrencyState 1 1 5%N [7%N; 8%N] [50000000; 50000000] [1000; 2000] 0 0 5000)
             [0; 0] [0; 0] [0; 0] [0; 0] [0; 0] [0; 0] [0; 0] 0 0 40 0 in
  exists s1 s2,
    Coinbase.recordFlows true [100; 0] [0; 30] [0; 60] [40; 0] [5; 0] s = Returns s1
    /\ Coinbase.revertFlows s1 = Returns s2
    /\ reserves (Coinbase.state s2) = reserves (Coinbase.state s)
    /\ supply (Coinbase.state s2)
       = int64 (supply (Coinbase.state s) + sumZ [40; 0]
                - (Z.max (Coinbase.nativeOut s) (emitted (Coinbase.state s))
                   - Coinbase.preConvertedOut s)).
Proof.
  apply (revertFlows_undoes_recordFlows [100; 0] [0; 30] [0; 60] [40; 0] [5; 0]
           (Coinbase.mkState
              (mkCurrencyState 1 1 5%N [7%N; 8%N] [50000000; 50000000] [1000; 2000] 0 0 5000)
              [0; 0] [0; 0] [0; 0] [0; 0] [0; 0] [0; 0] [0; 0] 0 0 40 0) 2%nat).
  - reflexivity.
  - cbn. compute_done.
  - reflexivity.
  - reflexivity.
  - reflexivity.
  - reflexivity.
  - reflexivity.
  - reflexivity.
  - reflexivity.
  - reflexivity.
  - reflexivity.
  - cbn. repeat constructor; vm_compute; discriminate.
Defined.

Section ValueColumnsFacts.

Variables UniValue Name : Type.
Variable find_value : UniValue -> Name -> UniValue.
Variable isObject : UniValue -> bool.
Variable AmountFromValue : UniValue -> amountParse.

Local Abbreviation cell := (cellAmount UniValue Name find_value AmountFromValue).

Lemma alter_at_length {A} (f : A -> A) (l1 l2 : list A) x :
  alter f (length l1) (l1 ++ x :: l2) = l1 ++ f x :: l2.
Proof. induction l1 as [|y l1 IH]; [reflexivity|]. cbn. f_equal. exact IH. Qed.

Lemma columnsOfRow_step uni rowName c rest j retVal :
  AmountFromValue (find_value (find_value uni rowName) c) <> OtherException ->
  columnsOfRow UniValue Name find_value AmountFromValue (find_value uni rowName)
               (c :: rest) j retVal
  = columnsOfRow UniValue Name find_value AmountFromValue (find_value uni rowName) rest (S j)
      (alter (fun column => column ++ [cell uni rowName c]) j
             (if bool_decide (length retVal = j) then retVal ++ [[]] else retVal)).
Proof.
  intros Hc. cbn [columnsOfRow]. unfold cellAmount.
  destruct (AmountFromValue (find_value (find_value uni rowName) c));
    [reflexivity|reflexivity|contradiction].
Qed.

Lemma columnsOfRow_spec uni rowName :
  forall columnNames newCols oldRest,
    (forall c, c ∈ columnNames ->
               AmountFromValue (find_value (find_value uni rowName) c) <> OtherException) ->
    oldRest = [] \/ length oldRest = length columnNames ->
    columnsOfRow UniValue Name find_value AmountFromValue (find_value uni rowName)
                 columnNames (length newCols) (newCols ++ oldRest)
    = Some (newCols
            ++ zip_with (fun column c => column ++ [cell uni rowName c])
                        (if decide (oldRest = []) then replicate (length columnNames) []
                         else oldRest)
                        columnNames).
Proof.
  induction columnNames as [|c rest IH]; intros newCols oldRest Hok Hold.
  - cbn. f_equal. destruct Hold as [-> | Hlen].
    + reflexivity.
    + destruct oldRest; [reflexivity|discriminate].
  - assert (Hc : AmountFromValue (find_value (find_value uni rowName) c) <> OtherException)
      by (apply Hok; apply list_elem_of_here).
    rewrite (columnsOfRow_step _ _ _ _ _ _ Hc).
    assert (Hrest : forall c', c' ∈ rest ->
                AmountFromValue (find_value (find_value uni rowName) c') <> OtherException)
      by (intros c' Hc'; apply Hok; now apply list_elem_of_further).
    destruct oldRest as [|column oldRest].
    + rewrite app_nil_r. rewrite bool_decide_eq_true_2 by reflexivity.
      rewrite decide_True by reflexivity.
      assert (Halter : alter (fun column => column ++ [cell uni rowName c]) (length newCols)
                             (newCols ++ [[]])
                       = (newCols ++ [[cell uni rowName c]]) ++ []).
      { rewrite app_nil_r.
        exact (alter_at_length (fun column => column ++ [cell uni rowName c]) newCols [] []). }
      specialize (IH (newCols ++ [[cell uni rowName c]]) [] Hrest (or_introl eq_refl)).
      rewrite length_app in IH. cbn [length] in IH.
      replace (length newCols + 1)%nat with (S (length newCols)) in IH by lia.
      rewrite decide_True in IH by reflexivity.
      rewrite Halter, IH. cbn. rewrite <- app_assoc. reflexivity.
    + destruct Hold as [Hnil | Hlen]; [discriminate|].
      rewrite bool_decide_eq_false_2 by (rewrite length_app; cbn; lia).
      rewrite decide_False by discriminate.
      assert (Halter : alter (fun column => column ++ [cell uni rowName c]) (length newCols)
                             (newCols ++ column :: oldRest)
                       = (newCols ++ [column ++ [cell uni rowName c]]) ++ oldRest).
      { rewrite <- app_assoc.
        exact (alter_at_length (fun column => column ++ [cell uni rowName c])
                               newCols oldRest column). }
      assert (Hold' : oldRest = [] \/ length oldRest = length rest).
      { right. cbn in Hlen. lia. }
      specialize (IH (newCols ++ [column ++ [cell uni rowName c]]) oldRest Hrest Hold').
      rewrite length_app in IH. cbn [length] in IH.
      replace (length newCols + 1)%nat with (S (length newCols)) in IH by lia.
      assert (Hzip : zip_with (fun column c => column ++ [cell uni rowName c])
                              (if decide (oldRest = []) then replicate (length rest) []
                               else oldRest) rest
                     = zip_with (fun column c => column ++ [cell uni rowName c]) oldRest rest).
      { destruct (decide (oldRest = [])) as [-> | _]; [|reflexivity].
        destruct rest; [reflexivity|]. cbn in Hlen. discriminate. }
      rewrite Hzip in IH.
      rewrite Halter, IH. cbn. rewrite <- app_assoc. reflexivity.
Qed.

Lemma zip_with_replicate_l {A B C} (f : A -> B -> C) x (l : list B) :
  zip_with f (replicate (length l) x) l = map (f x) l.
Proof. induction l as [|y l IH]; [reflexivity|]. cbn. now rewrite IH. Qed.

Lemma zip_with_map_l {A B C} (f : A -> B -> C) (g : B -> A) (l : list B) :
  zip_with f (map g l) l = map (fun y => f (g y) y) l.
Proof. induction l as [|y l IH]; [reflexivity|]. cbn. now rewrite IH. Qed.

Lemma columnsOfRows_spec uni columnNames :
  forall rowNames seen retVal,
    (forall r c, r ∈ rowNames -> isObject (find_value uni r) = true -> c ∈ columnNames ->
                 AmountFromValue (find_value (find_value uni r) c) <> OtherException) ->
    retVal = match seen with
             | [] => []
             | _ => map (fun c => map (fun r => cell uni r c) seen) columnNames
             end ->
    columnsOfRows UniValue Name find_value isObject AmountFromValue uni rowNames columnNames
                  retVal
    = Some (match seen ++ List.filter (fun r => isObject (find_value uni r)) rowNames with
            | [] => []
            | objects => map (fun c => map (fun r => cell uni r c) objects) columnNames
            end).
Proof.
  induction rowNames as [|r rowNames IH]; intros seen retVal Hok Hret.
  - cbn. rewrite app_nil_r. subst retVal. destruct seen; reflexivity.
  - cbn [columnsOfRows List.filter].
    assert (Hrest : forall r' c, r' ∈ rowNames -> isObject (find_value uni r') = true ->
                                 c ∈ columnNames ->
                                 AmountFromValue (find_value (find_value uni r') c)
                                 <> OtherException).
    { intros r' c Hr'. apply Hok. now apply list_elem_of_further. }
    destruct (isObject (find_value uni r)) eqn:Hobj; [|now apply IH].
    assert (Hold : retVal = [] \/ length retVal = length columnNames).
    { subst retVal. destruct seen; [now left|right]. now rewrite length_map. }
    pose proof (columnsOfRow_spec uni r columnNames [] retVal
                  (fun c Hc => Hok r c (list_elem_of_here _ _) Hobj Hc) Hold) as Hrow.
    cbn [length app] in Hrow. rewrite Hrow. cbn [mbind option_bind].
    replace (seen ++ r :: List.filter (fun r0 => isObject (find_value uni r0)) rowNames)
      with ((seen ++ [r]) ++ List.filter (fun r0 => isObject (find_value uni r0)) rowNames)
      by (now rewrite <- app_assoc).
    apply IH; [exact Hrest|].
    assert (Hnext : zip_with (fun column c => column ++ [cell uni r c])
                             (if decide (retVal = []) then replicate (length columnNames) []
                              else retVal) columnNames
                    = map (fun c => map (fun r0 => cell uni r0 c) (seen ++ [r])) columnNames).
    { destruct (decide (retVal = [])) as [Hnil | Hne].
      - rewrite zip_with_replicate_l. destruct seen as [|r0 seen]; [reflexivity|].
        rewrite Hret in Hnil. destruct columnNames; [reflexivity|discriminate].
      - destruct seen as [|r0 seen]; [contradiction|].
        rewrite Hret, zip_with_map_l. apply map_ext. intros c.
        now rewrite map_app. }
    rewrite Hnext. destruct seen; reflexivity.
Qed.

(** X21: the rows that are JSON objects are read into one vector per column
    name, in the order of the row names; a row that is not an object is
    left out, and when no row is an object there is no column at all *)
Theorem ValueColumnsFromUniValue_table uni rowNames columnNames :
  (forall r c, r ∈ rowNames -> isObject (find_value uni r) = true -> c ∈ columnNames ->
               AmountFromValue (find_value (find_value uni r) c) <> OtherException) ->
  ValueColumnsFromUniValue UniValue Name find_value isObject AmountFromValue
                           uni rowNames columnNames
  = Some (match List.filter (fun r => isObject (find_value uni r)) rowNames with
          | [] => []
          | objects => map (fun c => map (fun r => cell uni r c) objects) columnNames
          end).
Proof.
  intros Hok. unfold ValueColumnsFromUniValue.
  exact (columnsOfRows_spec uni columnNames rowNames [] [] Hok eq_refl).
Qed.

End ValueColumnsFacts.

(** a table whose rows 1 and 3 are objects and whose cell for row [r] and
    column [c] holds [10 * r + c] *)
Lemma ValueColumnsFromUniValue_table_witness :
  let find_value := fun (u n : nat) => (10 * u + n)%nat in
  let isObject := fun (u : nat) => Nat.odd u in
  let AmountFromValue := fun (u : nat) => Amount (Z.of_nat u) in
  ValueColumnsFromUniValue nat nat find_value isObject AmountFromValue
                           0%nat [1; 2; 3]%nat [5; 6]%nat
  = Some (match List.filter (fun r => isObject (find_value 0%nat r)) [1; 2; 3]%nat with
          | [] => []
          | objects =>
              map (fun c => map (fun r => cellAmount nat nat find_value AmountFromValue
                                                     0%nat r c) objects) [5; 6]%nat
          end).
Proof.
  apply (ValueColumnsFromUniValue_table nat nat (fun u n => (10 * u + n)%nat) Nat.odd
           (fun u => Amount (Z.of_nat u)) 0%nat [1; 2; 3]%nat [5; 6]%nat).
  intros r c _ _ _. discriminate.
Defined.

Section RefundFacts.

Variables DOUBLE_SEND PRECONVERT CONVERT PREALLOCATE MINT_CURRENCY REFUND : Z.
Variables DEST_FULLID DEST_ID : Z.
Variables SUCCESS_FEE MIN_SUCCESS_FEE RESERVE_TO_RESERVE : Z.

Local Abbreviation refund :=
  (GetRefundTransfer DOUBLE_SEND PRECONVERT CONVERT PREALLOCATE MINT_CURRENCY REFUND
                     DEST_FULLID DEST_ID).

#[local] Instance keyLe_trans {A} : Transitive (@keyLe A).
Proof. intros x y z. unfold keyLe. lia. Qed.

#[local] Instance keyLe_total {A} : Total (@keyLe A).
Proof. intros x y. unfold keyLe. lia. Qed.

(** the first entry of a map walked in key order has the least key *)
Lemma entriesInOrder_first {A} (m : gmap N A) c a rest :
  entriesInOrder m = (c, a) :: rest ->
  m !! c = Some a /\ forall k, is_Some (m !! k) -> (c <= k)%N.
Proof.
  intros Hent. split.
  - apply entriesInOrder_elem. rewrite Hent. apply list_elem_of_here.
  - intros k [x Hk]. apply entriesInOrder_elem in Hk. rewrite Hent in Hk.
    pose proof (StronglySorted_merge_sort keyLe (map_to_list m)) as Hs.
    fold (entriesInOrder m) in Hs. rewrite Hent in Hs.
    apply StronglySorted_inv in Hs. destruct Hs as [_ Hall].
    apply elem_of_cons in Hk. destruct Hk as [Heq | Hin].
    + injection Heq as -> _. lia.
    + rewrite Forall_forall in Hall. exact (Hall _ Hin).
Qed.

Lemma entriesInOrder_nil {A} (m : gmap N A) : entriesInOrder m = [] <-> m = ∅.
Proof.
  split.
  - intros Hent. apply map_to_list_empty_iff. apply Permutation_nil_r.
    rewrite <- Hent. symmetry. apply entriesInOrder_perm.
  - intros ->. apply Permutation_nil_r. rewrite entriesInOrder_perm.
    now rewrite map_to_list_empty.
Qed.

(** a bit of [bit] that is cleared from the flag word and is not in what
    is set afterwards is not in the result *)
Lemma cleared_flag flags mask other bit :
  Z.land bit (Z.lnot mask) = 0 -> Z.land other bit = 0 ->
  Z.land (Z.lor (clearFlags flags mask) other) bit = 0.
Proof.
  intros Hin Hother. unfold clearFlags.
  rewrite Z.land_lor_distr_l, Hother, Z.lor_0_r.
  rewrite <- Z.land_assoc, (Z.land_comm (Z.lnot mask)), Hin. apply Z.land_0_r.
Qed.

Lemma cleared_flag_twice flags mask mask' other bit :
  Z.land bit (Z.lnot mask) = 0 -> Z.land other bit = 0 ->
  Z.land (Z.lor (clearFlags (clearFlags flags mask) mask') other) bit = 0.
Proof.
  intros Hin Hother. unfold clearFlags.
  rewrite Z.land_lor_distr_l, Hother, Z.lor_0_r.
  rewrite <- !Z.land_assoc, (Z.land_comm (Z.lnot mask') bit), (Z.land_assoc (Z.lnot mask)),
    (Z.land_comm (Z.lnot mask) bit), Hin.
  now rewrite Z.land_0_l, Z.land_0_r.
Qed.

(** [bit] is one of the bits of [mask] *)
Lemma in_mask_l a b : Z.land a (Z.lnot (Z.lor a b)) = 0.
Proof.
  apply Z.bits_inj'. intros n Hn.
  rewrite Z.land_spec, Z.lnot_spec, Z.lor_spec, Z.bits_0 by assumption.
  destruct (Z.testbit a n), (Z.testbit b n); reflexivity.
Qed.

Lemma in_mask_r a b : Z.land b (Z.lnot (Z.lor a b)) = 0.
Proof. rewrite Z.lor_comm. apply in_mask_l. Qed.

Lemma in_mask_ll a b c : Z.land b (Z.lnot (Z.lor (Z.lor a b) c)) = 0.
Proof.
  apply Z.bits_inj'. intros n Hn.
  rewrite Z.land_spec, Z.lnot_spec, !Z.lor_spec, Z.bits_0 by assumption.
  destruct (Z.testbit a n), (Z.testbit b n), (Z.testbit c n); reflexivity.
Qed.

(** a flag that has been set is read back *)
Lemma set_flag flags bit : Z.land (Z.lor flags bit) bit = bit.
Proof.
  apply Z.bits_inj'. intros n Hn. rewrite Z.land_spec, Z.lor_spec.
  destruct (Z.testbit flags n), (Z.testbit bit n); reflexivity.
Qed.

(** X22: a refund is a plain transfer: it is flagged [REFUND], it is no
    conversion and no pre-conversion, so no conversion fee is due on it;
    it is destined for the first currency it carries, and the amounts of
    the other currencies are those of the transfer refunded.  A transfer
    that carries no currency cannot be refunded. *)
Theorem GetRefundTransfer_plain t :
  Z.land REFUND CONVERT = 0 -> Z.land REFUND PRECONVERT = 0 ->
  (reserveValues (rf_transfer t) = ∅ -> refund t = Fails Undefined)
  /\ (reserveValues (rf_transfer t) <> ∅ ->
      exists t',
        refund t = Returns t'
        /\ Z.land (rt_flags (rf_transfer t')) REFUND = REFUND
        /\ IsConversion CONVERT (rf_transfer t') = false
        /\ IsPreConversion PRECONVERT (rf_transfer t') = false
        /\ ConversionFee SUCCESS_FEE MIN_SUCCESS_FEE PRECONVERT CONVERT RESERVE_TO_RESERVE
                         (rf_transfer t') = ∅
        /\ is_Some (reserveValues (rf_transfer t) !! rf_destCurrencyID t')
        /\ (forall k, is_Some (reserveValues (rf_transfer t) !! k) ->
                      (rf_destCurrencyID t' <= k)%N)
        /\ (forall k, k <> rf_destCurrencyID t' ->
                      reserveValues (rf_transfer t') !! k = reserveValues (rf_transfer t) !! k)
        /\ destination_size (rf_transfer t') = destination_size (rf_transfer t)).
Proof.
  intros Hrc Hrp. unfold GetRefundTransfer. split.
  - intros Hempty. apply entriesInOrder_nil in Hempty. now rewrite Hempty.
  - intros Hne.
    destruct (entriesInOrder (reserveValues (rf_transfer t))) as [|[c a] rest] eqn:Hent.
    { exfalso. apply Hne. now apply entriesInOrder_nil. }
    destruct (entriesInOrder_first _ _ _ _ Hent) as [Hc Hmin].
    set (mask := Z.lor (Z.lor DOUBLE_SEND PRECONVERT) CONVERT).
    assert (Hconv : Z.land CONVERT (Z.lnot mask) = 0) by apply in_mask_r.
    assert (Hpre : Z.land PRECONVERT (Z.lnot mask) = 0) by apply in_mask_ll.
    destruct (has_flag (clearFlags (rt_flags (rf_transfer t)) mask)
                       (Z.lor PREALLOCATE MINT_CURRENCY)).
    + eexists. split; [reflexivity|]. cbn [rf_transfer rt_flags rf_destCurrencyID
                                            reserveValues destination_size].
      assert (H1 : IsConversion CONVERT
                     (mkReserveTransfer
                        (Z.lor (clearFlags (clearFlags (rt_flags (rf_transfer t)) mask)
                                           (Z.lor PREALLOCATE MINT_CURRENCY)) REFUND)
                        (<[c := 0]> (reserveValues (rf_transfer t)))
                        (destination_size (rf_transfer t))) = false).
      { unfold IsConversion, has_flag. cbn [rt_flags].
        now rewrite cleared_flag_twice by assumption. }
      assert (H2 : IsPreConversion PRECONVERT
                     (mkReserveTransfer
                        (Z.lor (clearFlags (clearFlags (rt_flags (rf_transfer t)) mask)
                                           (Z.lor PREALLOCATE MINT_CURRENCY)) REFUND)
                        (<[c := 0]> (reserveValues (rf_transfer t)))
                        (destination_size (rf_transfer t))) = false).
      { unfold IsPreConversion, has_flag. cbn [rt_flags].
        now rewrite cleared_flag_twice by assumption. }
      split; [|split; [exact H1|split; [exact H2|split; [|split; [eauto|split;
             [exact Hmin|split; [|reflexivity]]]]]]].
      * apply set_flag.
      * unfold ConversionFee. now rewrite H1, H2.
      * intros k Hk. now rewrite lookup_insert_ne by congruence.
    + eexists. split; [reflexivity|]. cbn [rf_transfer rt_flags rf_destCurrencyID
                                            reserveValues destination_size].
      assert (H1 : IsConversion CONVERT
                     (mkReserveTransfer
                        (Z.lor (clearFlags (rt_flags (rf_transfer t)) mask) REFUND)
                        (reserveValues (rf_transfer t))
                        (destination_size (rf_transfer t))) = false).
      { unfold IsConversion, has_flag. cbn [rt_flags].
        now rewrite cleared_flag by assumption. }
      assert (H2 : IsPreConversion PRECONVERT
                     (mkReserveTransfer
                        (Z.lor (clearFlags (rt_flags (rf_transfer t)) mask) REFUND)
                        (reserveValues (rf_transfer t))
                        (destination_size (rf_transfer t))) = false).
      { unfold IsPreConversion, has_flag. cbn [rt_flags].
        now rewrite cleared_flag by assumption. }
      split; [|split; [exact H1|split; [exact H2|split; [|split; [eauto|split;
             [exact Hmin|split; [|reflexivity]]]]]]].
      * apply set_flag.
      * unfold ConversionFee. now rewrite H1, H2.
      * intros k Hk. reflexivity.
Qed.

End RefundFacts.

Lemma GetRefundTransfer_plain_witness :
  let t := mkRefundable (mkReserveTransfer (1 + 2) {[ 7%N := 1000 ]} 20) 9%N 5 in
  (reserveValues (rf_transfer t) = ∅ ->
   GetRefundTransfer 16 4 2 64 32 2048 5 4 t = Fails Undefined)
  /\ (reserveValues (rf_transfer t) <> ∅ ->
      exists t',
        GetRefundTransfer 16 4 2 64 32 2048 5 4 t = Returns t'
        /\ Z.land (rt_flags (rf_transfer t')) 2048 = 2048
        /\ IsConversion 2 (rf_transfer t') = false
        /\ IsPreConversion 4 (rf_transfer t') = false
        /\ ConversionFee 25000 20000 4 2 1024 (rf_transfer t') = ∅
        /\ is_Some (reserveValues (rf_transfer t) !! rf_destCurrencyID t')
        /\ (forall k, is_Some (reserveValues (rf_transfer t) !! k) ->
                      (rf_destCurrencyID t' <= k)%N)
        /\ (forall k, k <> rf_destCurrencyID t' ->
                      reserveValues (rf_transfer t') !! k = reserveValues (rf_transfer t) !! k)
        /\ destination_size (rf_transfer t') = destination_size (rf_transfer t)).
Proof.
  apply (GetRefundTransfer_plain 16 4 2 64 32 2048 5 4 25000 20000 1024
           (mkRefundable (mkReserveTransfer (1 + 2) {[ 7%N := 1000 ]} 20) 9%N 5)).
  - reflexivity.
  - reflexivity.
Defined.
